(** * Design-token build script: colour parsing, naming, reference
      resolution and the light/dark merge

    A shallow embedding of the token build scripts.  The repository holds
    four successive versions of one script; each is embedded in a module
    of its own, as far as the stated properties need it:

    - [V1]: the first script (per-mode documents, underscore prefix);
    - [V2]: the first script with a merged light/dark registry;
    - [V3]: the script with the value-keyed primitive lookup;
    - [V4]: the script with path-keyed primitive and brand lookups.

    [toComposeColor] is the same text in all four and is embedded once.

    Strings.  A JavaScript string is modelled by a [string] whose
    characters are its code units, which are those below 256.  The
    character classes of the patterns and [toLowerCase] are given for
    all of them.  [toUpperCase] is given for all but two: the
    upper-case forms of the code units 181 (the micro sign) and 255 (y
    with diaeresis) are code units above 255, which these strings do
    not hold, and the embedding leaves the two as they are.

    Numbers.  A JavaScript number is a binary64 value; the only numbers
    the scripts compute are non-negative, so [double] has no sign.  A
    decimal text is read as the binary64 value nearest to it, as the
    engines do (the language leaves them a margin past twenty
    significant digits). *)

From Stdlib Require Import ZArith Lia Ascii String List Bool Sorted.
From stdpp Require Import gmap strings list.

Local Open Scope Z_scope.

(** ** Characters *)

Definition code (c : ascii) : N := N_of_ascii c.

Definition between (lo hi : N) (c : ascii) : bool :=
  ((lo <=? code c) && (code c <=? hi))%N.

(** [\d] *)
Definition isDigit (c : ascii) : bool := between 48 57 c.
(** [[A-Z]] *)
Definition isUpperAZ (c : ascii) : bool := between 65 90 c.
(** [[a-z]] *)
Definition isLowerAZ (c : ascii) : bool := between 97 122 c.
(** [[A-Fa-f0-9]] *)
Definition isHexDigit (c : ascii) : bool :=
  between 65 70 c || between 97 102 c || isDigit c.
(** [[a-zA-Z0-9]] *)
Definition isAlnum (c : ascii) : bool :=
  isLowerAZ c || isUpperAZ c || isDigit c.
(** [[\d.]] *)
Definition isDigitOrDot (c : ascii) : bool :=
  isDigit c || (code c =? 46)%N.
(** [\s]: tab, line feed, vertical tab, form feed, carriage return,
    space and no-break space *)
Definition isSpace (c : ascii) : bool :=
  between 9 13 c || (code c =? 32)%N || (code c =? 160)%N.
(** the characters [.] does not match: line feed and carriage return *)
Definition isLineTerminator (c : ascii) : bool :=
  (code c =? 10)%N || (code c =? 13)%N.

(** the letters with an upper-case form of one code unit below 256:
    [a-z] and the small letters of Latin-1 from 224 to 254, but 247,
    the division sign *)
Definition hasUpper (c : ascii) : bool :=
  isLowerAZ c || (between 224 254 c && negb (code c =? 247)%N).
(** the letters with a lower-case form: [A-Z] and the capital letters
    of Latin-1 from 192 to 222, but 215, the multiplication sign *)
Definition hasLower (c : ascii) : bool :=
  isUpperAZ c || (between 192 222 c && negb (code c =? 215)%N).

(** the upper-case form of a code unit when it is one code unit; the
    canonical form of a character under the [i] flag *)
Definition toUpperChar (c : ascii) : ascii :=
  if hasUpper c then ascii_of_N (code c - 32) else c.
Definition toLowerChar (c : ascii) : ascii :=
  if hasLower c then ascii_of_N (code c + 32) else c.

(** equality of characters under the [i] flag *)
Definition eqCI (a b : ascii) : bool :=
  Ascii.eqb (toUpperChar a) (toUpperChar b).

(** [c.toUpperCase()] for one code unit: the sharp s, 223, becomes
    [SS] *)
Definition upperOf (c : ascii) : string :=
  if (code c =? 223)%N then "SS" else String (toUpperChar c) EmptyString.

(** ** Strings *)

Fixpoint mapS (f : ascii -> ascii) (s : string) : string :=
  match s with
  | EmptyString => EmptyString
  | String c r => String (f c) (mapS f r)
  end.

Fixpoint allS (p : ascii -> bool) (s : string) : bool :=
  match s with
  | EmptyString => true
  | String c r => p c && allS p r
  end.

Definition toLowerCase : string -> string := mapS toLowerChar.

Fixpoint toUpperCase (s : string) : string :=
  match s with
  | EmptyString => EmptyString
  | String c r => upperOf c +:+ toUpperCase r
  end.

(** [s.startsWith(p)] *)
Fixpoint startsWith (s p : string) : bool :=
  match p, s with
  | EmptyString, _ => true
  | String a p', String b s' => Ascii.eqb a b && startsWith s' p'
  | String _ _, EmptyString => false
  end.

(** [p] matches at the start of [s], ignoring case *)
Fixpoint startsWithCI (s p : string) : bool :=
  match p, s with
  | EmptyString, _ => true
  | String a p', String b s' => eqCI a b && startsWithCI s' p'
  | String _ _, EmptyString => false
  end.

(** [s.slice(n)] for [0 <= n] *)
Fixpoint sliceFrom (n : nat) (s : string) : string :=
  match n, s with
  | O, _ => s
  | S k, String _ r => sliceFrom k r
  | S _, EmptyString => EmptyString
  end.

(** [s.slice(0, n)] *)
Fixpoint sliceTo (n : nat) (s : string) : string :=
  match n, s with
  | S k, String c r => String c (sliceTo k r)
  | _, _ => EmptyString
  end.

(** [s.endsWith(p)] *)
Definition endsWith (s p : string) : bool :=
  (String.length p <=? String.length s)%nat
  && String.eqb (sliceFrom (String.length s - String.length p) s) p.

Definition endsWithCI (s p : string) : bool :=
  (String.length p <=? String.length s)%nat
  && String.eqb
       (mapS toUpperChar (sliceFrom (String.length s - String.length p) s))
       (mapS toUpperChar p).

(** [s.includes(p)] *)
Fixpoint includes (s p : string) : bool :=
  startsWith s p
  || match s with
     | EmptyString => false
     | String _ r => includes r p
     end.

(** [s.charAt(0)] *)
Definition charAt0 (s : string) : string :=
  match s with
  | EmptyString => EmptyString
  | String c _ => String c EmptyString
  end.

(** [l.join(sep)] *)
Fixpoint join (sep : string) (l : list string) : string :=
  match l with
  | [] => ""
  | [x] => x
  | x :: rest => x +:+ sep +:+ join sep rest
  end.

(** [s.split(sep)] for a one-character separator: [splitAcc] carries the
    part being read, in reverse. *)
Fixpoint splitAcc (sep : ascii) (cur : string) (s : string) : list string :=
  match s with
  | EmptyString => [cur]
  | String c r =>
      if Ascii.eqb c sep then cur :: splitAcc sep "" r
      else splitAcc sep (cur +:+ String c "") r
  end.

Definition split (sep : ascii) (s : string) : list string :=
  splitAcc sep "" s.

(** the longest prefix of [s] whose characters satisfy [p], and the rest *)
Fixpoint span (p : ascii -> bool) (s : string) : string * string :=
  match s with
  | EmptyString => ("", "")
  | String c r =>
      if p c then let '(a, b) := span p r in (String c a, b)
      else ("", s)
  end.

(** [\s*] *)
Fixpoint skipSpaces (s : string) : string :=
  match s with
  | EmptyString => ""
  | String c r => if isSpace c then skipSpaces r else s
  end.

(** the rest of [s] after a first character [c] *)
Definition expect (c : ascii) (s : string) : option string :=
  match s with
  | String c' r => if Ascii.eqb c' c then Some r else None
  | EmptyString => None
  end.

Fixpoint repeatS (c : ascii) (n : nat) : string :=
  match n with
  | O => ""
  | S k => String c (repeatS c k)
  end.

(** [s.padStart(n, c)] for a one-character filler *)
Definition padStart (n : nat) (c : ascii) (s : string) : string :=
  repeatS c (n - String.length s) +:+ s.

(** ** Values *)

(** What a token field can hold: nothing, a string, or a value of another
    type, of which only the truthiness matters to the scripts. *)
Inductive jsval : Type :=
  | JUndefined
  | JString (s : string)
  | JOther (truthy : bool).

Definition truthy (v : jsval) : bool :=
  match v with
  | JUndefined => false
  | JString s => negb (String.eqb s "")
  | JOther b => b
  end.

(** [a || b] *)
Definition jsOr (a b : jsval) : jsval := if truthy a then a else b.

(** ** Numbers *)

(** A non-negative binary64 value: [Fin m e] is [m * 2^e]. *)
Inductive double : Type :=
  | NaN
  | Infinity
  | Fin (m e : Z).

(** [a / b] rounded to the nearest integer, ties to even; [0 <= a], [0 < b] *)
Definition roundNearestEven (a b : Z) : Z :=
  let q := a / b in
  let r := a mod b in
  if 2 * r <? b then q
  else if b <? 2 * r then q + 1
  else if Z.even q then q else q + 1.

(** the exponent [k] with [2^k <= n/d < 2^(k+1)]; [0 < n], [0 < d] *)
Definition ilog2 (n d : Z) : Z :=
  let k := Z.log2 n - Z.log2 d in
  if (if 0 <=? k then d * 2 ^ k <=? n else d <=? n * 2 ^ (- k))
  then k else k - 1.

(** The binary64 value nearest to [n / d] (53 significant bits, exponent
    at least -1022, ties to even, overflow to [Infinity]). *)
Definition toDouble (n d : Z) : double :=
  if n =? 0 then Fin 0 0
  else
    let e := Z.max (ilog2 n d) (-1022) in
    let qe := e - 52 in
    let m := if 0 <=? qe then roundNearestEven n (d * 2 ^ qe)
             else roundNearestEven (n * 2 ^ (- qe)) d in
    if (0 <=? qe) && (2 ^ 1024 <=? m * 2 ^ qe) then Infinity
    else Fin m qe.

(** [x * y] *)
Definition fmul (x y : double) : double :=
  match x, y with
  | NaN, _ | _, NaN => NaN
  | Infinity, Infinity => Infinity
  | Infinity, Fin m _ | Fin m _, Infinity => if m =? 0 then NaN else Infinity
  | Fin m1 e1, Fin m2 e2 =>
      let e := e1 + e2 in
      if 0 <=? e then toDouble (m1 * m2 * 2 ^ e) 1
      else toDouble (m1 * m2) (2 ^ (- e))
  end.

(** [Math.round(x)]: the integer [floor(x + 1/2)] *)
Definition Math_round (x : double) : double :=
  match x with
  | Fin m e =>
      if 0 <=? e then Fin (m * 2 ^ e) 0
      else Fin ((2 * m + 2 ^ (- e)) / 2 ^ (- e + 1)) 0
  | _ => x
  end.

Definition digitVal (c : ascii) : Z := Z.of_N (code c) - 48.

(** the value of a string of decimal digits, most significant first *)
Fixpoint decAcc (acc : Z) (s : string) : Z :=
  match s with
  | EmptyString => acc
  | String c r => decAcc (10 * acc + digitVal c) r
  end.

Definition decVal (s : string) : Z := decAcc 0 s.

(** [parseInt(s)] for [s] matched by [\d+] *)
Definition parseInt (s : string) : double := toDouble (decVal s) 1.

(** [parseFloat(s)] for [s] matched by [[\d.]+]: the longest prefix of
    the form digits, or digits [.] digits with a digit on one side at
    least, is read; without one the result is [NaN]. *)
Definition parseFloat (s : string) : double :=
  let '(ip, rest) := span isDigit s in
  let fp := match expect "." rest with
            | Some r => fst (span isDigit r)
            | None => ""
            end in
  if String.eqb (ip +:+ fp) "" then NaN
  else toDouble (decVal (ip +:+ fp)) (10 ^ Z.of_nat (String.length fp)).

Definition hexChar (d : Z) : ascii :=
  if d <? 10 then ascii_of_N (Z.to_N (48 + d))
  else ascii_of_N (Z.to_N (87 + d)).

Fixpoint hexDigits (fuel : nat) (n : Z) (acc : string) : string :=
  match fuel with
  | O => acc
  | S f =>
      let acc' := String (hexChar (n mod 16)) acc in
      if n <? 16 then acc' else hexDigits f (n / 16) acc'
  end.

(** the integer part of [Fin m e] *)
Definition truncZ (m e : Z) : Z :=
  if 0 <=? e then m * 2 ^ e else m / 2 ^ (- e).

(** [x.toString(16)].  The scripts apply it to results of [parseInt] and
    [Math.round] only, which are integers: the digits after the point
    of a fraction are not modelled. *)
Definition toString16 (x : double) : string :=
  match x with
  | NaN => "NaN"
  | Infinity => "Infinity"
  | Fin m e =>
      let n := truncZ m e in
      hexDigits (S (Z.to_nat (Z.log2 n))) n ""
  end.

(** ** The colour parser, [toComposeColor] *)

(** [(\d+)]: the digits and the rest *)
Definition digits1 (s : string) : option (string * string) :=
  let '(d, r) := span isDigit s in
  if String.eqb d "" then None else Some (d, r).

(** the captures of the colour pattern: red, green, blue and, when the
    fourth argument is there, alpha *)
Definition captures : Type := (string * string * string * option string)%type.

(** [(?:,\s*([\d.]+))?\s*\)] after the [\s*] that follows blue *)
Definition rgbaTail (s : string) : option (option string * string) :=
  match expect "," s with
  | Some r =>
      let '(a, r1) := span isDigitOrDot (skipSpaces r) in
      if String.eqb a "" then None
      else match expect ")" (skipSpaces r1) with
           | Some r2 => Some (Some a, r2)
           | None => None
           end
  | None =>
      match expect ")" s with
      | Some r2 => Some (None, r2)
      | None => None
      end
  end.

(** The pattern
    [rgba?\(\s*(\d+)\s*,\s*(\d+)\s*,\s*(\d+)\s*(?:,\s*([\d.]+))?\s*\)]
    matched at the start of [s]: the captures and what follows the match.
    Every repetition is followed by a character outside its class, so
    the greedy choice is the only one that can succeed. *)
Definition rgbaMatchAt (s : string) : option (captures * string) :=
  if startsWith s "rgb" then
    let s0 := sliceFrom 3 s in
    let s1 := match expect "a" s0 with Some r => r | None => s0 end in
    match expect "(" s1 with
    | None => None
    | Some s2 =>
      match digits1 (skipSpaces s2) with
      | None => None
      | Some (r, s3) =>
        match expect "," (skipSpaces s3) with
        | None => None
        | Some s4 =>
          match digits1 (skipSpaces s4) with
          | None => None
          | Some (g, s5) =>
            match expect "," (skipSpaces s5) with
            | None => None
            | Some s6 =>
              match digits1 (skipSpaces s6) with
              | None => None
              | Some (b, s7) =>
                match rgbaTail (skipSpaces s7) with
                | None => None
                | Some (a, s8) => Some ((r, g, b, a), s8)
                end
              end
            end
          end
        end
      end
    end
  else None.

(** [value.match(/rgba?.../)]: the leftmost match *)
Fixpoint rgbaMatch (s : string) : option captures :=
  match rgbaMatchAt s with
  | Some (c, _) => Some c
  | None =>
      match s with
      | EmptyString => None
      | String _ r => rgbaMatch r
      end
  end.

(** [/^#([A-Fa-f0-9]{n})$/] *)
Definition hexMatchN (n : nat) (s : string) : option string :=
  match expect "#" s with
  | Some h =>
      if (String.length h =? n)%nat && allS isHexDigit h then Some h else None
  | None => None
  end.

Definition hexMatch : string -> option string := hexMatchN 6.
Definition hexAlphaMatch : string -> option string := hexMatchN 8.

(** [n.toString(16).padStart(2, '0').toUpperCase()] *)
Definition hexByte (x : double) : string :=
  toUpperCase (padStart 2 "0" (toString16 x)).

(** [toComposeColor(value)]; [None] is [null]. *)
Definition toComposeColor (value : jsval) : option string :=
  match value with
  | JString v =>
      if negb (truthy value) then None
      else if startsWith v "{" && endsWith v "}" then None
      else
        match rgbaMatch v with
        | Some (r, g, b, a) =>
            let alpha := match a with
                         | Some a => Math_round (fmul (parseFloat a) (Fin 255 0))
                         | None => Fin 255 0
                         end in
            let alphaHex := hexByte alpha in
            let red := hexByte (parseInt r) in
            let green := hexByte (parseInt g) in
            let blue := hexByte (parseInt b) in
            Some ("Color(0x" +:+ alphaHex +:+ red +:+ green +:+ blue +:+ ")")
        | None =>
            match hexMatch v with
            | Some h => Some ("Color(0xFF" +:+ toUpperCase h +:+ ")")
            | None =>
                match hexAlphaMatch v with
                | Some h =>
                    let hex := toUpperCase h in
                    Some ("Color(0x" +:+ sliceFrom 6 hex +:+ sliceTo 6 hex +:+ ")")
                | None => None
                end
            end
        end
  | _ => None
  end.

(** ** Replacements shared by the naming functions *)

Definition nl : string := String "010"%char "".
Definition dquote : string := String "034"%char "".

(** [/^\d/.test(s)] *)
Definition startsWithDigit (s : string) : bool :=
  match s with
  | String c _ => isDigit c
  | EmptyString => false
  end.

(** [/^\d+$/.test(s)] *)
Definition allDigits (s : string) : bool :=
  negb (String.eqb s "") && allS isDigit s.

(** [s.charAt(0).toUpperCase() + s.slice(1)] *)
Definition capitalize (s : string) : string :=
  toUpperCase (charAt0 s) +:+ sliceFrom 1 s.

(** [s.charAt(0).toLowerCase() + s.slice(1)] *)
Definition uncapitalize (s : string) : string :=
  toLowerCase (charAt0 s) +:+ sliceFrom 1 s.

(** [s.replace(/-temp$/, 'Temp')] *)
Definition replaceTempSuffix (s : string) : string :=
  if endsWith s "-temp"
  then sliceTo (String.length s - 5) s +:+ "Temp" else s.

(** [s.replace(/-temp$/i, 'Temp')] *)
Definition replaceTempSuffixCI (s : string) : string :=
  if endsWithCI s "-temp"
  then sliceTo (String.length s - 5) s +:+ "Temp" else s.

(** [s.replace(/^p/i, '')] for a literal [p] *)
Definition stripPrefixCI (p : string) (s : string) : string :=
  if startsWithCI s p then sliceFrom (String.length p) s else s.

(** [s.replace(/-([a-zA-Z0-9])/g, (_, char) => char.toUpperCase())];
    [skip] is set on the character a match has consumed. *)
Fixpoint camelize (skip : bool) (s : string) : string :=
  match s with
  | EmptyString => ""
  | String c r =>
      if skip then camelize false r
      else
        match r with
        | String d _ =>
            if Ascii.eqb c "-" && isAlnum d
            then String (toUpperChar d) (camelize true r)
            else String c (camelize false r)
        | EmptyString => String c (camelize false r)
        end
  end.

(** [s.replace(/pat/gi, rep)] for a literal, non-empty [pat]; [skip]
    counts the characters of a match still to pass over. *)
Fixpoint replaceAllCI (pat rep : string) (skip : nat) (s : string) : string :=
  match s with
  | EmptyString => ""
  | String c r =>
      match skip with
      | S k => replaceAllCI pat rep k r
      | O =>
          if startsWithCI s pat
          then rep +:+ replaceAllCI pat rep (String.length pat - 1) r
          else String c (replaceAllCI pat rep 0 r)
      end
  end.

(** the chain [.replace(/w1/gi, 'W1').replace(/w2/gi, 'W2')...] *)
Definition fixWords (words : list string) (s : string) : string :=
  fold_left (fun r w => replaceAllCI w w 0 r) words s.

(** [s.replace(/Hi$/g, 'High')] *)
Definition replaceHiEnd (s : string) : string :=
  if endsWith s "Hi"
  then sliceTo (String.length s - 2) s +:+ "High" else s.

(** [s.replace(/Hi([A-Z])/g, 'High$1')] *)
Fixpoint replaceHiUpper (skip : nat) (s : string) : string :=
  match s with
  | EmptyString => ""
  | String c r =>
      match skip with
      | S k => replaceHiUpper k r
      | O =>
          match r with
          | String i (String u _) =>
              if Ascii.eqb c "H" && Ascii.eqb i "i" && isUpperAZ u
              then "High" +:+ String u (replaceHiUpper 2 r)
              else String c (replaceHiUpper 0 r)
          | _ => String c (replaceHiUpper 0 r)
          end
      end
  end.

(** ** Tokens *)

(** [token.original], with its [$value] and [value] *)
Record Original : Type := mkOriginal {
  original_dollar_value : jsval;
  original_value : jsval
}.

(** A token of [dictionary.allTokens]: [path], [$type], [type], [value],
    [$value] and [original], which may be missing. *)
Record Token : Type := mkToken {
  path : list string;
  dollar_type : jsval;
  type : jsval;
  value : jsval;
  dollar_value : jsval;
  original : option Original
}.

(** [v === s] *)
Definition strictEq (v : jsval) (s : string) : bool :=
  match v with
  | JString s' => String.eqb s' s
  | _ => false
  end.

(** [(token.$type || token.type) === 'color'] *)
Definition isColor (token : Token) : bool :=
  strictEq (jsOr (dollar_type token) (type token)) "color".

(** [token.value || token.$value] *)
Definition tokenValue (token : Token) : jsval :=
  jsOr (value token) (dollar_value token).

(** [token.original?.$value || token.original?.value] *)
Definition originalValue (token : Token) : jsval :=
  match original token with
  | Some o => jsOr (original_dollar_value o) (original_value o)
  | None => JUndefined
  end.

(** the test of the semantic formats:
    [pathStr.includes('hover') || pathStr.includes('pressed')] with
    [pathStr = token.path.join('.').toLowerCase()] *)
Definition isInteractionState (token : Token) : bool :=
  let pathStr := toLowerCase (join "." (path token)) in
  includes pathStr "hover" || includes pathStr "pressed".

(** [token.path[0] === 'wel' && token.path[1] === a && token.path[2] === b] *)
Definition hasPrefix3 (a b : string) (token : Token) : bool :=
  match path token with
  | p0 :: p1 :: p2 :: _ => String.eqb p0 "wel" && String.eqb p1 a && String.eqb p2 b
  | _ => false
  end.

(** [options.x || d] *)
Definition orDefault (o : option string) (d : string) : string :=
  match o with
  | Some s => if String.eqb s "" then d else s
  | None => d
  end.

(** [light] or [dark], the [mode] option of the collecting format *)
Inductive Mode : Type := light | dark.

(** ** The first script *)

Module V1.

(** the body of the [map] in [toPrimitiveKotlinName] *)
Definition primitivePart (index : nat) (part : string) : string :=
  let part := if startsWithDigit part then "_" +:+ part else part in
  let part := replaceTempSuffix part in
  let camelPart := camelize false part in
  if (index =? 0)%nat then uncapitalize camelPart else capitalize camelPart.

Definition toPrimitiveKotlinName (path : list string) : string :=
  join "" (imap primitivePart path).

(** the body of the [map] that names a semantic token *)
Definition semanticPart (index : nat) (part : string) : string :=
  let part := if startsWithDigit part then "_" +:+ part else part in
  let camelPart := camelize false part in
  if (index =? 0)%nat then uncapitalize camelPart else capitalize camelPart.

(** the name of a semantic token: [path.slice(3)], mapped and joined *)
Definition semanticName (path : list string) : string :=
  join "" (imap semanticPart (drop 3 path)).

(** the line [compose/semantic] gives for a token, if it gives one; the
    format keeps every colour token *)
Definition semanticLine (token : Token) : option string :=
  if isColor token then
    match toComposeColor (tokenValue token) with
    | Some composeColor =>
        Some ("    val " +:+ semanticName (path token) +:+ " = " +:+ composeColor)
    | None => None
    end
  else None.

(** The format [compose/semantic] of the first script: a line for every
    colour token that has a colour. *)
Definition composeSemantic (packageName objectName : option string)
  (allTokens : list Token) : string :=
  let packageName := orDefault packageName "com.example.tokens" in
  let objectName := orDefault objectName "Colors" in
  let tokens := join nl (omap semanticLine allTokens) in
  join nl
    [ "package " +:+ packageName; "";
      "import androidx.compose.ui.graphics.Color"; "";
      "object " +:+ objectName +:+ " {";
      tokens;
      "}"; "" ].

(** the line [compose/primitives] gives for a token, if it gives one *)
Definition primitiveLine (token : Token) : option string :=
  if isColor token then
    match toComposeColor (tokenValue token) with
    | Some composeColor =>
        Some ("    val " +:+ toPrimitiveKotlinName (path token) +:+ " = "
              +:+ composeColor)
    | None => None
    end
  else None.

(** The format [compose/primitives] of the first script. *)
Definition composePrimitives (packageName objectName : option string)
  (allTokens : list Token) : string :=
  let packageName := orDefault packageName "com.example.tokens" in
  let objectName := orDefault objectName "Colors" in
  let tokens := join nl (omap primitiveLine allTokens) in
  join nl
    [ "package " +:+ packageName; "";
      "import androidx.compose.ui.graphics.Color"; "";
      "object " +:+ objectName +:+ " {";
      tokens;
      "}"; "" ].

End V1.

(** ** The second script: a merged registry, no primitive references *)

Module V2.

(** an entry of [semanticColorsMap]: [{ light, dark }], either missing *)
Record Colors : Type := mkColors {
  c_light : option string;
  c_dark : option string
}.

(** [semanticColorsMap]: names in insertion order, each once *)
Definition Registry : Type := list (string * Colors).

Definition setMode (mode : Mode) (v : string) (c : Colors) : Colors :=
  match mode with
  | light => mkColors (Some v) (c_dark c)
  | dark => mkColors (c_light c) (Some v)
  end.

Fixpoint has (name : string) (reg : Registry) : bool :=
  match reg with
  | [] => false
  | (n, _) :: rest => String.eqb n name || has name rest
  end.

(** [semanticColorsMap.get(name)[mode] = v] for a name that is there *)
Fixpoint assign (name : string) (mode : Mode) (v : string) (reg : Registry)
  : Registry :=
  match reg with
  | [] => []
  | (n, c) :: rest =>
      if String.eqb n name then (n, setMode mode v c) :: rest
      else (n, c) :: assign name mode v rest
  end.

(** [if (!semanticColorsMap.has(name)) semanticColorsMap.set(name, {});
    semanticColorsMap.get(name)[mode] = v] *)
Definition store (name : string) (mode : Mode) (v : string) (reg : Registry)
  : Registry :=
  let reg := if has name reg then reg
             else reg ++ [(name, mkColors None None)] in
  assign name mode v reg.

(** the filter of [compose/semantic-collect] *)
Definition accepts (token : Token) : bool :=
  isColor token && negb (isInteractionState token).

(** the name under which a semantic token is stored: the text that
    names it is the one of the first script *)
Definition semanticName (token : Token) : string :=
  V1.semanticName (path token).

(** the body of the [forEach] of [compose/semantic-collect] *)
Definition collectToken (mode : Mode) (reg : Registry) (token : Token)
  : Registry :=
  match toComposeColor (tokenValue token) with
  | None => reg
  | Some composeColor => store (semanticName token) mode composeColor reg
  end.

Definition semanticCollect (mode : Mode) (allTokens : list Token)
  (reg : Registry) : Registry :=
  fold_left (collectToken mode) (List.filter accepts allTokens) reg.

(** the line [compose/semantic] gives for a token, if it gives one: the
    format of one mode, which from this script on leaves out the
    interaction states (the same text in the later scripts) *)
Definition semanticLine (token : Token) : option string :=
  if accepts token then
    match toComposeColor (tokenValue token) with
    | Some composeColor =>
        Some ("    val " +:+ semanticName token +:+ " = " +:+ composeColor)
    | None => None
    end
  else None.

Definition composeSemantic (packageName objectName : option string)
  (allTokens : list Token) : string :=
  let packageName := orDefault packageName "com.example.tokens" in
  let objectName := orDefault objectName "Colors" in
  let tokens := join nl (omap semanticLine allTokens) in
  join nl
    [ "package " +:+ packageName; "";
      "import androidx.compose.ui.graphics.Color"; "";
      "object " +:+ objectName +:+ " {";
      tokens;
      "}"; "" ].

(** the body of the [map] in [toPrimitiveKotlinName] *)
Definition primitivePart (part : string) : string :=
  if allDigits part then part
  else toUpperCase (charAt0 part) +:+ toLowerCase (sliceFrom 1 part).

Definition stripPrefixes (fullName : string) : string :=
  stripPrefixCI "wel-"
    (stripPrefixCI "wel-prim-"
       (stripPrefixCI "wel-prim-color-"
          (stripPrefixCI "wel-prim-color-leg-" fullName))).

Definition toPrimitiveKotlinName (path : list string) : string :=
  let fullName := join "-" path in
  let cleanName := stripPrefixes fullName in
  let cleanName := replaceTempSuffixCI cleanName in
  join "" (map primitivePart (split "-" cleanName)).

(** the line [compose/primitives] gives for a token, if it gives one *)
Definition primitiveLine (token : Token) : option string :=
  if isColor token then
    match toComposeColor (tokenValue token) with
    | Some composeColor =>
        Some ("    val " +:+ toPrimitiveKotlinName (path token) +:+ " = "
              +:+ composeColor)
    | None => None
    end
  else None.

(** The format [compose/primitives] of the second script: every colour
    token, in the order of the tokens. *)
Definition composePrimitives (packageName objectName : option string)
  (allTokens : list Token) : string :=
  let packageName := orDefault packageName "com.example.tokens" in
  let objectName := orDefault objectName "Colors" in
  let tokens := join nl (omap primitiveLine allTokens) in
  join nl
    [ "package " +:+ packageName; "";
      "import androidx.compose.ui.graphics.Color"; "";
      "@Suppress(" +:+ dquote +:+ "MagicNumber" +:+ dquote +:+ ")";
      "internal object " +:+ objectName +:+ " {";
      tokens;
      "}"; "" ].

(** [colors.light || 'Color.Unspecified'] *)
Definition lightOf (c : Colors) : string :=
  orDefault (c_light c) "Color.Unspecified".

(** [colors.dark || colors.light || 'Color.Unspecified'] *)
Definition darkOf (c : Colors) : string :=
  orDefault (c_dark c) (orDefault (c_light c) "Color.Unspecified").

(** name, light value and dark value of each accessor, in document order *)
Definition entries (reg : Registry) : list (string * string * string) :=
  map (fun '(name, colors) => (name, lightOf colors, darkOf colors)) reg.

Definition renderEntry (e : string * string * string) : string :=
  let '(name, l, d) := e in
  "    val " +:+ name +:+ nl
  +:+ "        @Composable" +:+ nl
  +:+ "        get() = getColor(light = " +:+ l +:+ ", dark = " +:+ d +:+ ")".

Definition generateMergedSemanticColors (packageName objectName : string)
  (reg : Registry) : string :=
  let tokens := join (nl +:+ nl) (map renderEntry (entries reg)) in
  join nl
    [ "package " +:+ packageName; "";
      "import androidx.compose.runtime.Composable";
      "import androidx.compose.ui.graphics.Color"; "";
      "object " +:+ objectName +:+ " {";
      tokens;
      "}"; "";
      "@Composable";
      "private fun getColor(light: Color, dark: Color): Color {";
      "    return if (isSystemInDarkTheme()) dark else light";
      "}"; "";
      "@Composable";
      "private fun isSystemInDarkTheme(): Boolean {";
      "    return androidx.compose.foundation.isSystemInDarkTheme()";
      "}"; "" ].

(** [buildTokens]: the registry after the light pass and the dark pass,
    starting from the cleared map; [lightTokens] and [darkTokens] are the
    tokens of the two builds, which keep those under [wel.sem.color] *)
Definition buildRegistry (lightTokens darkTokens : list Token) : Registry :=
  semanticCollect dark
    (List.filter (hasPrefix3 "sem" "color") darkTokens)
    (semanticCollect light
       (List.filter (hasPrefix3 "sem" "color") lightTokens) []).

End V2.

(** ** The merged registry of the later scripts

    [semanticColorsMap] is a [Map] from names to [{ order, light, dark }]
    objects: a list of pairs in insertion order, each name once. *)

(** an entry of [semanticColorsMap]: [{ order, light, dark }] *)
Record Colors : Type := mkColors {
  order : nat;
  c_light : option string;
  c_dark : option string
}.

Definition setMode (mode : Mode) (v : string) (c : Colors) : Colors :=
  match mode with
  | light => mkColors (order c) (Some v) (c_dark c)
  | dark => mkColors (order c) (c_light c) (Some v)
  end.

Definition getMode (mode : Mode) (c : Colors) : option string :=
  match mode with
  | light => c_light c
  | dark => c_dark c
  end.

(** [semanticColorsMap.has(name)] *)
Fixpoint has (name : string) (reg : list (string * Colors)) : bool :=
  match reg with
  | [] => false
  | (n, _) :: rest => String.eqb n name || has name rest
  end.

(** [semanticColorsMap.get(name)] *)
Fixpoint get (name : string) (reg : list (string * Colors)) : option Colors :=
  match reg with
  | [] => None
  | (n, c) :: rest => if String.eqb n name then Some c else get name rest
  end.

(** [semanticColorsMap.get(name)[mode] = v] for a name that is there *)
Fixpoint assign (name : string) (mode : Mode) (v : string)
  (reg : list (string * Colors)) : list (string * Colors) :=
  match reg with
  | [] => []
  | (n, c) :: rest =>
      if String.eqb n name then (n, setMode mode v c) :: rest
      else (n, c) :: assign name mode v rest
  end.

(** [if (!semanticColorsMap.has(name))
      semanticColorsMap.set(name, { order: semanticColorsMap.size });
    semanticColorsMap.get(name)[mode] = v] *)
Definition store (name : string) (mode : Mode) (v : string)
  (reg : list (string * Colors)) : list (string * Colors) :=
  let reg := if has name reg then reg
             else reg ++ [(name, mkColors (length reg) None None)] in
  assign name mode v reg.

(** [items.sort((a, b) => compare(a, b))]: the sort is stable, so for a
    comparison that orders the items it is the insertion sort *)
Fixpoint insertBy {A : Type} (compare : A -> A -> Z) (x : A) (l : list A)
  : list A :=
  match l with
  | [] => [x]
  | y :: rest =>
      if compare x y <? 0 then x :: l
      else y :: insertBy compare x rest
  end.

Definition sortBy {A : Type} (compare : A -> A -> Z) (l : list A) : list A :=
  fold_left (fun acc x => insertBy compare x acc) l [].

(** ** The third script: [toPascalCase] *)

Module V3.

(** the words of [toPascalCase], in the order of its replacements *)
Definition colorWords : list string :=
  [ "Grey"; "Blue"; "Green"; "White"; "Black"; "Yellow"; "Red"; "Pink";
    "Alpha" ].

(** the body of the [map] in [toPascalCase] *)
Definition pascalPart (part : string) : string :=
  if allDigits part then part
  else fixWords colorWords (capitalize part).

Definition toPascalCase (str : string) : string :=
  replaceHiUpper 0 (replaceHiEnd (join "" (map pascalPart (split "-" str)))).

Definition stripPrefixes (fullName : string) : string :=
  stripPrefixCI "leg-"
    (stripPrefixCI "wel-"
       (stripPrefixCI "wel-prim-"
          (stripPrefixCI "wel-prim-color-"
             (stripPrefixCI "wel-prim-color-leg-" fullName)))).

Definition toPrimitiveKotlinName (path : list string) : string :=
  let fullName := join "-" path in
  let cleanName := stripPrefixes fullName in
  let cleanName := replaceTempSuffixCI cleanName in
  toPascalCase cleanName.

(** the filter of [compose/semantic-collect] *)
Definition accepts (token : Token) : bool :=
  isColor token && negb (isInteractionState token).

(** the name under which a semantic token is stored *)
Definition semanticName (token : Token) : string :=
  toPascalCase (join "-" (drop 3 (path token))).

(** the body of the [forEach] of [compose/semantic-collect] *)
Definition collectToken (mode : Mode) (reg : list (string * Colors))
  (token : Token) : list (string * Colors) :=
  match toComposeColor (tokenValue token) with
  | None => reg
  | Some composeColor =>
      let name := semanticName token in
      store name mode composeColor reg
  end.

Definition semanticCollect (mode : Mode) (allTokens : list Token)
  (reg : list (string * Colors)) : list (string * Colors) :=
  fold_left (collectToken mode) (List.filter accepts allTokens) reg.

(** *** The value-keyed lookup, [primitiveColorMap] *)

(** the body of the [forEach] of [compose/primitives-collect]: the key
    is the colour, so a later primitive of the same colour replaces an
    earlier one *)
Definition collectPrimitive (m : gmap string string) (token : Token)
  : gmap string string :=
  match toComposeColor (tokenValue token) with
  | None => m
  | Some composeColor =>
      let name := toPrimitiveKotlinName (path token) in
      <[composeColor := "AccorColorPrimitives." +:+ name]> m
  end.

Definition primitivesCollect (allTokens : list Token)
  (m : gmap string string) : gmap string string :=
  fold_left collectPrimitive (List.filter isColor allTokens) m.

(** [toPrimitiveRef(composeColor)] of [generateMergedSemanticColors];
    [None] is a missing field. *)
Definition toPrimitiveRef (m : gmap string string)
  (composeColor : option string) : string :=
  match composeColor with
  | None => "Color.Unspecified"
  | Some c =>
      if String.eqb c "" || String.eqb c "Color.Unspecified"
      then "Color.Unspecified"
      else orDefault (m !! c) c
  end.

(** [a || b] for two fields that hold a string or are missing *)
Definition firstTruthy (a b : option string) : option string :=
  match a with
  | Some s => if String.eqb s "" then b else a
  | None => b
  end.

(** [toPrimitiveRef(colors.light) || 'Color.Unspecified'] *)
Definition lightOf (m : gmap string string) (c : Colors) : string :=
  orDefault (Some (toPrimitiveRef m (c_light c))) "Color.Unspecified".

(** [toPrimitiveRef(colors.dark || colors.light) || 'Color.Unspecified'] *)
Definition darkOf (m : gmap string string) (c : Colors) : string :=
  orDefault (Some (toPrimitiveRef m (firstTruthy (c_dark c) (c_light c))))
    "Color.Unspecified".

(** [(a, b) => a[1].order - b[1].order] *)
Definition compareOrder (a b : string * Colors) : Z :=
  Z.of_nat (order (snd a)) - Z.of_nat (order (snd b)).

(** name, light value and dark value of each accessor, in document order *)
Definition entries (m : gmap string string) (reg : list (string * Colors))
  : list (string * string * string) :=
  map (fun '(name, colors) => (name, lightOf m colors, darkOf m colors))
    (sortBy compareOrder reg).

Definition renderEntry (e : string * string * string) : string :=
  let '(name, l, d) := e in
  "    val " +:+ name +:+ nl
  +:+ "        @Composable" +:+ nl
  +:+ "        get() = getColor(light = " +:+ l +:+ ", dark = " +:+ d +:+ ")".

Definition generateMergedSemanticColors (packageName objectName : string)
  (m : gmap string string) (reg : list (string * Colors)) : string :=
  let tokens := join nl (map renderEntry (entries m reg)) in
  join nl
    [ "package " +:+ packageName; "";
      "import androidx.compose.runtime.Composable";
      "import androidx.compose.ui.geometry.Offset";
      "import androidx.compose.ui.graphics.Brush";
      "import androidx.compose.ui.graphics.Color";
      "import com.accor.designsystem.compose.AccorColor.getColor"; "";
      "object " +:+ objectName +:+ " {"; "";
      tokens;
      "}"; "" ].

(** *** The primitives document, [compose/primitives] *)

(** the filter of the format: colour tokens outside the [leg] group *)
Definition emitsPrimitive (token : Token) : bool :=
  isColor token
  && negb (existsb (fun part => String.eqb part "leg") (path token)).

(** the [{ name, line }] items, before they are sorted *)
Definition primitiveItem (token : Token) : option (string * string) :=
  match toComposeColor (tokenValue token) with
  | None => None
  | Some composeColor =>
      let name := toPrimitiveKotlinName (path token) in
      Some (name, "    val " +:+ name +:+ " = " +:+ composeColor)
  end.

Definition primitiveItems (allTokens : list Token) : list (string * string) :=
  omap primitiveItem (List.filter emitsPrimitive allTokens).

Definition composePrimitives (localeCompare : string -> string -> Z)
  (packageName objectName : option string) (allTokens : list Token) : string :=
  let packageName := orDefault packageName "com.example.tokens" in
  let objectName := orDefault objectName "Colors" in
  let sorted := sortBy (fun a b => localeCompare (fst a) (fst b))
                  (primitiveItems allTokens) in
  let tokens := join nl (map snd sorted) in
  join nl
    [ "package " +:+ packageName; "";
      "import androidx.compose.ui.graphics.Color"; "";
      "@Suppress(" +:+ dquote +:+ "MagicNumber" +:+ dquote +:+ ")";
      "internal object " +:+ objectName +:+ " {"; "";
      tokens;
      "}"; "" ].

(** *** [buildTokens] *)

(** The tokens of the builds of [buildTokens]: those of the primitive
    sources, of the light build and of the dark build; the light and
    dark builds keep the tokens under [wel.sem.color]. *)
Record Inputs : Type := mkInputs {
  primitiveTokens : list Token;
  lightTokens : list Token;
  darkTokens : list Token
}.

(** [primitiveColorMap] after the collecting build, from the cleared map *)
Definition primitiveColorMap (i : Inputs) : gmap string string :=
  primitivesCollect (primitiveTokens i) ∅.

(** [semanticColorsMap] when [generateMergedSemanticColors] is called *)
Definition collected (i : Inputs) : list (string * Colors) :=
  semanticCollect dark
    (List.filter (hasPrefix3 "sem" "color") (darkTokens i))
    (semanticCollect light
       (List.filter (hasPrefix3 "sem" "color") (lightTokens i)) []).

(** the two documents [buildTokens] writes *)
Definition buildTokens (localeCompare : string -> string -> Z) (i : Inputs)
  : string * string :=
  let packageName := "com.accor.designsystem.compose" in
  ( composePrimitives localeCompare (Some packageName)
      (Some "AccorColorPrimitives") (primitiveTokens i),
    generateMergedSemanticColors packageName "AccorColorSemantics"
      (primitiveColorMap i) (collected i) ).

End V3.

(** ** The fourth script: path-keyed primitive and brand lookups *)

Module V4.

(** the words of [toPascalCasePrimitive], in the order of its replacements *)
Definition primitiveWords : list string :=
  [ "Grey"; "Blue"; "Green"; "White"; "Black"; "Yellow"; "Red"; "Pink";
    "Alpha"; "Naval"; "Royal"; "Electric"; "Duck"; "Lime"; "Peacock";
    "Pop"; "Strawberry"; "Raspberry"; "Fuchsia"; "Marine"; "Sky";
    "Tropos"; "Stratos"; "Platinum"; "Diamond"; "Gold"; "Silver";
    "Limitless"; "Classic"; "Temp" ].

(** the body of the [map] in [toPascalCasePrimitive] *)
Definition primitivePart (part : string) : string :=
  if allDigits part then part
  else fixWords primitiveWords (capitalize part).

Definition toPascalCasePrimitive (str : string) : string :=
  join "" (map primitivePart (split "-" str)).

(** the body of the [map] in [toPascalCaseSemantic] *)
Definition semanticPart (part : string) : string :=
  if allDigits part then part else capitalize part.

Definition toPascalCaseSemantic (str : string) : string :=
  replaceHiUpper 0 (replaceHiEnd (join "" (map semanticPart (split "-" str)))).

Definition toPrimitiveKotlinName (path : list string) : string :=
  let fullName := join "-" path in
  let cleanName := V3.stripPrefixes fullName in
  let cleanName := replaceTempSuffixCI cleanName in
  toPascalCasePrimitive cleanName.

(** *** The primitives document, [compose/primitives] *)

(** the filter of the format: colour tokens outside the [leg] group *)
Definition emitsPrimitive (token : Token) : bool :=
  isColor token
  && negb (existsb (fun part => String.eqb part "leg") (path token)).

(** the [{ name, line }] items, before they are sorted *)
Definition primitiveItem (token : Token) : option (string * string) :=
  match toComposeColor (tokenValue token) with
  | None => None
  | Some composeColor =>
      let name := toPrimitiveKotlinName (path token) in
      Some (name, "    val " +:+ name +:+ " = " +:+ composeColor)
  end.

Definition primitiveItems (allTokens : list Token) : list (string * string) :=
  omap primitiveItem (List.filter emitsPrimitive allTokens).

(** The format [compose/primitives]; [localeCompare] is the string
    comparison of the platform, [a.localeCompare(b)]. *)
Definition composePrimitives (localeCompare : string -> string -> Z)
  (packageName objectName : option string) (allTokens : list Token) : string :=
  let packageName := orDefault packageName "com.example.tokens" in
  let objectName := orDefault objectName "Colors" in
  let sorted := sortBy (fun a b => localeCompare (fst a) (fst b))
                  (primitiveItems allTokens) in
  let tokens := join nl (map snd sorted) in
  join nl
    [ "package " +:+ packageName; "";
      "import androidx.compose.ui.graphics.Color"; "";
      "@Suppress(" +:+ dquote +:+ "MagicNumber" +:+ dquote +:+ ")";
      "internal object " +:+ objectName +:+ " {"; "";
      tokens;
      "}"; "" ].

(** *** The lookups and the registry *)

(** The three global maps.  [semanticColorsMap] keeps its names in
    insertion order, each once. *)
Record State : Type := mkState {
  primitivePathMap : gmap string string;
  brandbookPathMap : gmap string string;
  semanticColorsMap : list (string * Colors)
}.

(** the maps after [clear()] *)
Definition cleared : State := mkState ∅ ∅ [].

(** the body of the [forEach] of [compose/primitives-collect] *)
Definition collectPrimitive (m : gmap string string) (token : Token)
  : gmap string string :=
  let name := toPrimitiveKotlinName (path token) in
  let pathKey := join "." (path token) in
  <[pathKey := "AccorColorPrimitives." +:+ name]> m.

Definition primitivesCollect (allTokens : list Token) (st : State) : State :=
  mkState
    (fold_left collectPrimitive (List.filter isColor allTokens)
       (primitivePathMap st))
    (brandbookPathMap st) (semanticColorsMap st).

(** [s.match(/^\{(.+)\}$/)]: the text between the braces; [.] matches no
    line terminator. *)
Definition braceRef (s : string) : option string :=
  match expect "{" s with
  | Some r =>
      let n := String.length r in
      let inner := sliceTo (n - 1) r in
      if String.eqb (sliceFrom (n - 1) r) "}"
         && negb (String.eqb inner "")
         && allS (fun c => negb (isLineTerminator c)) inner
      then Some inner else None
  | None => None
  end.

(** the reference path of a token: the text between the braces of its
    original value, when that value is a non-empty string of this form *)
Definition originalRef (token : Token) : option string :=
  match originalValue token with
  | JString s => if String.eqb s "" then None else braceRef s
  | _ => None
  end.

(** the body of the [forEach] of [compose/brandbook-collect] *)
Definition collectBrand (prim : gmap string string)
  (m : gmap string string) (token : Token) : gmap string string :=
  let pathKey := join "." (path token) in
  match originalRef token with
  | Some primitivePath =>
      match prim !! primitivePath with
      | Some name => <[pathKey := name]> m
      | None => m
      end
  | None => m
  end.

Definition brandbookCollect (allTokens : list Token) (st : State) : State :=
  mkState (primitivePathMap st)
    (fold_left (collectBrand (primitivePathMap st))
       (List.filter isColor allTokens) (brandbookPathMap st))
    (semanticColorsMap st).

(** [getPrimitiveRef(token)]; [None] is [null]. *)
Definition getPrimitiveRef (st : State) (token : Token) : option string :=
  match originalRef token with
  | None => None
  | Some refPath =>
      match primitivePathMap st !! refPath with
      | Some name => Some name
      | None =>
          match brandbookPathMap st !! refPath with
          | Some name => Some name
          | None => None
          end
      end
  end.

(** the filter of [compose/semantic-collect] *)
Definition accepts (token : Token) : bool :=
  isColor token
  && negb (isInteractionState token)
  && hasPrefix3 "sem" "color" token.

(** the name under which a semantic token is stored *)
Definition semanticName (token : Token) : string :=
  toPascalCaseSemantic (join "-" (drop 3 (path token))).

(** [primitiveRef || composeColor] *)
Definition refOrColor (primitiveRef : option string) (composeColor : string)
  : string :=
  orDefault primitiveRef composeColor.

(** the body of the [forEach] of [compose/semantic-collect] *)
Definition collectToken (mode : Mode) (st : State) (token : Token) : State :=
  match toComposeColor (tokenValue token) with
  | None => st
  | Some composeColor =>
      let name := semanticName token in
      let primitiveRef := getPrimitiveRef st token in
      mkState (primitivePathMap st) (brandbookPathMap st)
        (store name mode (refOrColor primitiveRef composeColor)
           (semanticColorsMap st))
  end.

Definition semanticCollect (mode : Mode) (allTokens : list Token)
  (st : State) : State :=
  fold_left (collectToken mode) (List.filter accepts allTokens) st.

(** *** The semantics document, [generateMergedSemanticColors] *)

(** [colors.light || 'Color.Unspecified'] *)
Definition lightOf (c : Colors) : string :=
  orDefault (c_light c) "Color.Unspecified".

(** [colors.dark || colors.light || 'Color.Unspecified'] *)
Definition darkOf (c : Colors) : string :=
  orDefault (c_dark c) (orDefault (c_light c) "Color.Unspecified").

(** [(a, b) => a[1].order - b[1].order] *)
Definition compareOrder (a b : string * Colors) : Z :=
  Z.of_nat (order (snd a)) - Z.of_nat (order (snd b)).

(** name, light value and dark value of each accessor, in document order *)
Definition entries (reg : list (string * Colors))
  : list (string * string * string) :=
  map (fun '(name, colors) => (name, lightOf colors, darkOf colors))
    (sortBy compareOrder reg).

Definition renderEntry (e : string * string * string) : string :=
  let '(name, l, d) := e in
  "    val " +:+ name +:+ nl
  +:+ "        @Composable" +:+ nl
  +:+ "        get() = getColor(light = " +:+ l +:+ ", dark = " +:+ d +:+ ")".

Definition generateMergedSemanticColors (packageName objectName : string)
  (reg : list (string * Colors)) : string :=
  let tokens := join nl (map renderEntry (entries reg)) in
  join nl
    [ "package " +:+ packageName; "";
      "import androidx.compose.runtime.Composable";
      "import com.accor.designsystem.compose.AccorColor.getColor"; "";
      "object " +:+ objectName +:+ " {"; "";
      tokens;
      "}"; "" ].

(** *** [buildTokens] *)

(** The tokens of the builds of [buildTokens]: those of the primitive
    sources, of the brand build, of the light build and of the dark
    build.  The brand build keeps the tokens under [wel.web.bSem] for its
    format, the light and dark builds those under [wel.sem.color]. *)
Record Inputs : Type := mkInputs {
  primitiveTokens : list Token;
  brandTokens : list Token;
  lightTokens : list Token;
  darkTokens : list Token
}.

(** the maps after the primitive and the brand builds *)
Definition lookups (i : Inputs) : State :=
  brandbookCollect
    (List.filter (hasPrefix3 "web" "bSem") (brandTokens i))
    (primitivesCollect (primitiveTokens i) cleared).

(** the maps when [generateMergedSemanticColors] is called *)
Definition collected (i : Inputs) : State :=
  semanticCollect dark
    (List.filter (hasPrefix3 "sem" "color") (darkTokens i))
    (semanticCollect light
       (List.filter (hasPrefix3 "sem" "color") (lightTokens i))
       (lookups i)).

(** the two documents [buildTokens] writes: [AccorColorPrimitives.kt] and
    [AccorColorSemantics.kt] *)
Definition buildTokens (localeCompare : string -> string -> Z) (i : Inputs)
  : string * string :=
  let packageName := "com.accor.designsystem.compose" in
  ( composePrimitives localeCompare (Some packageName)
      (Some "AccorColorPrimitives") (primitiveTokens i),
    generateMergedSemanticColors packageName "AccorColorSemantics"
      (semanticColorsMap (collected i)) ).

End V4.

(** ** Trial runs *)

Definition colorToken (p : list string) (v : string) (orig : string) : Token :=
  mkToken p JUndefined (JString "color") (JString v) JUndefined
    (Some (mkOriginal (JString orig) JUndefined)).

Definition hoverToken : Token :=
  colorToken ["wel"; "sem"; "color"; "text-hover"] "#0047AB"
    "{wel.prim.color.blue.500}".

Definition brandHiToken : Token :=
  colorToken ["wel"; "sem"; "color"; "brand-hi"] "#0047AB"
    "{wel.web.bSem.brand}".

Definition legToken : Token :=
  colorToken ["wel"; "prim"; "color"; "leg"; "navalblue"] "#001122" "#001122".

Definition sampleInputs : V4.Inputs :=
  V4.mkInputs
    [ colorToken ["wel"; "prim"; "color"; "blue"; "500"] "#0047AB" "#0047AB";
      colorToken ["wel"; "prim"; "color"; "leg"; "navalblue"] "#001122" "#001122" ]
    [ colorToken ["wel"; "web"; "bSem"; "brand"] "#0047AB" "{wel.prim.color.blue.500}" ]
    [ colorToken ["wel"; "sem"; "color"; "text-default"] "#0047AB" "{wel.prim.color.blue.500}";
      colorToken ["wel"; "sem"; "color"; "text-hover"] "#0047AB" "{wel.prim.color.blue.500}";
      colorToken ["wel"; "sem"; "color"; "brand-hi"] "#0047AB" "{wel.web.bSem.brand}";
      colorToken ["wel"; "sem"; "color"; "old"] "#001122" "{wel.prim.color.leg.navalblue}";
      colorToken ["wel"; "sem"; "color"; "raw"] "rgba(1,2,3,0.5)" "rgba(1,2,3,0.5)" ]
    [ colorToken ["wel"; "sem"; "color"; "night"] "#000000" "{nowhere}";
      colorToken ["wel"; "sem"; "color"; "raw"] "#FFFFFF" "#FFFFFF" ].

(** inputs without a [leg] primitive *)
Definition plainInputs : V4.Inputs :=
  V4.mkInputs
    [ colorToken ["wel"; "prim"; "color"; "blue"; "500"] "#0047AB" "#0047AB" ]
    [ colorToken ["wel"; "web"; "bSem"; "brand"] "#0047AB" "{wel.prim.color.blue.500}" ]
    [ colorToken ["wel"; "sem"; "color"; "text-default"] "#0047AB" "{wel.prim.color.blue.500}" ]
    [].

(** ** The language of the colour pattern *)

(** The pieces of a text matched by
    [rgba?\(\s*(\d+)\s*,\s*(\d+)\s*,\s*(\d+)\s*(?:,\s*([\d.]+))?\s*\)]:
    the optional [a], the three numbers, the white space around them
    and, when there is a fourth argument, it and the white space around
    it. *)
Record RgbaParts : Type := mkParts {
  hasA : bool;
  ws1 : string; red : string; ws2 : string;
  ws3 : string; green : string; ws4 : string;
  ws5 : string; blue : string; ws6 : string;
  alphaArg : option (string * string * string)
}.

Definition renderTail (t : option (string * string * string)) : string :=
  match t with
  | None => ")"
  | Some (w7, a, w8) => "," +:+ w7 +:+ a +:+ w8 +:+ ")"
  end.

(** the text the pieces stand for *)
Definition render (p : RgbaParts) : string :=
  "rgb" +:+ (if hasA p then "a" else "") +:+ "("
  +:+ ws1 p +:+ red p +:+ ws2 p +:+ ","
  +:+ ws3 p +:+ green p +:+ ws4 p +:+ ","
  +:+ ws5 p +:+ blue p +:+ ws6 p +:+ renderTail (alphaArg p).

Definition wellFormedTail (t : option (string * string * string)) : bool :=
  match t with
  | None => true
  | Some (w7, a, w8) =>
      allS isSpace w7 && negb (String.eqb a "") && allS isDigitOrDot a
      && allS isSpace w8
  end.

(** the pieces belong to their classes *)
Definition wellFormed (p : RgbaParts) : bool :=
  allS isSpace (ws1 p) && allDigits (red p) && allS isSpace (ws2 p)
  && allS isSpace (ws3 p) && allDigits (green p) && allS isSpace (ws4 p)
  && allS isSpace (ws5 p) && allDigits (blue p) && allS isSpace (ws6 p)
  && wellFormedTail (alphaArg p).

Definition capturesOf (p : RgbaParts) : captures :=
  (red p, green p, blue p,
   match alphaArg p with
   | Some (_, a, _) => Some a
   | None => None
   end).

(** [s] is a functional colour literal: the pattern matches all of it *)
Definition isRgbaLiteral (s : string) : Prop :=
  exists p, wellFormed p = true /\ s = render p.

(** [s] holds a functional colour literal somewhere *)
Definition holdsRgbaLiteral (s : string) : Prop :=
  exists before p after,
    wellFormed p = true /\ s = before +:+ render p +:+ after.

(** [s] is [#] and exactly [n] hexadecimal digits *)
Definition isHexLiteral (n : nat) (s : string) : Prop :=
  exists h, s = "#" +:+ h /\ String.length h = n /\ allS isHexDigit h = true.

(** the two characters of a byte in upper-case hexadecimal *)
Definition hexUpper (d : Z) : ascii :=
  if d <? 10 then ascii_of_N (Z.to_N (48 + d))
  else ascii_of_N (Z.to_N (55 + d)).

Definition byteHex (n : Z) : string :=
  String (hexUpper (n / 16)) (String (hexUpper (n mod 16)) "").

(** [a] is a decimal fraction: digits, or digits, a point and digits,
    with a digit on one side at least; its value is [num / den]. *)
Definition isDecimal (a : string) (num den : Z) : Prop :=
  exists ip fp,
    allS isDigit ip = true /\ allS isDigit fp = true
    /\ ip +:+ fp <> ""
    /\ ((a = ip /\ fp = "") \/ a = ip +:+ "." +:+ fp)
    /\ num = decVal (ip +:+ fp)
    /\ den = 10 ^ Z.of_nat (String.length fp).

(** the value of a hexadecimal digit *)
Definition hexValue (c : ascii) : Z :=
  if isDigit c then Z.of_N (code c) - 48
  else if isUpperAZ c then Z.of_N (code c) - 55
  else Z.of_N (code c) - 87.

(** the byte two hexadecimal digits spell *)
Definition byteOf (c1 c2 : ascii) : Z := 16 * hexValue c1 + hexValue c2.

(** the string of the characters of [l] *)
Definition ofChars (l : list ascii) : string := string_of_list_ascii l.

(** for at most three digits after the point, the alpha byte is
    [255 * num / den] rounded to the nearest integer, halves upwards *)
Definition alphaExact (num den : Z) : Z := (2 * 255 * num + den) / (2 * den).

Definition alphaAgrees (den num : Z) : bool :=
  match Math_round (fmul (toDouble num den) (Fin 255 0)) with
  | Fin A 0 => A =? alphaExact num den
  | _ => false
  end.

(** the names of [l], each at its first place *)
Fixpoint firstSeen (l : list string) : list string :=
  match l with
  | [] => []
  | x :: r => x :: List.filter (fun y => negb (String.eqb y x)) (firstSeen r)
  end.

(** [token]'s original value is the reference [{p}], on one line *)
Definition refersTo (token : Token) (p : string) : Prop :=
  originalValue token = JString ("{" +:+ p +:+ "}")
  /\ p <> ""
  /\ allS (fun c => negb (isLineTerminator c)) p = true.

(** a segment of the path of [token] holds [hover] or [pressed], in
    any case *)
Definition indicatesInteraction (token : Token) : Prop :=
  exists segment before word after,
    In segment (path token)
    /\ (word = "hover" \/ word = "pressed")
    /\ toLowerCase segment = before +:+ word +:+ after.

(** the first character of [s], if any, fails [p] *)
Definition stopsAt (p : ascii -> bool) (s : string) : Prop :=
  match s with
  | String c _ => p c = false
  | EmptyString => True
  end.

(** ** The registry and the lookups: vocabulary of the statements *)

(** [name] is one of [keys] *)
Definition inb (name : string) (keys : list string) : bool :=
  existsb (fun n => String.eqb n name) keys.

(** the keys after a name has been stored *)
Definition insertNew (keys : list string) (name : string) : list string :=
  if inb name keys then keys else keys ++ [name].

(** the orders of the entries are their places *)
Definition ordered (reg : list (string * Colors)) : Prop :=
  map (fun e => order (snd e)) reg = seq 0 (length reg).

(** no stored value is the empty string *)
Definition filled (c : Colors) : Prop :=
  c_light c <> Some "" /\ c_dark c <> Some "".

(** [toComposeColor] gives a colour for the value of [token] *)
Definition hasColor (token : Token) : bool :=
  match toComposeColor (tokenValue token) with
  | Some _ => true
  | None => false
  end.

(** the tokens of a pass that reach the registry, in the order of the
    pass *)
Definition storedTokens (allTokens : list Token) : list Token :=
  List.filter hasColor
    (List.filter V4.accepts
       (List.filter (hasPrefix3 "sem" "color") allTokens)).

(** the entries of [reg] under [name] *)
Definition under (name : string) (reg : list (string * Colors))
  : list (string * Colors) :=
  List.filter (fun e => String.eqb (fst e) name) reg.

(** the accessors of the semantics document under [name] *)
Definition accessors (name : string) (i : V4.Inputs)
  : list (string * string * string) :=
  List.filter (fun e => String.eqb (fst (fst e)) name)
    (V4.entries (V4.semanticColorsMap (V4.collected i))).

Definition V2_filled (c : V2.Colors) : Prop :=
  V2.c_light c <> Some "" /\ V2.c_dark c <> Some "".

(** every value of [m] is a primitive identifier *)
Definition primitiveIds (m : gmap string string) : Prop :=
  forall k v, m !! k = Some v -> exists name, v = "AccorColorPrimitives." +:+ name.

(** every value of [b] is a value of [m] *)
Definition valuesWithin (b m : gmap string string) : Prop :=
  forall k v, b !! k = Some v -> exists q, m !! q = Some v.

(** the key and the identifier [compose/primitives-collect] stores *)
Definition pathKey (t : Token) : string := join "." (path t).

Definition primitiveId (t : Token) : string :=
  "AccorColorPrimitives." +:+ V4.toPrimitiveKotlinName (path t).

(** the pieces of [p] with the fourth argument left out *)
Definition withoutAlpha (p : RgbaParts) : RgbaParts :=
  mkParts (hasA p) (ws1 p) (red p) (ws2 p) (ws3 p) (green p) (ws4 p)
    (ws5 p) (blue p) (ws6 p) None.

(** the other mode *)
Definition otherMode (mode : Mode) : Mode :=
  match mode with
  | light => dark
  | dark => light
  end.

(** a letter, a digit or the hyphen: the characters of a path segment
    that the naming functions are written for *)
Definition isSegmentChar (c : ascii) : bool := isAlnum c || Ascii.eqb c "-".

(** the tokens a pass of the fourth script stores, after its filter *)
Definition storedBy (allTokens : list Token) : list Token :=
  List.filter hasColor (List.filter V4.accepts allTokens).

(** the value the fourth script stores for [token] *)
Definition storedValue (st : V4.State) (token : Token) : option string :=
  match toComposeColor (tokenValue token) with
  | Some composeColor =>
      Some (V4.refOrColor (V4.getPrimitiveRef st token) composeColor)
  | None => None
  end.

(** the stored values of an entry satisfy [P] *)
Definition valuesAll (P : string -> Prop) (c : Colors) : Prop :=
  (forall v, c_light c = Some v -> P v)
  /\ (forall v, c_dark c = Some v -> P v).

(** [v] is the colour of a token of the light or the dark build *)
Definition isTokenColor (i : V4.Inputs) (v : string) : Prop :=
  exists t, In t (V4.lightTokens i ++ V4.darkTokens i)
            /\ toComposeColor (tokenValue t) = Some v.

(** [v] is the identifier of a colour token of the primitive sources *)
Definition isPrimitiveId (i : V4.Inputs) (v : string) : Prop :=
  exists t, In t (V4.primitiveTokens i) /\ isColor t = true
            /\ v = primitiveId t.

(** the line of the primitives document that defines [token], for the
    colour [composeColor] *)
Definition primitiveLineOf (token : Token) (composeColor : string) : string :=
  "    val " +:+ V4.toPrimitiveKotlinName (path token) +:+ " = "
  +:+ composeColor.

(** the tokens a pass stores, for the filter [accepts] of its format:
    those under [wel.sem.color] that the format keeps and that have a
    colour, in the order of the pass *)
Definition storedWith (accepts : Token -> bool) (allTokens : list Token)
  : list Token :=
  List.filter hasColor
    (List.filter accepts
       (List.filter (hasPrefix3 "sem" "color") allTokens)).

(** the identifier the third script stores for a primitive token *)
Definition V3_primitiveId (t : Token) : string :=
  "AccorColorPrimitives." +:+ V3.toPrimitiveKotlinName (path t).

(** the name and the colour the fourth script's primitives document
    defines for [token], if the token has a colour *)
Definition primitiveDef (token : Token) : option (string * string) :=
  match toComposeColor (tokenValue token) with
  | Some composeColor =>
      Some (V4.toPrimitiveKotlinName (path token), composeColor)
  | None => None
  end.

(** the names compared by their lengths, a comparison to try the sort
    with *)
Definition byLength (a b : string) : Z :=
  Z.of_nat (String.length a) - Z.of_nat (String.length b).

(** three primitives whose names are not in the order of their lengths *)
Definition threePrimitives : list Token :=
  [ colorToken ["wel"; "prim"; "color"; "blue"; "500"] "#0047AB" "#0047AB";
    colorToken ["wel"; "prim"; "color"; "red"] "#FF0000" "#FF0000";
    colorToken ["wel"; "prim"; "color"; "pink"; "50"] "#FFC0CB" "#FFC0CB" ].

(** inputs of the third script: a primitive, a name the light build
    alone has, with the colour of the primitive, and a name the dark
    build alone has *)
Definition modeInputs : V3.Inputs :=
  V3.mkInputs
    [ colorToken ["wel"; "prim"; "color"; "blue"; "500"] "#0047AB" "" ]
    [ colorToken ["wel"; "sem"; "color"; "raw"] "#0047AB" "" ]
    [ colorToken ["wel"; "sem"; "color"; "night"] "#000000" "" ].

(** ** Trial runs of the embedding *)

Example toComposeColor_rgba :
  toComposeColor (JString "rgba(255,0,0,0.5)") = Some "Color(0x80FF0000)".
Proof. vm_compute. reflexivity. Qed.

Example toComposeColor_rgb_spaces :
  toComposeColor (JString "rgb( 0, 128 ,255 )") = Some "Color(0xFF0080FF)".
Proof. vm_compute. reflexivity. Qed.

(** the no-break space is white space of the pattern *)
Example toComposeColor_no_break_space :
  toComposeColor (JString ("rgb(" +:+ String (ascii_of_N 160) "1,2,3)"))
  = Some "Color(0xFF010203)".
Proof. vm_compute. reflexivity. Qed.

(** letters past the ASCII ones have their cases too: e with acute
    accent, code unit 233, and its capital, 201; the sharp s, 223,
    becomes two letters *)
Example toUpperCase_accent :
  toUpperCase (String (ascii_of_N 233) "") = String (ascii_of_N 201) ""
  /\ toLowerCase (String (ascii_of_N 201) "") = String (ascii_of_N 233) ""
  /\ toUpperCase (String (ascii_of_N 223) "") = "SS".
Proof. repeat split. Qed.

Example toComposeColor_tenth :
  toComposeColor (JString "rgba(1,2,3,0.1)") = Some "Color(0x1A010203)".
Proof. vm_compute. reflexivity. Qed.

Example toComposeColor_hex6 :
  toComposeColor (JString "#0047ab") = Some "Color(0xFF0047AB)".
Proof. vm_compute. reflexivity. Qed.

Example toComposeColor_reference :
  toComposeColor (JString "{wel.prim.color.blue.500}") = None.
Proof. vm_compute. reflexivity. Qed.

Example toComposeColor_no_digit :
  toComposeColor (JString "rgba(1,2,3,.)") = Some "Color(0xNAN010203)".
Proof. vm_compute. reflexivity. Qed.

Example toComposeColor_not_a_string : toComposeColor (JOther true) = None.
Proof. reflexivity. Qed.

Example toDouble_tenth : toDouble 1 10 = Fin 7205759403792794 (-56).
Proof. vm_compute. reflexivity. Qed.

Example toDouble_third : toDouble 1 3 = Fin 6004799503160661 (-54).
Proof. vm_compute. reflexivity. Qed.

Example toDouble_tie_to_even :
  toDouble 9007199254740993 1 = Fin 4503599627370496 1
  /\ toDouble 9007199254740995 1 = Fin 4503599627370498 1.
Proof. split; vm_compute; reflexivity. Qed.

Example toDouble_smallest :
  toDouble 1 (2 ^ 1074) = Fin 1 (-1074) /\ toDouble 1 (2 ^ 1075) = Fin 0 (-1074).
Proof. split; vm_compute; reflexivity. Qed.

Example toDouble_overflow :
  toDouble (2 ^ 1024 - 2 ^ 970) 1 = Infinity
  /\ toDouble (2 ^ 1024 - 2 ^ 970 - 1) 1 = Fin 9007199254740991 971.
Proof. split; vm_compute; reflexivity. Qed.

Example split_parts :
  split "-" "a--b-" = ["a"; ""; "b"; ""] /\ split "-" "" = [""].
Proof. split; reflexivity. Qed.

Example V1_name :
  V1.toPrimitiveKotlinName ["wel"; "prim"; "color"; "blue-temp"; "500"]
  = "welPrimColorBlueTemp_500".
Proof. vm_compute. reflexivity. Qed.

Example V1_camel : V1.semanticPart 1 "a-b-9--c-" = "AB9-C-".
Proof. vm_compute. reflexivity. Qed.

Example V3_name :
  V3.toPrimitiveKotlinName
    ["wel"; "prim"; "color"; "leg"; "navalblue-hi"; "500"]
  = "NavalBlueHi500".
Proof. vm_compute. reflexivity. Qed.

Example V4_name :
  V4.toPrimitiveKotlinName
    ["wel"; "prim"; "color"; "leg"; "navalblue-temp"; "500"]
  = "NavalBlueTemp500".
Proof. vm_compute. reflexivity. Qed.

Example V4_semantic_name :
  V4.toPascalCaseSemantic "text-hi-2xl-Hi-HiHiA-hi" = "TextHi2xlHighHiHighAHigh".
Proof. vm_compute. reflexivity. Qed.

Example braceRef_runs :
  V4.braceRef "{a.b}" = Some "a.b" /\ V4.braceRef "{}" = None
  /\ V4.braceRef "{a}}" = Some "a}" /\ V4.braceRef "x{a}" = None.
Proof. repeat split. Qed.

Example sample_entries :
  V4.entries (V4.semanticColorsMap (V4.collected sampleInputs))
  = [ ("TextDefault", "AccorColorPrimitives.Blue500",
       "AccorColorPrimitives.Blue500");
      ("BrandHigh", "AccorColorPrimitives.Blue500",
       "AccorColorPrimitives.Blue500");
      ("Old", "AccorColorPrimitives.NavalBlue",
       "AccorColorPrimitives.NavalBlue");
      ("Raw", "Color(0x80010203)", "Color(0xFFFFFFFF)");
      ("Night", "Color.Unspecified", "Color(0xFF000000)") ].
Proof. vm_compute. reflexivity. Qed.

Example sample_primitives :
  V4.primitiveItems (V4.primitiveTokens sampleInputs)
  = [("Blue500", "    val Blue500 = Color(0xFF0047AB)")].
Proof. vm_compute. reflexivity. Qed.

(** ** Tactics *)

(** a fact about one character, settled on each of the 256 *)
Ltac each_char c :=
  destruct c as [[] [] [] [] [] [] [] []]; vm_compute.

(** ** Strings: basic facts *)

Lemma append_cons c a b : String c a +:+ b = String c (a +:+ b).
Proof. reflexivity. Qed.

Lemma append_nil_l s : "" +:+ s = s.
Proof. reflexivity. Qed.

Lemma append_nil_r s : s +:+ "" = s.
Proof. induction s as [|c s IH]; [reflexivity|]. now rewrite append_cons, IH. Qed.

Lemma append_assoc a b c : (a +:+ b) +:+ c = a +:+ (b +:+ c).
Proof.
  induction a as [|x a IH]; [reflexivity|].
  now rewrite !append_cons, IH.
Qed.

Lemma length_append a b :
  String.length (a +:+ b) = (String.length a + String.length b)%nat.
Proof.
  induction a as [|x a IH]; [reflexivity|].
  rewrite append_cons. simpl. now rewrite IH.
Qed.

Lemma allS_append p a b : allS p (a +:+ b) = allS p a && allS p b.
Proof.
  induction a as [|x a IH]; [reflexivity|].
  rewrite append_cons. simpl. rewrite IH. now rewrite andb_assoc.
Qed.

Lemma mapS_append f a b : mapS f (a +:+ b) = mapS f a +:+ mapS f b.
Proof.
  induction a as [|x a IH]; [reflexivity|].
  rewrite append_cons. simpl. now rewrite IH.
Qed.

Lemma mapS_length f s : String.length (mapS f s) = String.length s.
Proof. induction s as [|c s IH]; simpl; congruence. Qed.

Lemma startsWith_append s r : startsWith (s +:+ r) s = true.
Proof.
  induction s as [|c s IH]; [now destruct r|].
  rewrite append_cons. simpl. now rewrite Ascii.eqb_refl, IH.
Qed.

Lemma startsWith_inv s p :
  startsWith s p = true -> exists r, s = p +:+ r.
Proof.
  revert s. induction p as [|a p IH]; intros s H.
  - now exists s.
  - destruct s as [|b s]; [discriminate|]. simpl in H.
    apply andb_true_iff in H as [Hab Hs].
    apply Ascii.eqb_eq in Hab. subst b.
    destruct (IH _ Hs) as [r ->]. now exists r.
Qed.

Lemma includes_unfold s p :
  includes s p
  = startsWith s p
    || match s with EmptyString => false | String _ r => includes r p end.
Proof. now destruct s. Qed.

Lemma includes_append a w b : includes (a +:+ w +:+ b) w = true.
Proof.
  induction a as [|x a IH].
  - rewrite append_nil_l, includes_unfold, startsWith_append. reflexivity.
  - rewrite append_cons. simpl. rewrite IH. apply orb_true_r.
Qed.

Lemma includes_inv s w :
  includes s w = true -> exists a b, s = a +:+ w +:+ b.
Proof.
  induction s as [|c s IH]; rewrite includes_unfold; intros H.
  - rewrite orb_false_r in H. apply startsWith_inv in H as [r Hr].
    exists "", r. exact Hr.
  - apply orb_true_iff in H as [H|H].
    + apply startsWith_inv in H as [r Hr]. exists "", r. exact Hr.
    + destruct (IH H) as (a & b & ->). exists (String c a), b. reflexivity.
Qed.

Lemma sliceFrom_append p x : sliceFrom (String.length p) (p +:+ x) = x.
Proof. induction p as [|c p IH]; [now destruct x|exact IH]. Qed.

Lemma sliceTo_append p x : sliceTo (String.length p) (p +:+ x) = p.
Proof.
  induction p as [|c p IH]; [now destruct x|].
  rewrite append_cons. simpl. now rewrite IH.
Qed.

(** *** [span] and [skipSpaces] *)

Lemma span_spec p s a b :
  span p s = (a, b) -> s = a +:+ b /\ allS p a = true /\ stopsAt p b.
Proof.
  revert a b. induction s as [|c s IH]; simpl; intros a b H.
  - inversion H; subst. repeat split.
  - destruct (p c) eqn:Hc.
    + destruct (span p s) as [a' b'] eqn:E. inversion H; subst.
      destruct (IH _ _ eq_refl) as (-> & Ha & Hb).
      repeat split; [|assumption]. simpl. now rewrite Hc, Ha.
    + inversion H; subst. repeat split. exact Hc.
Qed.

Lemma span_append p a b :
  allS p a = true -> stopsAt p b -> span p (a +:+ b) = (a, b).
Proof.
  induction a as [|c a IH]; intros Ha Hb.
  - rewrite append_nil_l. destruct b as [|x b]; [reflexivity|].
    simpl in *. now rewrite Hb.
  - simpl in Ha. apply andb_true_iff in Ha as [Hc Ha].
    rewrite append_cons. simpl. rewrite Hc, (IH Ha Hb). reflexivity.
Qed.

Lemma skipSpaces_spec s :
  exists w, s = w +:+ skipSpaces s /\ allS isSpace w = true
            /\ stopsAt isSpace (skipSpaces s).
Proof.
  induction s as [|c s (w & Hs & Hw & Hstop)]; simpl.
  - exists "". repeat split.
  - destruct (isSpace c) eqn:Hc.
    + exists (String c w). rewrite append_cons, <- Hs.
      repeat split; [|assumption]. simpl. now rewrite Hc, Hw.
    + exists "". repeat split. exact Hc.
Qed.

Lemma skipSpaces_append w r :
  allS isSpace w = true -> stopsAt isSpace r -> skipSpaces (w +:+ r) = r.
Proof.
  induction w as [|c w IH]; intros Hw Hr.
  - rewrite append_nil_l. destruct r as [|x r]; [reflexivity|].
    simpl in *. now rewrite Hr.
  - simpl in Hw. apply andb_true_iff in Hw as [Hc Hw].
    rewrite append_cons. simpl. rewrite Hc. now apply IH.
Qed.

Lemma expect_spec c s r : expect c s = Some r -> s = String c r.
Proof.
  destruct s as [|c' s]; simpl; [discriminate|].
  destruct (Ascii.eqb c' c) eqn:E; [|discriminate].
  apply Ascii.eqb_eq in E. now intros [= ->]; subst.
Qed.

Lemma digits1_spec s d r :
  digits1 s = Some (d, r) ->
  s = d +:+ r /\ allDigits d = true /\ stopsAt isDigit r.
Proof.
  unfold digits1, allDigits. destruct (span isDigit s) as [d' r'] eqn:E.
  destruct (String.eqb d' "") eqn:Hd; [discriminate|].
  intros [= -> ->]. destruct (span_spec _ _ _ _ E) as (-> & Ha & Hb).
  now rewrite Hd, Ha.
Qed.

Lemma digits1_append d r :
  allDigits d = true -> stopsAt isDigit r -> digits1 (d +:+ r) = Some (d, r).
Proof.
  unfold allDigits, digits1. intros Hd Hr.
  apply andb_true_iff in Hd as [Hne Hd].
  rewrite (span_append _ _ _ Hd Hr).
  now destruct (String.eqb d "").
Qed.

(** *** The pattern, matched at a position *)

Lemma rgbaTail_sound s oa rest :
  rgbaTail s = Some (oa, rest) ->
  exists t, wellFormedTail t = true /\ s = renderTail t +:+ rest
            /\ oa = match t with Some (_, a, _) => Some a | None => None end.
Proof.
  unfold rgbaTail. destruct (expect "," s) as [r|] eqn:Ecomma.
  - apply expect_spec in Ecomma. subst s.
    destruct (skipSpaces_spec r) as (w7 & Hr & Hw7 & _).
    destruct (span isDigitOrDot (skipSpaces r)) as [a r1] eqn:Ea.
    destruct (span_spec _ _ _ _ Ea) as (Hsk & Ha & _).
    destruct (String.eqb a "") eqn:Hne; [discriminate|].
    destruct (skipSpaces_spec r1) as (w8 & Hr1 & Hw8 & _).
    destruct (expect ")" (skipSpaces r1)) as [r2|] eqn:Eclose; [|discriminate].
    apply expect_spec in Eclose. intros [= <- <-].
    exists (Some (w7, a, w8)). simpl. rewrite Hw7, Hne, Ha, Hw8.
    repeat split. rewrite Hr, Hsk, Hr1, Eclose.
    now rewrite !append_assoc.
  - destruct (expect ")" s) as [r2|] eqn:Eclose; [|discriminate].
    apply expect_spec in Eclose. intros [= <- <-].
    exists None. now subst s.
Qed.

Lemma digit_not_space c : isDigit c = true -> isSpace c = false.
Proof. each_char c; congruence. Qed.

Lemma digitOrDot_not_space c : isDigitOrDot c = true -> isSpace c = false.
Proof. each_char c; congruence. Qed.

Lemma allDigits_head d r :
  allDigits d = true -> stopsAt isSpace (d +:+ r).
Proof.
  unfold allDigits. destruct d as [|c d]; [discriminate|]. simpl.
  intros H. apply andb_true_iff in H as [H _].
  now apply digit_not_space.
Qed.

Lemma spaces_then w c r (p : ascii -> bool) :
  allS isSpace w = true -> p c = false ->
  (forall x, isSpace x = true -> p x = false) ->
  stopsAt p (w +:+ String c r).
Proof.
  destruct w as [|x w]; simpl; intros Hw Hc Hp; [exact Hc|].
  apply andb_true_iff in Hw as [Hx _]. now apply Hp.
Qed.

Lemma space_not_digit x : isSpace x = true -> isDigit x = false.
Proof. each_char x; congruence. Qed.

Lemma space_not_digitOrDot x : isSpace x = true -> isDigitOrDot x = false.
Proof. each_char x; congruence. Qed.

Lemma rgbaTail_complete t rest :
  wellFormedTail t = true ->
  rgbaTail (renderTail t +:+ rest)
  = Some (match t with Some (_, a, _) => Some a | None => None end, rest).
Proof.
  destruct t as [[[w7 a] w8]|]; simpl; intros H; [|reflexivity].
  apply andb_true_iff in H as [H Hw8]. apply andb_true_iff in H as [H Ha].
  apply andb_true_iff in H as [Hw7 Hne]. apply negb_true_iff in Hne.
  unfold rgbaTail. rewrite !append_assoc. simpl. rewrite append_nil_l.
  rewrite (skipSpaces_append w7).
  - rewrite (span_append isDigitOrDot a).
    + rewrite Hne. rewrite (skipSpaces_append w8); [reflexivity|assumption|].
      reflexivity.
    + assumption.
    + apply spaces_then; [assumption|reflexivity|]. apply space_not_digitOrDot.
  - assumption.
  - destruct a as [|c a]; [discriminate|]. simpl in Ha |- *.
    apply andb_true_iff in Ha as [Hc _]. now apply digitOrDot_not_space.
Qed.

Lemma rgbaMatchAt_sound s c rest :
  rgbaMatchAt s = Some (c, rest) ->
  exists p, wellFormed p = true /\ s = render p +:+ rest /\ c = capturesOf p.
Proof.
  unfold rgbaMatchAt. destruct (startsWith s "rgb") eqn:Hrgb; [|discriminate].
  apply startsWith_inv in Hrgb as [s0 ->].
  change (sliceFrom 3 ("rgb" +:+ s0)) with s0.
  set (s1 := match expect "a" s0 with Some r => r | None => s0 end).
  assert (Hs0 : exists a : bool, s0 = (if a then "a" else "") +:+ s1).
  { subst s1. destruct (expect "a" s0) as [r|] eqn:E.
    - apply expect_spec in E. now exists true.
    - now exists false. }
  destruct Hs0 as [a Hs0]. clearbody s1.
  destruct (expect "(" s1) as [s2|] eqn:E1; [|discriminate].
  apply expect_spec in E1.
  destruct (skipSpaces_spec s2) as (w1 & H2 & Hw1 & _).
  destruct (digits1 (skipSpaces s2)) as [[r s3]|] eqn:Er; [|discriminate].
  apply digits1_spec in Er as (Hr & Hrd & _).
  destruct (skipSpaces_spec s3) as (w2 & H3 & Hw2 & _).
  destruct (expect "," (skipSpaces s3)) as [s4|] eqn:E4; [|discriminate].
  apply expect_spec in E4.
  destruct (skipSpaces_spec s4) as (w3 & H4 & Hw3 & _).
  destruct (digits1 (skipSpaces s4)) as [[g s5]|] eqn:Eg; [|discriminate].
  apply digits1_spec in Eg as (Hg & Hgd & _).
  destruct (skipSpaces_spec s5) as (w4 & H5 & Hw4 & _).
  destruct (expect "," (skipSpaces s5)) as [s6|] eqn:E6; [|discriminate].
  apply expect_spec in E6.
  destruct (skipSpaces_spec s6) as (w5 & H6 & Hw5 & _).
  destruct (digits1 (skipSpaces s6)) as [[b s7]|] eqn:Eb; [|discriminate].
  apply digits1_spec in Eb as (Hb & Hbd & _).
  destruct (skipSpaces_spec s7) as (w6 & H7 & Hw6 & _).
  destruct (rgbaTail (skipSpaces s7)) as [[oa s8]|] eqn:Et; [|discriminate].
  apply rgbaTail_sound in Et as (t & Ht & Hs8 & Hoa).
  intros [= <- <-].
  exists (mkParts a w1 r w2 w3 g w4 w5 b w6 t).
  unfold wellFormed, capturesOf, render. simpl.
  rewrite Hw1, Hrd, Hw2, Hw3, Hgd, Hw4, Hw5, Hbd, Hw6, Ht.
  repeat split; [|now rewrite Hoa].
  rewrite Hs0, E1, H2, Hr, H3, E4, H4, Hg, H5, E6, H6, Hb, H7, Hs8.
  rewrite !append_assoc. reflexivity.
Qed.

Lemma rgbaMatchAt_complete p rest :
  wellFormed p = true ->
  rgbaMatchAt (render p +:+ rest) = Some (capturesOf p, rest).
Proof.
  destruct p as [a w1 r w2 w3 g w4 w5 b w6 t].
  unfold wellFormed, render, capturesOf. simpl. intros H.
  repeat (apply andb_true_iff in H as [H ?]).
  assert (Hcomma : forall w x, allS isSpace w = true ->
            skipSpaces (w +:+ "," +:+ x) = "," +:+ x).
  { intros w x Hw. now apply skipSpaces_append. }
  assert (Hnum : forall w d x, allS isSpace w = true -> allDigits d = true ->
            skipSpaces (w +:+ d +:+ x) = d +:+ x).
  { intros w d x Hw Hd. apply skipSpaces_append; [assumption|].
    now apply allDigits_head. }
  assert (Hdig : forall d w y, allDigits d = true -> allS isSpace w = true ->
            (exists c x, y = String c x /\ isDigit c = false) ->
            digits1 (d +:+ w +:+ y) = Some (d, w +:+ y)).
  { intros d w y Hd Hw (c & x & -> & Hc). apply digits1_append; [assumption|].
    apply spaces_then; [assumption..|]. apply space_not_digit. }
  unfold rgbaMatchAt. rewrite !append_assoc.
  rewrite startsWith_append.
  change 3%nat with (String.length "rgb"). rewrite sliceFrom_append.
  assert (Ha : forall x,
    match expect "a" ((if a then "a" else "") +:+ "(" +:+ x) with
    | Some r0 => r0 | None => (if a then "a" else "") +:+ "(" +:+ x end
    = "(" +:+ x) by (intros x; now destruct a).
  rewrite Ha. change (expect "(" ("(" +:+ ?x)) with (Some x). cbv iota.
  rewrite Hnum by assumption.
  rewrite (Hdig r w2) by (try assumption; now eexists _, _).
  rewrite Hcomma by assumption.
  change (expect "," ("," +:+ ?x)) with (Some x). cbv iota.
  rewrite Hnum by assumption.
  rewrite (Hdig g w4) by (try assumption; now eexists _, _).
  rewrite Hcomma by assumption.
  change (expect "," ("," +:+ ?x)) with (Some x). cbv iota.
  rewrite Hnum by assumption.
  assert (Htail : exists c x, renderTail t +:+ rest = String c x
                              /\ isDigit c = false /\ isSpace c = false).
  { destruct t as [[[w7 al] w8]|]; simpl; eauto. }
  destruct Htail as (c & x & Hcx & Hcd & Hcs).
  rewrite (Hdig b w6) by (try assumption; eauto).
  rewrite (skipSpaces_append w6) by (try assumption; now rewrite Hcx).
  rewrite rgbaTail_complete by assumption. reflexivity.
Qed.

(** *** The pattern, searched *)

Lemma rgbaMatch_unfold s :
  rgbaMatch s
  = match rgbaMatchAt s with
    | Some (c, _) => Some c
    | None => match s with
              | EmptyString => None
              | String _ r => rgbaMatch r
              end
    end.
Proof. now destruct s. Qed.

Lemma rgbaMatch_sound s c :
  rgbaMatch s = Some c ->
  exists before p after,
    wellFormed p = true /\ s = before +:+ render p +:+ after
    /\ c = capturesOf p.
Proof.
  induction s as [|x s IH]; rewrite rgbaMatch_unfold.
  - destruct (rgbaMatchAt "") as [[c' rest]|] eqn:E; [|discriminate].
    intros [= ->]. apply rgbaMatchAt_sound in E as (p & Hp & Hs & Hc).
    now exists "", p, rest.
  - destruct (rgbaMatchAt (String x s)) as [[c' rest]|] eqn:E.
    + intros [= ->]. apply rgbaMatchAt_sound in E as (p & Hp & Hs & Hc).
      now exists "", p, rest.
    + intros H. destruct (IH H) as (before & p & after & Hp & -> & Hc).
      now exists (String x before), p, after.
Qed.

(** a literal at the start of the text is the match *)
Lemma rgbaMatch_at_start p after :
  wellFormed p = true ->
  rgbaMatch (render p +:+ after) = Some (capturesOf p).
Proof.
  intros Hp. now rewrite rgbaMatch_unfold, rgbaMatchAt_complete.
Qed.

(** a text that holds a literal has a match *)
Lemma rgbaMatch_complete before p after :
  wellFormed p = true ->
  rgbaMatch (before +:+ render p +:+ after) <> None.
Proof.
  intros Hp. induction before as [|x before IH].
  - rewrite append_nil_l, rgbaMatch_at_start by assumption. discriminate.
  - rewrite append_cons, rgbaMatch_unfold.
    now destruct (rgbaMatchAt _) as [[c r]|].
Qed.

Lemma rgbaMatchAt_needs_r c s :
  Ascii.eqb c "r" = false -> rgbaMatchAt (String c s) = None.
Proof.
  unfold rgbaMatchAt.
  change (startsWith (String c s) "rgb")
    with (Ascii.eqb "r" c && startsWith s "gb").
  rewrite Ascii.eqb_sym. now intros ->.
Qed.

Lemma rgbaMatch_needs_r s :
  allS (fun c => negb (Ascii.eqb c "r")) s = true -> rgbaMatch s = None.
Proof.
  induction s as [|c s IH]; [reflexivity|]. simpl allS. intros H.
  apply andb_true_iff in H as [Hc Hs]. apply negb_true_iff in Hc.
  rewrite rgbaMatch_unfold, rgbaMatchAt_needs_r by assumption. auto.
Qed.

(** *** Hexadecimal digits *)

Lemma hexValue_range c : isHexDigit c = true -> 0 <= hexValue c < 16.
Proof. each_char c; intuition congruence. Qed.

Lemma hexUpper_hexValue c :
  isHexDigit c = true -> hexUpper (hexValue c) = toUpperChar c.
Proof. each_char c; congruence. Qed.

Lemma hex_not_r c : isHexDigit c = true -> negb (Ascii.eqb c "r") = true.
Proof. each_char c; congruence. Qed.

Lemma byteHex_byteOf c1 c2 :
  isHexDigit c1 = true -> isHexDigit c2 = true ->
  byteHex (byteOf c1 c2)
  = String (toUpperChar c1) (String (toUpperChar c2) "").
Proof.
  intros H1 H2. unfold byteHex, byteOf.
  pose proof (hexValue_range _ H1). pose proof (hexValue_range _ H2).
  replace ((16 * hexValue c1 + hexValue c2) / 16) with (hexValue c1)
    by (apply Z.div_unique with (hexValue c2); lia).
  replace ((16 * hexValue c1 + hexValue c2) mod 16) with (hexValue c2)
    by (apply Z.mod_unique with (hexValue c1); lia).
  now rewrite !hexUpper_hexValue.
Qed.

Lemma upperOf_hex c :
  isHexDigit c = true -> upperOf c = String (toUpperChar c) "".
Proof. each_char c; congruence. Qed.

(** on hexadecimal digits [toUpperCase] works character by character *)
Lemma toUpperCase_hex h :
  allS isHexDigit h = true -> toUpperCase h = mapS toUpperChar h.
Proof.
  induction h as [|c h IH]; [reflexivity|]. simpl. intros H.
  apply andb_true_iff in H as [Hc H].
  now rewrite (upperOf_hex c Hc), IH.
Qed.

Lemma allS_impl (p q : ascii -> bool) s :
  (forall c, p c = true -> q c = true) -> allS p s = true -> allS q s = true.
Proof.
  intros Hpq. induction s as [|c s IH]; [reflexivity|]. simpl.
  intros H. apply andb_true_iff in H as [Hc Hs].
  now rewrite (Hpq _ Hc), IH.
Qed.

(** a text made of [#] and hexadecimal digits has no functional literal *)
Lemma rgbaMatch_hex h :
  allS isHexDigit h = true -> rgbaMatch ("#" +:+ h) = None.
Proof.
  intros H. apply rgbaMatch_needs_r. simpl.
  eapply allS_impl; [|exact H]. apply hex_not_r.
Qed.

(** C2. For every text made of [#] and eight hexadecimal digits
    [r1 r2 g1 g2 b1 b2 a1 a2] (the order red, green, blue, alpha of the
    source), [toComposeColor] returns [Color(0xAARRGGBB)]: the last
    source byte comes first, red, green and blue follow in their
    order, and every byte is written with two upper-case digits. *)
Theorem C2_hex8_alpha_first (r1 r2 g1 g2 b1 b2 a1 a2 : ascii) :
  forallb isHexDigit [r1; r2; g1; g2; b1; b2; a1; a2] = true ->
  toComposeColor (JString (ofChars ["#"%char; r1; r2; g1; g2; b1; b2; a1; a2]))
  = Some ("Color(0x" +:+ byteHex (byteOf a1 a2) +:+ byteHex (byteOf r1 r2)
          +:+ byteHex (byteOf g1 g2) +:+ byteHex (byteOf b1 b2) +:+ ")").
Proof.
  intros H. simpl in H.
  repeat (apply andb_true_iff in H as [? H]). clear H.
  assert (Hall : allS isHexDigit (ofChars [r1; r2; g1; g2; b1; b2; a1; a2])
                 = true).
  { simpl. repeat (apply andb_true_iff; split); auto. }
  unfold toComposeColor.
  change (ofChars ("#"%char :: ?l)) with ("#" +:+ ofChars l).
  rewrite rgbaMatch_hex by exact Hall.
  unfold hexMatch, hexAlphaMatch, hexMatchN.
  change (expect "#" ("#" +:+ ?h)) with (Some h). cbv beta iota.
  rewrite Hall.
  change (String.length (ofChars [r1; r2; g1; g2; b1; b2; a1; a2]))
    with 8%nat.
  cbn [Nat.eqb andb]. cbv beta iota.
  rewrite (toUpperCase_hex _ Hall). simpl.
  now rewrite !byteHex_byteOf.
Qed.

(** C2, at [#11223344]: alpha 44, red 11, green 22, blue 33. *)
Lemma C2_hex8_alpha_first_witness :
  forallb isHexDigit ["1"; "1"; "2"; "2"; "3"; "3"; "4"; "4"]%char = true
  /\ toComposeColor (JString "#11223344") = Some "Color(0x44112233)".
Proof.
  split; [reflexivity|].
  exact (C2_hex8_alpha_first "1" "1" "2" "2" "3" "3" "4" "4" eq_refl).
Defined.

(** *** Inputs of other shapes *)

Lemma hexMatchN_sound n s h :
  hexMatchN n s = Some h -> isHexLiteral n s.
Proof.
  unfold hexMatchN. destruct (expect "#" s) as [h'|] eqn:E; [|discriminate].
  apply expect_spec in E.
  destruct ((String.length h' =? n)%nat && allS isHexDigit h') eqn:C;
    [|discriminate].
  apply andb_true_iff in C as [Hlen Hhex]. apply Nat.eqb_eq in Hlen.
  intros _. exists h'. now subst s.
Qed.

Lemma endsWith_append a p : endsWith (a +:+ p) p = true.
Proof.
  unfold endsWith. rewrite length_append.
  replace (String.length a + String.length p - String.length p)%nat
    with (String.length a) by lia.
  rewrite sliceFrom_append, String.eqb_refl.
  apply andb_true_iff. split; [|reflexivity]. apply Nat.leb_le. lia.
Qed.

Lemma not_holdsRgbaLiteral s :
  rgbaMatch s = None -> ~ holdsRgbaLiteral s.
Proof.
  intros H (before & p & after & Hp & ->).
  now apply (rgbaMatch_complete before p after Hp).
Qed.

Lemma isRgbaLiteral_starts s : isRgbaLiteral s -> startsWith s "rgb" = true.
Proof. intros (p & _ & ->). unfold render. apply startsWith_append. Qed.

(** C3, as stated, fails at [xrgb(1,2,3)]: the text is not a functional
    literal, nor [#] and six or eight hexadecimal digits, and
    [toComposeColor] returns a colour for it, because it searches the
    functional pattern anywhere in the text. *)
Lemma C3_counterexample :
  ~ isRgbaLiteral "xrgb(1,2,3)"
  /\ ~ isHexLiteral 6 "xrgb(1,2,3)"
  /\ ~ isHexLiteral 8 "xrgb(1,2,3)"
  /\ toComposeColor (JString "xrgb(1,2,3)") = Some "Color(0xFF010203)".
Proof.
  repeat split.
  - intros H. apply isRgbaLiteral_starts in H. discriminate H.
  - intros (h & H & _). discriminate H.
  - intros (h & H & _). discriminate H.
Qed.

(** C3, amended.  For every text that holds no functional literal
    anywhere, and is neither [#] and exactly six hexadecimal digits nor
    [#] and exactly eight, [toComposeColor] returns [null]; and it
    returns [null] for every text between braces, whatever the text. *)
Theorem C3_other_shapes_null :
  (forall s,
     ~ holdsRgbaLiteral s -> ~ isHexLiteral 6 s -> ~ isHexLiteral 8 s ->
     toComposeColor (JString s) = None)
  /\ (forall inner, toComposeColor (JString ("{" +:+ inner +:+ "}")) = None).
Proof.
  split.
  - intros s Hrgb H6 H8. unfold toComposeColor.
    destruct (negb (truthy (JString s))); [reflexivity|].
    destruct (startsWith s "{" && endsWith s "}"); [reflexivity|].
    destruct (rgbaMatch s) as [[[[r g] b] a]|] eqn:E.
    { exfalso. apply Hrgb. apply rgbaMatch_sound in E.
      destruct E as (before & p & after & Hp & Hs & _).
      now exists before, p, after. }
    destruct (hexMatch s) as [h|] eqn:E6.
    { exfalso. apply H6. now apply hexMatchN_sound in E6. }
    destruct (hexAlphaMatch s) as [h|] eqn:E8; [|reflexivity].
    exfalso. apply H8. now apply hexMatchN_sound in E8.
  - intros inner. unfold toComposeColor.
    destruct (negb (truthy (JString ("{" +:+ inner +:+ "}")))); [reflexivity|].
    rewrite startsWith_append.
    rewrite <- append_assoc, endsWith_append. reflexivity.
Qed.

(** C3, at the text [blue]. *)
Lemma C3_other_shapes_null_witness :
  (~ holdsRgbaLiteral "blue" /\ ~ isHexLiteral 6 "blue"
   /\ ~ isHexLiteral 8 "blue")
  /\ toComposeColor (JString "blue") = None.
Proof.
  assert (H : ~ holdsRgbaLiteral "blue" /\ ~ isHexLiteral 6 "blue"
              /\ ~ isHexLiteral 8 "blue").
  { repeat split.
    - apply not_holdsRgbaLiteral. reflexivity.
    - intros (h & E & _). discriminate E.
    - intros (h & E & _). discriminate E. }
  split; [exact H|].
  destruct H as (H1 & H2 & H3).
  exact (proj1 C3_other_shapes_null "blue" H1 H2 H3).
Defined.

(** *** Rounding to binary64 *)

Lemma roundNearestEven_le a b K :
  0 < b -> a <= K * b -> roundNearestEven a b <= K.
Proof.
  intros Hb Ha. unfold roundNearestEven.
  pose proof (Z.div_mod a b ltac:(lia)) as Hdm.
  pose proof (Z.mod_pos_bound a b Hb) as Hr.
  set (q := a / b) in *. set (r := a mod b) in *.
  assert (q <= K) by nia.
  destruct (2 * r <? b) eqn:E1; [lia|]. apply Z.ltb_ge in E1.
  assert (q < K) by nia.
  destruct (b <? 2 * r); [lia|]. destruct (Z.even q); lia.
Qed.

Lemma roundNearestEven_nonneg a b :
  0 <= a -> 0 < b -> 0 <= roundNearestEven a b.
Proof.
  intros Ha Hb. unfold roundNearestEven.
  pose proof (Z.div_pos a b Ha Hb).
  destruct (2 * (a mod b) <? b); [lia|].
  destruct (b <? 2 * (a mod b)); [lia|]. destruct (Z.even (a / b)); lia.
Qed.

Lemma ilog2_le n d K :
  0 < n -> 0 < d -> 0 <= K + 1 -> n < d * 2 ^ (K + 1) -> ilog2 n d <= K.
Proof.
  intros Hn Hd HK Hlt. unfold ilog2.
  pose proof (Z.log2_spec n Hn) as [Hn1 _].
  pose proof (Z.log2_spec d Hd) as [_ Hd2].
  pose proof (Z.log2_nonneg n). pose proof (Z.log2_nonneg d).
  set (k := Z.log2 n - Z.log2 d).
  assert (Hk : k <= K + 1).
  { assert (2 ^ Z.log2 n < 2 ^ (Z.log2 d + K + 2)).
    { replace (Z.log2 d + K + 2) with (Z.succ (Z.log2 d) + (K + 1)) by lia.
      rewrite Z.pow_add_r by lia.
      assert (0 < 2 ^ (K + 1)) by (apply Z.pow_pos_nonneg; lia).
      nia. }
    apply Z.pow_lt_mono_r_iff in H1; lia. }
  destruct (Z.eq_dec k (K + 1)) as [E|E].
  - rewrite E. destruct (0 <=? K + 1) eqn:E0; [|apply Z.leb_gt in E0; lia].
    destruct (d * 2 ^ (K + 1) <=? n) eqn:E1; [apply Z.leb_le in E1; lia|lia].
  - destruct (if 0 <=? k then d * 2 ^ k <=? n else d <=? n * 2 ^ (- k)); lia.
Qed.

(** a quotient at most [K] rounds to a value at most [K] *)
Lemma toDouble_bounded n d K :
  0 <= n -> 0 < d -> 0 <= K < 2 ^ 53 -> n <= K * d ->
  exists m qe, toDouble n d = Fin m qe /\ qe <= 0
               /\ 0 <= m <= K * 2 ^ (- qe).
Proof.
  intros Hn Hd HK Hle. unfold toDouble.
  destruct (n =? 0) eqn:E0.
  { exists 0, 0. simpl. repeat split; lia. }
  apply Z.eqb_neq in E0.
  assert (He : ilog2 n d <= 52) by (apply ilog2_le; simpl; nia).
  set (e := Z.max (ilog2 n d) (-1022)).
  assert (Hqe : e - 52 <= 0) by lia.
  set (qe := e - 52) in *. clearbody qe. clear e He.
  destruct (0 <=? qe) eqn:Eq.
  - apply Z.leb_le in Eq. assert (qe = 0) by lia. subst qe.
    change (2 ^ 0) with 1. change (2 ^ (- 0)) with 1.
    set (m := roundNearestEven n (d * 1)).
    assert (Hm : 0 <= m <= K).
    { split; [apply roundNearestEven_nonneg; lia|].
      apply roundNearestEven_le; lia. }
    assert (Hbig : 2 ^ 53 < 2 ^ 1024) by (apply Z.pow_lt_mono_r; lia).
    destruct (2 ^ 1024 <=? m * 1) eqn:Eo; [apply Z.leb_le in Eo; lia|].
    exists m, 0. simpl. repeat split; lia.
  - apply Z.leb_gt in Eq. simpl.
    assert (Hp : 0 < 2 ^ (- qe)) by (apply Z.pow_pos_nonneg; lia).
    exists (roundNearestEven (n * 2 ^ (- qe)) d), qe.
    repeat split; [lia|apply roundNearestEven_nonneg; nia|].
    apply roundNearestEven_le; [assumption|nia].
Qed.

Lemma Math_round_bounded m qe K :
  qe <= 0 -> 0 <= m <= K * 2 ^ (- qe) ->
  exists A, Math_round (Fin m qe) = Fin A 0 /\ 0 <= A <= K.
Proof.
  intros Hqe Hm. unfold Math_round. destruct (0 <=? qe) eqn:Eq.
  - apply Z.leb_le in Eq. assert (qe = 0) by lia. subst qe.
    change (2 ^ (- 0)) with 1 in Hm. change (2 ^ 0) with 1.
    exists (m * 1). split; [reflexivity|lia].
  - apply Z.leb_gt in Eq.
    assert (Hp : 0 < 2 ^ (- qe)) by (apply Z.pow_pos_nonneg; lia).
    replace (- qe + 1) with (Z.succ (- qe)) by lia.
    rewrite Z.pow_succ_r by lia.
    set (P := 2 ^ (- qe)) in *.
    exists ((2 * m + P) / (2 * P)). split; [reflexivity|]. split.
    + apply Z.div_pos; lia.
    + assert ((2 * m + P) / (2 * P) < K + 1); [|lia].
      apply Z.div_lt_upper_bound; nia.
Qed.

(** the alpha byte of a fraction between 0 and 1 *)
Lemma alpha_bounded num den :
  0 <= num <= den -> 0 < den ->
  exists A, Math_round (fmul (toDouble num den) (Fin 255 0)) = Fin A 0
            /\ 0 <= A <= 255.
Proof.
  intros Hnum Hden.
  destruct (toDouble_bounded num den 1) as (m & qe & -> & Hqe & Hm);
    [lia|lia|split; [lia|reflexivity]|lia|].
  unfold fmul. rewrite Z.add_0_r.
  assert (Hp : 0 < 2 ^ (- qe)) by (apply Z.pow_pos_nonneg; lia).
  assert (H255 : 0 <= 255 < 2 ^ 53) by (split; [lia|reflexivity]).
  destruct (0 <=? qe) eqn:Eq.
  - apply Z.leb_le in Eq. assert (qe = 0) by lia. subst qe.
    change (2 ^ (- 0)) with 1 in Hm. change (2 ^ 0) with 1.
    destruct (toDouble_bounded (m * 255 * 1) 1 255)
      as (m' & qe' & -> & Hqe' & Hm'); [lia|lia|exact H255|lia|].
    now apply Math_round_bounded.
  - destruct (toDouble_bounded (m * 255) (2 ^ (- qe)) 255)
      as (m' & qe' & -> & Hqe' & Hm'); [lia|lia|exact H255|lia|].
    now apply Math_round_bounded.
Qed.

(** *** Checking a property on a range *)

Lemma forall_below (P : Z -> bool) (N : nat) :
  forallb P (map Z.of_nat (seq 0 N)) = true ->
  forall z, 0 <= z < Z.of_nat N -> P z = true.
Proof.
  intros H z Hz. rewrite forallb_forall in H. apply H.
  rewrite <- (Z2Nat.id z) by lia. apply in_map, in_seq. lia.
Qed.

Lemma hexByte_byte A : 0 <= A <= 255 -> hexByte (Fin A 0) = byteHex A.
Proof.
  intros HA. apply String.eqb_eq.
  apply (forall_below
           (fun z => String.eqb (hexByte (Fin z 0)) (byteHex z)) 256);
    [vm_compute; reflexivity|lia].
Qed.

Lemma hexByte_toDouble n :
  0 <= n <= 255 -> hexByte (toDouble n 1) = byteHex n.
Proof.
  intros Hn. apply String.eqb_eq.
  apply (forall_below
           (fun z => String.eqb (hexByte (toDouble z 1)) (byteHex z)) 256);
    [vm_compute; reflexivity|lia].
Qed.

Lemma alpha_short num den :
  In den [1; 10; 100; 1000] -> 0 <= num <= den ->
  Math_round (fmul (toDouble num den) (Fin 255 0))
  = Fin (alphaExact num den) 0.
Proof.
  intros Hden Hnum.
  assert (H : alphaAgrees den num = true).
  { simpl in Hden.
    destruct Hden as [<-|[<-|[<-|[<-|[]]]]].
    - apply (forall_below (alphaAgrees 1) 2); [vm_compute; reflexivity|lia].
    - apply (forall_below (alphaAgrees 10) 11); [vm_compute; reflexivity|lia].
    - apply (forall_below (alphaAgrees 100) 101);
        [vm_compute; reflexivity|lia].
    - apply (forall_below (alphaAgrees 1000) 1001);
        [vm_compute; reflexivity|lia]. }
  unfold alphaAgrees in H.
  destruct (Math_round _) as [| |A e]; try discriminate.
  destruct e; try discriminate. apply Z.eqb_eq in H. now subst.
Qed.

(** *** Decimal texts *)

Lemma digitVal_nonneg c : isDigit c = true -> 0 <= digitVal c.
Proof. each_char c; congruence. Qed.

Lemma decAcc_nonneg s acc :
  allS isDigit s = true -> 0 <= acc -> 0 <= decAcc acc s.
Proof.
  revert acc. induction s as [|c s IH]; simpl; intros acc H Hacc; [lia|].
  apply andb_true_iff in H as [Hc Hs]. apply IH; [assumption|].
  pose proof (digitVal_nonneg _ Hc). lia.
Qed.

Lemma span_all p s : allS p s = true -> span p s = (s, "").
Proof.
  intros H. rewrite <- (append_nil_r s) at 1. now apply span_append.
Qed.

Lemma parseFloat_decimal a num den :
  isDecimal a num den -> parseFloat a = toDouble num den /\ 0 <= num /\ 0 < den.
Proof.
  intros (ip & fp & Hip & Hfp & Hne & Ha & -> & ->).
  assert (Hnn : 0 <= decVal (ip +:+ fp)).
  { apply decAcc_nonneg; [|lia]. now rewrite allS_append, Hip, Hfp. }
  assert (Hden : 0 < 10 ^ Z.of_nat (String.length fp))
    by (apply Z.pow_pos_nonneg; lia).
  split; [|split; assumption].
  apply String.eqb_neq in Hne. unfold parseFloat.
  destruct Ha as [[-> ->]| ->].
  - rewrite (span_all _ _ Hip). simpl expect. cbv iota. now rewrite Hne.
  - rewrite (span_append isDigit ip ("." +:+ fp) Hip eq_refl).
    change (expect "." ("." +:+ fp)) with (Some fp). cbv iota.
    rewrite (span_all _ _ Hfp). simpl fst. now rewrite Hne.
Qed.

(** C7, as stated, fails for a long fraction: the alpha argument
    [0.00196078431372549] is a decimal fraction between 0 and 1 and 255
    times it is below one half, so that it rounds to 0; the binary64
    product of 255 and the binary64 value nearest to the fraction is
    exactly one half, [Math.round] gives 1, and the alpha byte is [01]. *)
Lemma C7_counterexample :
  isDecimal "0.00196078431372549" 196078431372549 (10 ^ 17)
  /\ 0 <= 196078431372549 <= 10 ^ 17
  /\ 2 * (255 * 196078431372549) < 10 ^ 17
  /\ alphaExact 196078431372549 (10 ^ 17) = 0
  /\ Math_round (fmul (parseFloat "0.00196078431372549") (Fin 255 0))
     = Fin 1 0
  /\ toComposeColor (JString "rgba(0,0,0,0.00196078431372549)")
     = Some "Color(0x01000000)".
Proof.
  split; [|split; [|split; [|split; [|split]]]].
  - exists "0", "00196078431372549".
    repeat split; try reflexivity; try discriminate. now right.
  - vm_compute. split; discriminate.
  - reflexivity.
  - reflexivity.
  - vm_compute. reflexivity.
  - vm_compute. reflexivity.
Qed.

(** C7, amended. For every functional literal [rgb(r,g,b)] or
    [rgba(r,g,b,a)],
    with any white space the pattern allows, whose red, green and blue
    are at most 255 and whose fourth argument, when there is one, is a
    decimal fraction [num/den] between 0 and 1, [toComposeColor] returns
    [Color(0xAARRGGBB)]: alpha first, then red, green and blue, each as
    two upper-case hexadecimal digits.  Without a fourth argument alpha
    is 255.  With one, alpha is [Math.round] of the binary64 product of
    255 and the binary64 value nearest to [num/den]; it lies between 0
    and 255, and for at most three digits after the point it is
    [255 * num / den] rounded to the nearest integer, halves upwards. *)
Theorem C7_rgba_argb_bytes (p : RgbaParts) (num den : Z) :
  wellFormed p = true ->
  decVal (red p) <= 255 -> decVal (green p) <= 255 ->
  decVal (blue p) <= 255 ->
  (forall w7 a w8, alphaArg p = Some (w7, a, w8) ->
     isDecimal a num den /\ num <= den) ->
  exists A,
    toComposeColor (JString (render p))
    = Some ("Color(0x" +:+ byteHex A +:+ byteHex (decVal (red p))
            +:+ byteHex (decVal (green p)) +:+ byteHex (decVal (blue p))
            +:+ ")")
    /\ 0 <= A <= 255
    /\ match alphaArg p with
       | None => A = 255
       | Some _ =>
           Math_round (fmul (toDouble num den) (Fin 255 0)) = Fin A 0
           /\ (den <= 1000 -> A = (2 * 255 * num + den) / (2 * den))
       end.
Proof.
  intros Hwf Hr Hg Hb Halpha.
  assert (Hchan : forall d, allDigits d = true -> decVal d <= 255 ->
            hexByte (parseInt d) = byteHex (decVal d)).
  { intros d Hd Hle. unfold allDigits in Hd.
    apply andb_true_iff in Hd as [_ Hd].
    apply hexByte_toDouble. split; [|assumption].
    apply decAcc_nonneg; [assumption|lia]. }
  pose proof Hwf as Hwf'. unfold wellFormed in Hwf'.
  repeat (apply andb_true_iff in Hwf' as [Hwf' ?]).
  assert (Hres : forall alpha A, hexByte alpha = byteHex A ->
    Some ("Color(0x" +:+ hexByte alpha +:+ hexByte (parseInt (red p))
          +:+ hexByte (parseInt (green p)) +:+ hexByte (parseInt (blue p))
          +:+ ")")
    = Some ("Color(0x" +:+ byteHex A +:+ byteHex (decVal (red p))
            +:+ byteHex (decVal (green p)) +:+ byteHex (decVal (blue p))
            +:+ ")")).
  { intros alpha A ->. now rewrite !Hchan. }
  unfold toComposeColor.
  change (negb (truthy (JString (render p)))) with false. cbv iota.
  change (startsWith (render p) "{") with false. simpl andb. cbv iota.
  rewrite <- (append_nil_r (render p)), rgbaMatch_at_start by assumption.
  unfold capturesOf.
  destruct (alphaArg p) as [[[w7 a] w8]|] eqn:Ea.
  - destruct (Halpha _ _ _ eq_refl) as [Hdec Hle].
    destruct (parseFloat_decimal _ _ _ Hdec) as (-> & Hnum & Hden).
    destruct (alpha_bounded num den) as (A & HA & Hrange); [lia|lia|].
    exists A. rewrite HA. split; [|split; [assumption|split; [reflexivity|]]].
    + apply Hres. now apply hexByte_byte.
    + intros Hshort.
      assert (Hin : In den [1; 10; 100; 1000]).
      { destruct Hdec as (ip & fp & _ & _ & _ & _ & _ & Hd).
        set (k := String.length fp) in *.
        destruct k as [|[|[|[|k]]]]; subst den; simpl; auto.
        exfalso. revert Hshort.
        replace (Z.of_nat (S (S (S (S k))))) with (4 + Z.of_nat k) by lia.
        rewrite Z.pow_add_r by lia.
        assert (0 < 10 ^ Z.of_nat k) by (apply Z.pow_pos_nonneg; lia).
        lia. }
      rewrite (alpha_short num den Hin) in HA by lia.
      injection HA as <-. reflexivity.
  - exists 255. split; [|split; [lia|reflexivity]].
    apply Hres. reflexivity.
Qed.

(** C7, at [rgba(255,0,0,0.5)]: alpha 128 (hexadecimal 80), red FF,
    green 00, blue 00. *)
Lemma C7_rgba_argb_bytes_witness :
  toComposeColor (JString "rgba(255,0,0,0.5)") = Some "Color(0x80FF0000)".
Proof.
  destruct (C7_rgba_argb_bytes
              (mkParts true "" "255" "" "" "0" "" "" "0" ""
                 (Some ("", "0.5", ""))) 5 10)
    as (A & HA & _ & _ & Hexact).
  - reflexivity.
  - vm_compute. discriminate.
  - vm_compute. discriminate.
  - vm_compute. discriminate.
  - intros w7 a w8 [= <- <- <-]. split; [|lia].
    exists "0", "5". repeat split; try discriminate. now right.
  - rewrite (Hexact ltac:(lia)) in HA. exact HA.
Defined.

(** ** Names *)

Lemma join_empty_app a b : join "" (a ++ b) = join "" a +:+ join "" b.
Proof.
  induction a as [|x a IH]; [reflexivity|].
  assert (Hcons : forall y l, join "" (y :: l) = y +:+ join "" l).
  { intros y [|z l]; [now rewrite append_nil_r|reflexivity]. }
  simpl app. rewrite !Hcons, IH. now rewrite append_assoc.
Qed.


Lemma sliceTo_sliceFrom n s : sliceTo n s +:+ sliceFrom n s = s.
Proof.
  revert s. induction n as [|n IH]; intros [|c s]; try reflexivity.
  simpl. rewrite append_cons. now rewrite IH.
Qed.

Lemma endsWith_inv s p : endsWith s p = true -> exists a, s = a +:+ p.
Proof.
  unfold endsWith. intros H. apply andb_true_iff in H as [_ H].
  apply String.eqb_eq in H.
  set (n := (String.length s - String.length p)%nat) in *. clearbody n.
  exists (sliceTo n s). subst p. symmetry. apply sliceTo_sliceFrom.
Qed.

(** *** The first script: the underscore *)

Lemma replaceTempSuffix_underscore r :
  exists r', replaceTempSuffix (String "_" r) = String "_" r'.
Proof.
  unfold replaceTempSuffix. destruct (endsWith (String "_" r) "-temp") eqn:E.
  - unfold endsWith in E. apply andb_true_iff in E as [Hlen E].
    apply Nat.leb_le in Hlen. simpl in Hlen.
    destruct (Nat.eq_dec (String.length r) 4%nat) as [H4|H4].
    + simpl String.length in E. rewrite H4 in E. discriminate E.
    + simpl String.length.
      replace (S (String.length r) - 5)%nat
        with (S (String.length r - 5)) by lia.
      simpl sliceTo. rewrite append_cons. eauto.
  - eauto.
Qed.

Lemma camelize_underscore r :
  exists r', camelize false (String "_" r) = String "_" r'.
Proof. destruct r as [|d r]; simpl; eauto. Qed.

Lemma V1_primitivePart_underscore index part :
  startsWithDigit part = true ->
  exists rest, V1.primitivePart index part = "_" +:+ rest.
Proof.
  intros Hd. unfold V1.primitivePart. rewrite Hd.
  change ("_" +:+ part) with (String "_" part).
  destruct (replaceTempSuffix_underscore part) as [r1 ->].
  destruct (camelize_underscore r1) as [r2 ->].
  destruct (index =? 0)%nat; exists r2; reflexivity.
Qed.

Lemma V1_semanticPart_underscore index part :
  startsWithDigit part = true ->
  exists rest, V1.semanticPart index part = "_" +:+ rest.
Proof.
  intros Hd. unfold V1.semanticPart. rewrite Hd.
  change ("_" +:+ part) with (String "_" part).
  destruct (camelize_underscore part) as [r2 ->].
  destruct (index =? 0)%nat; exists r2; reflexivity.
Qed.


(** *** The first script: the underscore and what follows it *)














(** *** The later scripts: numbers as they are *)

Lemma splitAcc_no_sep sep cur s :
  allS (fun c => negb (Ascii.eqb c sep)) s = true ->
  splitAcc sep cur s = [cur +:+ s].
Proof.
  revert cur. induction s as [|c s IH]; simpl; intros cur H.
  - now rewrite append_nil_r.
  - apply andb_true_iff in H as [Hc Hs]. apply negb_true_iff in Hc.
    rewrite Hc, IH by assumption. now rewrite append_assoc.
Qed.

Lemma split_digits s : allS isDigit s = true -> split "-" s = [s].
Proof.
  intros H. unfold split. rewrite splitAcc_no_sep; [reflexivity|].
  eapply allS_impl; [|exact H].
  intros c. each_char c; congruence.
Qed.

Lemma replaceHiEnd_digits s : allS isDigit s = true -> replaceHiEnd s = s.
Proof.
  intros H. unfold replaceHiEnd. destruct (endsWith s "Hi") eqn:E; [|reflexivity].
  apply endsWith_inv in E as [a ->].
  rewrite allS_append in H. apply andb_true_iff in H as [_ H]. discriminate H.
Qed.

Lemma replaceHiUpper_digits s :
  allS isDigit s = true -> replaceHiUpper 0 s = s.
Proof.
  induction s as [|c s IH]; [reflexivity|]. simpl allS. intros H.
  apply andb_true_iff in H as [Hc Hs].
  assert (HcH : Ascii.eqb c "H" = false).
  { revert Hc. each_char c; congruence. }
  simpl. rewrite HcH. simpl.
  rewrite (IH Hs). now destruct s as [|i [|u s]].
Qed.

Lemma splitAcc_app_sep sep s t : forall cur,
  splitAcc sep cur (s +:+ String sep t)
  = splitAcc sep cur s ++ splitAcc sep "" t.
Proof.
  induction s as [|c s IH]; intros cur.
  - rewrite append_nil_l. simpl. now rewrite Ascii.eqb_refl.
  - rewrite append_cons. simpl. destruct (Ascii.eqb c sep).
    + now rewrite IH.
    + apply IH.
Qed.

Lemma replaceHiEnd_Hi a : replaceHiEnd (a +:+ "Hi") = a +:+ "High".
Proof.
  unfold replaceHiEnd. rewrite endsWith_append, length_append.
  replace (String.length a + String.length "Hi" - 2)%nat
    with (String.length a) by (simpl; lia).
  now rewrite sliceTo_append.
Qed.

Lemma replaceHiUpper_step c i u rest :
  replaceHiUpper 0 (String c (String i (String u rest)))
  = if Ascii.eqb c "H" && Ascii.eqb i "i" && isUpperAZ u
    then "High" +:+ String u (replaceHiUpper 0 rest)
    else String c (replaceHiUpper 0 (String i (String u rest))).
Proof. reflexivity. Qed.



















Lemma toPascalCase_digits part :
  allDigits part = true ->
  V3.toPascalCase part = part
  /\ V4.toPascalCasePrimitive part = part
  /\ V4.toPascalCaseSemantic part = part.
Proof.
  intros H. pose proof H as Hd. unfold allDigits in Hd.
  apply andb_true_iff in Hd as [_ Hd].
  unfold V3.toPascalCase, V4.toPascalCasePrimitive, V4.toPascalCaseSemantic.
  rewrite (split_digits _ Hd). simpl map.
  unfold V3.pascalPart, V4.primitivePart, V4.semanticPart. rewrite H.
  simpl join.
  rewrite (replaceHiEnd_digits _ Hd), (replaceHiUpper_digits _ Hd).
  repeat split.
Qed.






(** ** The registry *)

Lemma has_keys name reg : has name reg = inb name (map fst reg).
Proof.
  induction reg as [|[n c] reg IH]; [reflexivity|].
  simpl. now rewrite IH.
Qed.

Lemma assign_keys name mode v reg :
  map fst (assign name mode v reg) = map fst reg.
Proof.
  induction reg as [|[n c] reg IH]; [reflexivity|]. simpl.
  destruct (String.eqb n name); simpl; [reflexivity|now rewrite IH].
Qed.

Lemma assign_length name mode v reg :
  length (assign name mode v reg) = length reg.
Proof.
  rewrite <- (length_map fst (assign _ _ _ _)), assign_keys.
  apply length_map.
Qed.

Lemma assign_orders name mode v reg :
  map (fun e => order (snd e)) (assign name mode v reg)
  = map (fun e => order (snd e)) reg.
Proof.
  induction reg as [|[n c] reg IH]; [reflexivity|]. simpl.
  destruct (String.eqb n name); simpl; [now destruct mode|now rewrite IH].
Qed.

Lemma assign_filled name mode v reg :
  v <> "" -> Forall (fun e => filled (snd e)) reg ->
  Forall (fun e => filled (snd e)) (assign name mode v reg).
Proof.
  intros Hv. induction 1 as [|[n c] reg [Hl Hd] Hreg IH]; [constructor|].
  simpl. destruct (String.eqb n name).
  - constructor; [|assumption].
    destruct mode; split; simpl; try assumption; congruence.
  - constructor; [split|]; assumption.
Qed.

Lemma get_assign name mode v reg :
  get name (assign name mode v reg) = setMode mode v <$> get name reg.
Proof.
  induction reg as [|[n c] reg IH]; [reflexivity|]. simpl.
  destruct (String.eqb n name) eqn:E; simpl; rewrite E; [reflexivity|exact IH].
Qed.

Lemma get_assign_other name name' mode v reg :
  name' <> name -> get name' (assign name mode v reg) = get name' reg.
Proof.
  intros Hne. induction reg as [|[n c] reg IH]; [reflexivity|]. simpl.
  destruct (String.eqb n name) eqn:E; simpl.
  - apply String.eqb_eq in E. subst n.
    destruct (String.eqb name name') eqn:E'; [|reflexivity].
    apply String.eqb_eq in E'. congruence.
  - destruct (String.eqb n name'); [reflexivity|exact IH].
Qed.

Lemma get_has name reg : has name reg = true -> is_Some (get name reg).
Proof.
  induction reg as [|[n c] reg IH]; simpl; [discriminate|].
  destruct (String.eqb n name); simpl; eauto.
Qed.

Lemma get_app_fresh name c reg :
  has name reg = false -> get name (reg ++ [(name, c)]) = Some c.
Proof.
  induction reg as [|[n c'] reg IH]; simpl.
  - now rewrite String.eqb_refl.
  - destruct (String.eqb n name); simpl; [discriminate|exact IH].
Qed.

Lemma get_app_other name name' c reg :
  name' <> name -> get name' (reg ++ [(name, c)]) = get name' reg.
Proof.
  intros Hne. induction reg as [|[n c'] reg IH]; simpl.
  - destruct (String.eqb name name') eqn:E; [|reflexivity].
    apply String.eqb_eq in E. congruence.
  - destruct (String.eqb n name'); [reflexivity|exact IH].
Qed.

Lemma get_In name c reg : get name reg = Some c -> In (name, c) reg.
Proof.
  induction reg as [|[n c'] reg IH]; simpl; [discriminate|].
  destruct (String.eqb n name) eqn:E.
  - apply String.eqb_eq in E. intros [= ->]. left. now subst.
  - intros H. right. now apply IH.
Qed.

(** *** [store] *)

Lemma store_keys name mode v reg :
  map fst (store name mode v reg) = insertNew (map fst reg) name.
Proof.
  unfold store, insertNew. rewrite assign_keys, has_keys.
  destruct (inb name (map fst reg)); [reflexivity|].
  now rewrite map_app.
Qed.

Lemma store_ordered name mode v reg :
  ordered reg -> ordered (store name mode v reg).
Proof.
  unfold ordered, store. intros H. rewrite assign_orders, assign_length.
  destruct (has name reg); [assumption|].
  rewrite map_app, length_app, H. simpl.
  rewrite Nat.add_1_r, seq_S. reflexivity.
Qed.

Lemma store_filled name mode v reg :
  v <> "" -> Forall (fun e => filled (snd e)) reg ->
  Forall (fun e => filled (snd e)) (store name mode v reg).
Proof.
  intros Hv H. unfold store. apply assign_filled; [assumption|].
  destruct (has name reg); [assumption|].
  apply Forall_app. split; [assumption|].
  constructor; [|constructor]. split; discriminate.
Qed.

(** after [store], the entry of the name holds the value for the mode *)
Lemma store_get name mode v reg :
  exists c, get name (store name mode v reg) = Some c
            /\ getMode mode c = Some v.
Proof.
  unfold store. rewrite get_assign.
  destruct (has name reg) eqn:E.
  - destruct (get_has _ _ E) as [c ->]. exists (setMode mode v c).
    split; [reflexivity|now destruct mode].
  - rewrite (get_app_fresh _ _ _ E). eexists. split; [reflexivity|].
    now destruct mode.
Qed.

Lemma store_get_other name name' mode v reg :
  name' <> name -> get name' (store name mode v reg) = get name' reg.
Proof.
  intros Hne. unfold store. rewrite get_assign_other by assumption.
  destruct (has name reg); [reflexivity|]. now apply get_app_other.
Qed.

(** *** First places *)

Lemma filter_filter_ext {A} (p q r : A -> bool) l :
  (forall y, r y = q y && p y) ->
  List.filter p (List.filter q l) = List.filter r l.
Proof.
  intros H. induction l as [|x l IH]; [reflexivity|]. simpl.
  rewrite H. destruct (q x); simpl; [|exact IH].
  destruct (p x); now rewrite IH.
Qed.

Lemma inb_app name keys x :
  inb name (keys ++ [x]) = inb name keys || String.eqb x name.
Proof.
  unfold inb. rewrite existsb_app. simpl. now rewrite orb_false_r.
Qed.

Lemma inb_false_neq x y keys :
  inb x keys = true -> inb y keys = false -> String.eqb y x = false.
Proof.
  intros Hx Hy. destruct (String.eqb y x) eqn:E; [|reflexivity].
  apply String.eqb_eq in E. congruence.
Qed.

Lemma fold_insertNew l keys :
  fold_left insertNew l keys
  = keys ++ List.filter (fun y => negb (inb y keys)) (firstSeen l).
Proof.
  revert keys. induction l as [|x l IH]; intros keys.
  - simpl. now rewrite app_nil_r.
  - simpl fold_left. rewrite IH. unfold insertNew. simpl firstSeen.
    simpl List.filter. destruct (inb x keys) eqn:E; simpl negb; cbv iota.
    + f_equal. symmetry. apply filter_filter_ext. intros y.
      destruct (inb y keys) eqn:Ey; simpl; [now rewrite andb_false_r|].
      now rewrite (inb_false_neq _ _ _ E Ey).
    + rewrite <- app_assoc. simpl. do 2 f_equal. symmetry.
      apply filter_filter_ext. intros y. rewrite inb_app.
      rewrite (String.eqb_sym x y).
      destruct (String.eqb y x), (inb y keys); reflexivity.
Qed.

Lemma firstSeen_fold l : fold_left insertNew l [] = firstSeen l.
Proof.
  rewrite fold_insertNew. simpl.
  induction (firstSeen l) as [|x r IH]; [reflexivity|].
  simpl. now rewrite IH.
Qed.

(** *** The sort by order *)

Lemma insertBy_last {A} (compare : A -> A -> Z) x l :
  Forall (fun y => 0 <= compare x y) l -> insertBy compare x l = l ++ [x].
Proof.
  induction 1 as [|y l Hy Hl IH]; [reflexivity|]. simpl.
  destruct (compare x y <? 0) eqn:E; [apply Z.ltb_lt in E; lia|].
  now rewrite IH.
Qed.

Lemma sort_increasing l : forall a acc,
  map (fun e : string * Colors => order (snd e)) l = seq a (length l) ->
  Forall (fun y => (order (snd y) < a)%nat) acc ->
  fold_left (fun acc x => insertBy V4.compareOrder x acc) l acc = acc ++ l.
Proof.
  induction l as [|x l IH]; intros a acc Hl Hacc.
  - simpl. now rewrite app_nil_r.
  - simpl in Hl. injection Hl as Hx Hl. simpl fold_left.
    rewrite insertBy_last.
    + rewrite (IH (S a)); [now rewrite <- app_assoc|assumption|].
      apply Forall_app. split.
      * eapply Forall_impl; [exact Hacc|]. simpl. lia.
      * constructor; [lia|constructor].
    + eapply Forall_impl; [exact Hacc|]. unfold V4.compareOrder. simpl. lia.
Qed.

(** on a registry whose orders are the places, the sort changes nothing *)
Lemma sortBy_ordered reg : ordered reg -> sortBy V4.compareOrder reg = reg.
Proof.
  intros H. unfold sortBy. now rewrite (sort_increasing reg 0%nat []).
Qed.

(** ** The passes of the fourth script *)

Lemma toComposeColor_nonempty v c : toComposeColor v = Some c -> c <> "".
Proof.
  unfold toComposeColor. destruct v as [|s|b]; try discriminate.
  destruct (negb (truthy (JString s))); [discriminate|].
  destruct (startsWith s "{" && endsWith s "}"); [discriminate|].
  destruct (rgbaMatch s) as [[[[r g] b] a]|].
  { intros [= <-]. discriminate. }
  destruct (hexMatch s); [intros [= <-]; discriminate|].
  destruct (hexAlphaMatch s); [intros [= <-]; discriminate|discriminate].
Qed.

Lemma refOrColor_nonempty r c : c <> "" -> V4.refOrColor r c <> "".
Proof.
  intros Hc. unfold V4.refOrColor, orDefault. destruct r as [s|]; [|assumption].
  destruct (String.eqb s "") eqn:E; [assumption|].
  now apply String.eqb_neq in E.
Qed.

Lemma V4_collectToken_maps mode st t :
  V4.primitivePathMap (V4.collectToken mode st t) = V4.primitivePathMap st
  /\ V4.brandbookPathMap (V4.collectToken mode st t) = V4.brandbookPathMap st.
Proof.
  unfold V4.collectToken. now destruct (toComposeColor (tokenValue t)).
Qed.

Lemma V4_fold_maps mode L st :
  V4.primitivePathMap (fold_left (V4.collectToken mode) L st)
  = V4.primitivePathMap st
  /\ V4.brandbookPathMap (fold_left (V4.collectToken mode) L st)
     = V4.brandbookPathMap st.
Proof.
  revert st. induction L as [|t L IH]; intros st; [now split|].
  simpl. destruct (IH (V4.collectToken mode st t)) as [-> ->].
  apply V4_collectToken_maps.
Qed.

Lemma V4_fold_keys mode L st :
  map fst (V4.semanticColorsMap (fold_left (V4.collectToken mode) L st))
  = fold_left insertNew (map V4.semanticName (List.filter hasColor L))
      (map fst (V4.semanticColorsMap st)).
Proof.
  revert st. induction L as [|t L IH]; intros st; [reflexivity|].
  simpl fold_left. rewrite IH. simpl List.filter.
  unfold hasColor at 2, V4.collectToken.
  destruct (toComposeColor (tokenValue t)) as [c|]; [|reflexivity].
  simpl. now rewrite store_keys.
Qed.

Lemma V4_fold_ordered mode L st :
  ordered (V4.semanticColorsMap st) ->
  ordered (V4.semanticColorsMap (fold_left (V4.collectToken mode) L st)).
Proof.
  revert st. induction L as [|t L IH]; intros st H; [assumption|].
  simpl. apply IH. unfold V4.collectToken.
  destruct (toComposeColor (tokenValue t)); [|assumption].
  simpl. now apply store_ordered.
Qed.

Lemma V4_fold_filled mode L st :
  Forall (fun e => filled (snd e)) (V4.semanticColorsMap st) ->
  Forall (fun e => filled (snd e))
    (V4.semanticColorsMap (fold_left (V4.collectToken mode) L st)).
Proof.
  revert st. induction L as [|t L IH]; intros st H; [assumption|].
  simpl. apply IH. unfold V4.collectToken.
  destruct (toComposeColor (tokenValue t)) as [c|] eqn:E; [|assumption].
  simpl. apply store_filled; [|assumption].
  apply refOrColor_nonempty. now apply toComposeColor_nonempty in E.
Qed.

Lemma V4_lookups_registry i : V4.semanticColorsMap (V4.lookups i) = [].
Proof. reflexivity. Qed.

Lemma V4_collected_ordered i :
  ordered (V4.semanticColorsMap (V4.collected i)).
Proof.
  unfold V4.collected, V4.semanticCollect.
  do 2 apply V4_fold_ordered. reflexivity.
Qed.

Lemma V4_collected_filled i :
  Forall (fun e => filled (snd e)) (V4.semanticColorsMap (V4.collected i)).
Proof.
  unfold V4.collected, V4.semanticCollect.
  do 2 apply V4_fold_filled. constructor.
Qed.

Lemma V4_entries_names reg :
  ordered reg -> map (fun e => fst (fst e)) (V4.entries reg) = map fst reg.
Proof.
  intros H. unfold V4.entries. rewrite (sortBy_ordered _ H), map_map.
  apply map_ext. now intros [n c].
Qed.

(** the text of the semantics document [buildTokens] writes *)
Lemma V4_semantics_text localeCompare i :
  snd (V4.buildTokens localeCompare i)
  = "package com.accor.designsystem.compose" +:+ nl +:+ nl
    +:+ "import androidx.compose.runtime.Composable" +:+ nl
    +:+ "import com.accor.designsystem.compose.AccorColor.getColor"
    +:+ nl +:+ nl
    +:+ "object AccorColorSemantics {" +:+ nl +:+ nl
    +:+ join nl
          (map (fun '(name, l, d) =>
                  "    val " +:+ name +:+ nl
                  +:+ "        @Composable" +:+ nl
                  +:+ "        get() = getColor(light = " +:+ l
                  +:+ ", dark = " +:+ d +:+ ")")
             (V4.entries (V4.semanticColorsMap (V4.collected i))))
    +:+ nl +:+ "}" +:+ nl.
Proof. reflexivity. Qed.

Lemma V4_names_first_seen i :
  map (fun e => fst (fst e))
    (V4.entries (V4.semanticColorsMap (V4.collected i)))
  = firstSeen
      (map V4.semanticName
         (storedTokens (V4.lightTokens i) ++ storedTokens (V4.darkTokens i))).
Proof.
  rewrite (V4_entries_names _ (V4_collected_ordered i)).
  unfold V4.collected, V4.semanticCollect.
  rewrite !V4_fold_keys, V4_lookups_registry. simpl map at 3.
  rewrite <- fold_left_app, <- map_app, firstSeen_fold.
  reflexivity.
Qed.

(** C6. The semantics document [buildTokens] writes is its heading, the
    accessors one after the other, and its closing brace; the accessors
    are those of the names of the tokens stored by the light pass
    followed by those stored by the dark pass, each name once, at its
    first place: the order of first insertion, whichever pass inserted
    the name. *)
Theorem C6_first_seen_order (localeCompare : string -> string -> Z)
  (i : V4.Inputs) :
  exists values : list (string * string),
    snd (V4.buildTokens localeCompare i)
    = "package com.accor.designsystem.compose" +:+ nl +:+ nl
      +:+ "import androidx.compose.runtime.Composable" +:+ nl
      +:+ "import com.accor.designsystem.compose.AccorColor.getColor"
      +:+ nl +:+ nl
      +:+ "object AccorColorSemantics {" +:+ nl +:+ nl
      +:+ join nl
            (zip_with
               (fun name v =>
                  "    val " +:+ name +:+ nl
                  +:+ "        @Composable" +:+ nl
                  +:+ "        get() = getColor(light = " +:+ fst v
                  +:+ ", dark = " +:+ snd v +:+ ")")
               (firstSeen
                  (map V4.semanticName
                     (storedTokens (V4.lightTokens i)
                      ++ storedTokens (V4.darkTokens i))))
               values)
      +:+ nl +:+ "}" +:+ nl
    /\ length values
       = length
           (firstSeen
              (map V4.semanticName
                 (storedTokens (V4.lightTokens i)
                  ++ storedTokens (V4.darkTokens i))))
    /\ map (fun e => (fst (fst e), (snd (fst e), snd e)))
         (V4.entries (V4.semanticColorsMap (V4.collected i)))
       = zip
           (firstSeen
              (map V4.semanticName
                 (storedTokens (V4.lightTokens i)
                  ++ storedTokens (V4.darkTokens i))))
           values.
Proof.
  rewrite V4_semantics_text, <- (V4_names_first_seen i).
  generalize (V4.entries (V4.semanticColorsMap (V4.collected i))).
  intros es. exists (map (fun e => (snd (fst e), snd e)) es).
  repeat split.
  - assert (E : forall (f : string -> string * string -> string),
               map (fun '(name, l, d) => f name (l, d)) es
               = zip_with f (map (fun e => fst (fst e)) es)
                   (map (fun e => (snd (fst e), snd e)) es)).
    { intros f. induction es as [|[[n l] d] es IH]; [reflexivity|].
      simpl. now rewrite IH. }
    rewrite <- E. reflexivity.
  - now rewrite !length_map.
  - induction es as [|[[n l] d] es IH]; [reflexivity|].
    simpl. now rewrite IH.
Qed.

(** *** One entry for each name *)

Lemma inb_elem_of name keys : inb name keys = true <-> name ∈ keys.
Proof.
  unfold inb. rewrite existsb_exists, list_elem_of_In. split.
  - intros (n & Hn & E). apply String.eqb_eq in E. now subst.
  - intros H. exists name. split; [assumption|apply String.eqb_refl].
Qed.

Lemma insertNew_NoDup keys name : NoDup keys -> NoDup (insertNew keys name).
Proof.
  intros H. unfold insertNew. destruct (inb name keys) eqn:E; [assumption|].
  apply NoDup_app. split; [assumption|]. split; [|apply NoDup_singleton].
  intros x Hx Hin. apply list_elem_of_singleton in Hin. subst x.
  apply inb_elem_of in Hx. congruence.
Qed.

Lemma fold_insertNew_NoDup l keys :
  NoDup keys -> NoDup (fold_left insertNew l keys).
Proof.
  revert keys. induction l as [|x l IH]; intros keys H; [assumption|].
  simpl. apply IH. now apply insertNew_NoDup.
Qed.

Lemma V4_collected_NoDup i :
  NoDup (map fst (V4.semanticColorsMap (V4.collected i))).
Proof.
  unfold V4.collected, V4.semanticCollect. rewrite !V4_fold_keys.
  do 2 apply fold_insertNew_NoDup. rewrite V4_lookups_registry. constructor.
Qed.

Lemma under_absent name reg : name ∉ map fst reg -> under name reg = [].
Proof.
  induction reg as [|[n c] reg IH]; [reflexivity|]. simpl. intros H.
  apply not_elem_of_cons in H as [Hne H].
  destruct (String.eqb n name) eqn:E; [|now apply IH].
  apply String.eqb_eq in E. congruence.
Qed.

Lemma under_get name c reg :
  NoDup (map fst reg) -> get name reg = Some c -> under name reg = [(name, c)].
Proof.
  induction reg as [|[n c'] reg IH]; simpl; [discriminate|]. intros Hnd.
  apply NoDup_cons in Hnd as [Hn Hnd].
  destruct (String.eqb n name) eqn:E.
  - apply String.eqb_eq in E. subst n. intros [= ->].
    now rewrite under_absent.
  - now apply IH.
Qed.

Lemma filter_entries name reg :
  List.filter (fun e => String.eqb (fst (fst e)) name)
    (map (fun '(n, c) => (n, V4.lightOf c, V4.darkOf c)) reg)
  = map (fun '(n, c) => (n, V4.lightOf c, V4.darkOf c)) (under name reg).
Proof.
  induction reg as [|[n c] reg IH]; [reflexivity|]. simpl.
  destruct (String.eqb n name); simpl; now rewrite IH.
Qed.

Lemma accessors_get i name c :
  get name (V4.semanticColorsMap (V4.collected i)) = Some c ->
  accessors name i = [(name, V4.lightOf c, V4.darkOf c)].
Proof.
  intros H. unfold accessors, V4.entries.
  rewrite (sortBy_ordered _ (V4_collected_ordered i)), filter_entries.
  now rewrite (under_get _ _ _ (V4_collected_NoDup i) H).
Qed.

Lemma get_filled i name c :
  get name (V4.semanticColorsMap (V4.collected i)) = Some c -> filled c.
Proof.
  intros H. apply get_In in H.
  pose proof (V4_collected_filled i) as Hf.
  rewrite Forall_forall in Hf. apply list_elem_of_In in H. exact (Hf _ H).
Qed.

(** *** Entries in the text of the document *)

Lemma join_In sep x l :
  In x l -> exists a b, join sep l = a +:+ x +:+ b.
Proof.
  induction l as [|y l IH]; [intros []|].
  intros [->|H].
  - destruct l as [|z l].
    + exists "", "". simpl. now rewrite append_nil_r.
    + exists "", (sep +:+ join sep (z :: l)). reflexivity.
  - destruct (IH H) as (a & b & Hab). destruct l as [|z l]; [destruct H|].
    exists (y +:+ sep +:+ a), b. change (join sep (y :: z :: l))
      with (y +:+ sep +:+ join sep (z :: l)).
    rewrite Hab. now rewrite !append_assoc.
Qed.

Lemma includes_join sep x l : In x l -> includes (join sep l) x = true.
Proof.
  intros H. destruct (join_In sep x l H) as (a & b & ->).
  apply includes_append.
Qed.

Lemma includes_trans s t u :
  includes s t = true -> includes t u = true -> includes s u = true.
Proof.
  intros Hst Htu.
  apply includes_inv in Hst as (a & b & ->).
  apply includes_inv in Htu as (c & d & ->).
  rewrite !append_assoc. rewrite <- (append_assoc a c).
  apply includes_append.
Qed.

Lemma V4_document_includes pkg obj reg e :
  In e (V4.entries reg) ->
  includes (V4.generateMergedSemanticColors pkg obj reg) (V4.renderEntry e)
  = true.
Proof.
  intros H. unfold V4.generateMergedSemanticColors.
  eapply includes_trans.
  - apply includes_join. do 7 right. left. reflexivity.
  - apply includes_join. now apply in_map.
Qed.

Lemma V2_document_includes pkg obj reg e :
  In e (V2.entries reg) ->
  includes (V2.generateMergedSemanticColors pkg obj reg) (V2.renderEntry e)
  = true.
Proof.
  intros H. unfold V2.generateMergedSemanticColors.
  eapply includes_trans.
  - apply includes_join. do 6 right. left. reflexivity.
  - apply includes_join. now apply in_map.
Qed.

(** *** The registry of the second script *)

Lemma V2_assign_filled name mode v reg :
  v <> "" -> Forall (fun e => V2_filled (snd e)) reg ->
  Forall (fun e => V2_filled (snd e)) (V2.assign name mode v reg).
Proof.
  intros Hv. induction 1 as [|[n c] reg [Hl Hd] Hreg IH]; [constructor|].
  simpl. destruct (String.eqb n name).
  - constructor; [|assumption].
    destruct mode; split; simpl; try assumption; congruence.
  - constructor; [split|]; assumption.
Qed.

Lemma V2_fold_filled mode L reg :
  Forall (fun e => V2_filled (snd e)) reg ->
  Forall (fun e => V2_filled (snd e)) (fold_left (V2.collectToken mode) L reg).
Proof.
  revert reg. induction L as [|t L IH]; intros reg H; [assumption|].
  simpl. apply IH. unfold V2.collectToken.
  destruct (toComposeColor (tokenValue t)) as [c|] eqn:E; [|assumption].
  unfold V2.store. apply V2_assign_filled.
  - now apply toComposeColor_nonempty in E.
  - destruct (V2.has _ reg); [assumption|].
    apply Forall_app. split; [assumption|].
    constructor; [|constructor]. split; discriminate.
Qed.

Lemma V2_built_filled L D name c :
  In (name, c) (V2.buildRegistry L D) -> V2_filled c.
Proof.
  intros H. assert (Hf : Forall (fun e => V2_filled (snd e))
                           (V2.buildRegistry L D)).
  { unfold V2.buildRegistry, V2.semanticCollect.
    do 2 apply V2_fold_filled. constructor. }
  rewrite Forall_forall in Hf. apply list_elem_of_In in H. exact (Hf _ H).
Qed.

Lemma orDefault_some s d : s <> "" -> orDefault (Some s) d = s.
Proof.
  intros H. unfold orDefault. apply String.eqb_neq in H. now rewrite H.
Qed.

(** the text of an accessor is in the semantics document *)
Lemma V4_document_accessor pkg obj reg name l d :
  In (name, l, d) (V4.entries reg) ->
  includes (V4.generateMergedSemanticColors pkg obj reg)
    ("    val " +:+ name +:+ nl
     +:+ "        @Composable" +:+ nl
     +:+ "        get() = getColor(light = " +:+ l
     +:+ ", dark = " +:+ d +:+ ")") = true.
Proof. apply (V4_document_includes pkg obj reg (name, l, d)). Qed.

Lemma V2_document_accessor pkg obj reg name l d :
  In (name, l, d) (V2.entries reg) ->
  includes (V2.generateMergedSemanticColors pkg obj reg)
    ("    val " +:+ name +:+ nl
     +:+ "        @Composable" +:+ nl
     +:+ "        get() = getColor(light = " +:+ l
     +:+ ", dark = " +:+ d +:+ ")") = true.
Proof. apply (V2_document_includes pkg obj reg (name, l, d)). Qed.

(** C4. In the fourth script, a name of the merged registry that has a
    light value [l] and no dark value gets one accessor in the semantics
    document, and the dark value of the accessor is the light value:
    the document that [buildTokens] writes holds the text
    [val name], [@Composable], [get() = getColor(light = l, dark = l)].
    In the second script the entry of such a name has the light value
    as its dark value too, and the document holds the same text. *)
Theorem C4_dark_inherits_light :
  (forall localeCompare i name c l,
     get name (V4.semanticColorsMap (V4.collected i)) = Some c ->
     c_light c = Some l -> c_dark c = None ->
     accessors name i = [(name, l, l)]
     /\ includes (snd (V4.buildTokens localeCompare i))
          ("    val " +:+ name +:+ nl
           +:+ "        @Composable" +:+ nl
           +:+ "        get() = getColor(light = " +:+ l
           +:+ ", dark = " +:+ l +:+ ")") = true)
  /\ (forall lightTokens darkTokens name c l,
        In (name, c) (V2.buildRegistry lightTokens darkTokens) ->
        V2.c_light c = Some l -> V2.c_dark c = None ->
        In (name, l, l) (V2.entries (V2.buildRegistry lightTokens darkTokens))
        /\ forall packageName objectName,
             includes
               (V2.generateMergedSemanticColors packageName objectName
                  (V2.buildRegistry lightTokens darkTokens))
               ("    val " +:+ name +:+ nl
                +:+ "        @Composable" +:+ nl
                +:+ "        get() = getColor(light = " +:+ l
                +:+ ", dark = " +:+ l +:+ ")") = true).
Proof.
  split.
  - intros cmp i name c l Hget Hl Hd.
    assert (Hne : l <> "").
    { destruct (get_filled _ _ _ Hget) as [H _]. congruence. }
    assert (Hacc : accessors name i = [(name, l, l)]).
    { rewrite (accessors_get _ _ _ Hget). unfold V4.lightOf, V4.darkOf.
      rewrite Hl, Hd. change (orDefault None ?d) with d.
      now rewrite !orDefault_some. }
    split; [exact Hacc|].
    apply (V4_document_accessor "com.accor.designsystem.compose"
             "AccorColorSemantics").
    assert (Hin : In (name, l, l) (accessors name i))
      by (rewrite Hacc; now left).
    unfold accessors in Hin. now apply filter_In in Hin.
  - intros L D name c l Hin Hl Hd.
    assert (Hne : l <> "").
    { destruct (V2_built_filled _ _ _ _ Hin) as [H _]. congruence. }
    assert (He : In (name, l, l) (V2.entries (V2.buildRegistry L D))).
    { unfold V2.entries. apply in_map_iff. exists (name, c).
      split; [|assumption]. unfold V2.lightOf, V2.darkOf.
      rewrite Hl, Hd. change (orDefault None ?d) with d.
      now rewrite !orDefault_some. }
    split; [exact He|]. intros pkg obj. now apply V2_document_accessor.
Qed.

(** C4, on the trial inputs: [TextDefault] has a light value only. *)
Lemma C4_dark_inherits_light_witness :
  accessors "TextDefault" sampleInputs
  = [("TextDefault", "AccorColorPrimitives.Blue500",
      "AccorColorPrimitives.Blue500")]
  /\ includes (snd (V4.buildTokens (fun _ _ => 0) sampleInputs))
       ("    val TextDefault" +:+ nl
        +:+ "        @Composable" +:+ nl
        +:+ "        get() = getColor(light = AccorColorPrimitives.Blue500"
        +:+ ", dark = AccorColorPrimitives.Blue500)") = true.
Proof.
  refine (proj1 C4_dark_inherits_light (fun _ _ => 0) sampleInputs
            "TextDefault"
            (mkColors 0 (Some "AccorColorPrimitives.Blue500") None)
            "AccorColorPrimitives.Blue500" _ eq_refl eq_refl).
  vm_compute. reflexivity.
Defined.

(** C5. In the fourth script, a name of the merged registry that has a
    dark value [d] and no light value still gets its accessor in the
    semantics document, exactly one, and the light value of the accessor
    is [Color.Unspecified]: the document that [buildTokens] writes holds
    the text [val name], [@Composable],
    [get() = getColor(light = Color.Unspecified, dark = d)].  In the
    second script the entry of such a name has [Color.Unspecified] as
    its light value too, and the document holds the same text. *)
Theorem C5_light_unspecified :
  (forall localeCompare i name c d,
     get name (V4.semanticColorsMap (V4.collected i)) = Some c ->
     c_dark c = Some d -> c_light c = None ->
     accessors name i = [(name, "Color.Unspecified", d)]
     /\ includes (snd (V4.buildTokens localeCompare i))
          ("    val " +:+ name +:+ nl
           +:+ "        @Composable" +:+ nl
           +:+ "        get() = getColor(light = " +:+ "Color.Unspecified"
           +:+ ", dark = " +:+ d +:+ ")") = true)
  /\ (forall lightTokens darkTokens name c d,
        In (name, c) (V2.buildRegistry lightTokens darkTokens) ->
        V2.c_dark c = Some d -> V2.c_light c = None ->
        In (name, "Color.Unspecified", d)
          (V2.entries (V2.buildRegistry lightTokens darkTokens))
        /\ forall packageName objectName,
             includes
               (V2.generateMergedSemanticColors packageName objectName
                  (V2.buildRegistry lightTokens darkTokens))
               ("    val " +:+ name +:+ nl
                +:+ "        @Composable" +:+ nl
                +:+ "        get() = getColor(light = " +:+ "Color.Unspecified"
                +:+ ", dark = " +:+ d +:+ ")") = true).
Proof.
  split.
  - intros cmp i name c d Hget Hd Hl.
    assert (Hne : d <> "").
    { destruct (get_filled _ _ _ Hget) as [_ H]. congruence. }
    assert (Hacc : accessors name i = [(name, "Color.Unspecified", d)]).
    { rewrite (accessors_get _ _ _ Hget). unfold V4.lightOf, V4.darkOf.
      rewrite Hl, Hd. now rewrite orDefault_some. }
    split; [exact Hacc|].
    apply (V4_document_accessor "com.accor.designsystem.compose"
             "AccorColorSemantics").
    assert (Hin : In (name, "Color.Unspecified", d) (accessors name i))
      by (rewrite Hacc; now left).
    unfold accessors in Hin. now apply filter_In in Hin.
  - intros L D name c d Hin Hd Hl.
    assert (Hne : d <> "").
    { destruct (V2_built_filled _ _ _ _ Hin) as [_ H]. congruence. }
    assert (He : In (name, "Color.Unspecified", d)
                   (V2.entries (V2.buildRegistry L D))).
    { unfold V2.entries. apply in_map_iff. exists (name, c).
      split; [|assumption]. unfold V2.lightOf, V2.darkOf.
      rewrite Hl, Hd. now rewrite orDefault_some. }
    split; [exact He|]. intros pkg obj. now apply V2_document_accessor.
Qed.

(** C5, on the trial inputs: [Night] has a dark value only. *)
Lemma C5_light_unspecified_witness :
  accessors "Night" sampleInputs
  = [("Night", "Color.Unspecified", "Color(0xFF000000)")]
  /\ includes (snd (V4.buildTokens (fun _ _ => 0) sampleInputs))
       ("    val Night" +:+ nl
        +:+ "        @Composable" +:+ nl
        +:+ "        get() = getColor(light = Color.Unspecified"
        +:+ ", dark = Color(0xFF000000))") = true.
Proof.
  refine (proj1 C5_light_unspecified (fun _ _ => 0) sampleInputs
            "Night" (mkColors 4 None (Some "Color(0xFF000000)"))
            "Color(0xFF000000)" _ eq_refl eq_refl).
  vm_compute. reflexivity.
Defined.

(** ** Interaction states *)

Lemma toLowerCase_join sep l :
  toLowerCase (join sep l) = join (toLowerCase sep) (map toLowerCase l).
Proof.
  induction l as [|x l IH]; [reflexivity|].
  destruct l as [|y l]; [reflexivity|].
  change (join sep (x :: y :: l)) with (x +:+ sep +:+ join sep (y :: l)).
  unfold toLowerCase in *. rewrite !mapS_append, IH. reflexivity.
Qed.

Lemma indicatesInteraction_test t :
  indicatesInteraction t -> isInteractionState t = true.
Proof.
  intros (segment & before & word & after & Hin & Hword & Hlow).
  unfold isInteractionState. rewrite toLowerCase_join.
  assert (H : includes (join (toLowerCase ".") (map toLowerCase (path t))) word
              = true).
  { eapply includes_trans.
    - apply includes_join. apply in_map. exact Hin.
    - rewrite Hlow. apply includes_append. }
  destruct Hword as [-> | ->]; rewrite H; [reflexivity|apply orb_true_r].
Qed.

Lemma filter_skip {A} (p : A -> bool) l1 x l2 :
  p x = false -> List.filter p (l1 ++ x :: l2) = List.filter p (l1 ++ l2).
Proof.
  intros H. rewrite !List.filter_app. simpl. now rewrite H.
Qed.

Lemma filter_filter_skip {A} (p q : A -> bool) l1 x l2 :
  q x = false ->
  List.filter q (List.filter p (l1 ++ x :: l2))
  = List.filter q (List.filter p (l1 ++ l2)).
Proof.
  intros H. rewrite !List.filter_app. simpl.
  destruct (p x); simpl; [now rewrite H|reflexivity].
Qed.

Lemma hoverToken_indicates : indicatesInteraction hoverToken.
Proof.
  exists "text-hover", "text-", "hover", "". repeat split.
  - simpl. tauto.
  - now left.
Qed.

(** C9, as stated, fails in the first script: the path of the token
    [wel.sem.color.text-hover] holds [hover], and the format
    [compose/semantic] of that script, which has no merged registry and
    no test on the path, puts a line for the token in its document. *)
Lemma C9_counterexample :
  indicatesInteraction hoverToken
  /\ V1.semanticLine hoverToken = Some "    val textHover = Color(0xFF0047AB)"
  /\ includes (V1.composeSemantic None None [hoverToken]) "val textHover"
     = true.
Proof.
  split; [exact hoverToken_indicates|split; reflexivity].
Qed.

(** C9, amended.  In the second, third and fourth scripts, a token of
    which a path segment holds [hover] or [pressed], in any case, is
    skipped by [compose/semantic-collect]: the pass leaves the same
    registry as without the token, and the fourth script writes the same
    semantics document as without it. *)
Theorem C9_interaction_states_skipped (t : Token) :
  indicatesInteraction t ->
  (forall mode l1 l2 st,
     V4.semanticCollect mode (l1 ++ t :: l2) st
     = V4.semanticCollect mode (l1 ++ l2) st)
  /\ (forall localeCompare prims brands l1 l2 other,
        snd (V4.buildTokens localeCompare
               (V4.mkInputs prims brands (l1 ++ t :: l2) other))
        = snd (V4.buildTokens localeCompare
                 (V4.mkInputs prims brands (l1 ++ l2) other))
        /\ snd (V4.buildTokens localeCompare
                  (V4.mkInputs prims brands other (l1 ++ t :: l2)))
           = snd (V4.buildTokens localeCompare
                    (V4.mkInputs prims brands other (l1 ++ l2))))
  /\ (forall mode l1 l2 reg,
        V3.semanticCollect mode (l1 ++ t :: l2) reg
        = V3.semanticCollect mode (l1 ++ l2) reg)
  /\ (forall mode l1 l2 reg,
        V2.semanticCollect mode (l1 ++ t :: l2) reg
        = V2.semanticCollect mode (l1 ++ l2) reg).
Proof.
  intros H. apply indicatesInteraction_test in H.
  assert (H4 : V4.accepts t = false).
  { unfold V4.accepts. rewrite H. simpl. now rewrite andb_false_r. }
  assert (H23 : V3.accepts t = false /\ V2.accepts t = false).
  { unfold V3.accepts, V2.accepts. rewrite H. simpl.
    now rewrite andb_false_r. }
  destruct H23 as [H3 H2].
  repeat split.
  - intros mode l1 l2 st. unfold V4.semanticCollect.
    now rewrite filter_skip.
  - unfold V4.buildTokens, V4.collected, V4.semanticCollect. simpl.
    now rewrite (filter_filter_skip _ V4.accepts l1 t l2 H4).
  - unfold V4.buildTokens, V4.collected, V4.semanticCollect. simpl.
    now rewrite (filter_filter_skip _ V4.accepts l1 t l2 H4).
  - intros mode l1 l2 reg. unfold V3.semanticCollect.
    now rewrite filter_skip.
  - intros mode l1 l2 reg. unfold V2.semanticCollect.
    now rewrite filter_skip.
Qed.

(** C9, amended, at the token [wel.sem.color.text-hover] of the trial
    inputs. *)
Lemma C9_interaction_states_skipped_witness :
  V4.semanticCollect light [hoverToken] V4.cleared
  = V4.semanticCollect light [] V4.cleared.
Proof.
  refine (proj1 (C9_interaction_states_skipped hoverToken _) light [] []
            V4.cleared).
  exact hoverToken_indicates.
Defined.

(** ** References *)

Lemma braceRef_reference p :
  p <> "" -> allS (fun c => negb (isLineTerminator c)) p = true ->
  V4.braceRef ("{" +:+ p +:+ "}") = Some p.
Proof.
  intros Hne Hline. unfold V4.braceRef.
  change (expect "{" ("{" +:+ p +:+ "}")) with (Some (p +:+ "}")).
  cbv iota. rewrite length_append. simpl String.length.
  replace (String.length p + 1 - 1)%nat with (String.length p) by lia.
  rewrite sliceFrom_append, sliceTo_append, Hline.
  apply String.eqb_neq in Hne. now rewrite Hne.
Qed.

Lemma length_sliceFrom n s :
  String.length (sliceFrom n s) = (String.length s - n)%nat.
Proof.
  revert s. induction n as [|n IH]; intros [|c s]; simpl; try lia.
  apply IH.
Qed.

Lemma braceRef_inv s p :
  V4.braceRef s = Some p ->
  s = "{" +:+ p +:+ "}" /\ p <> ""
  /\ allS (fun c => negb (isLineTerminator c)) p = true.
Proof.
  unfold V4.braceRef. destruct (expect "{" s) as [r|] eqn:E; [|discriminate].
  apply expect_spec in E. subst s.
  set (n := (String.length r - 1)%nat).
  destruct (String.eqb (sliceFrom n r) "}") eqn:Eend; [|discriminate].
  destruct (String.eqb (sliceTo n r) "") eqn:Einner; [discriminate|].
  destruct (allS _ (sliceTo n r)) eqn:Eline; [|discriminate].
  simpl. intros [= <-]. apply String.eqb_eq in Eend.
  apply String.eqb_neq in Einner. repeat split; try assumption.
  change ("{" +:+ sliceTo n r +:+ "}") with (String "{" (sliceTo n r +:+ "}")).
  rewrite <- Eend. now rewrite sliceTo_sliceFrom.
Qed.

Lemma originalRef_reference t p : refersTo t p -> V4.originalRef t = Some p.
Proof.
  intros (Hv & Hne & Hline). unfold V4.originalRef. rewrite Hv.
  change (String.eqb ("{" +:+ p +:+ "}") "") with false. cbv iota.
  now apply braceRef_reference.
Qed.

Lemma originalRef_inv t p : V4.originalRef t = Some p -> refersTo t p.
Proof.
  unfold V4.originalRef, refersTo.
  destruct (originalValue t) as [|s|b]; try discriminate.
  destruct (String.eqb s ""); [discriminate|].
  intros H. apply braceRef_inv in H as (-> & Hne & Hline). now repeat split.
Qed.

(** *** The identifiers of the two lookups *)

Lemma collectPrimitive_ids L m :
  primitiveIds m -> primitiveIds (fold_left V4.collectPrimitive L m).
Proof.
  revert m. induction L as [|t L IH]; intros m H; [assumption|].
  simpl. apply IH. intros k v. unfold V4.collectPrimitive.
  destruct (decide (join "." (path t) = k)) as [<-|Hne].
  - rewrite lookup_insert_eq. intros [= <-]. eauto.
  - rewrite lookup_insert_ne by assumption. apply H.
Qed.

Lemma collectBrand_within prim L b :
  valuesWithin b prim -> valuesWithin (fold_left (V4.collectBrand prim) L b) prim.
Proof.
  revert b. induction L as [|t L IH]; intros b H; [assumption|].
  simpl. apply IH. unfold V4.collectBrand.
  destruct (V4.originalRef t) as [p|]; [|assumption].
  destruct (prim !! p) as [name|] eqn:E; [|assumption].
  intros k v. destruct (decide (join "." (path t) = k)) as [<-|Hne].
  - rewrite lookup_insert_eq. intros [= <-]. eauto.
  - rewrite lookup_insert_ne by assumption. apply H.
Qed.

Lemma lookups_ids i :
  primitiveIds (V4.primitivePathMap (V4.lookups i))
  /\ valuesWithin (V4.brandbookPathMap (V4.lookups i))
       (V4.primitivePathMap (V4.lookups i)).
Proof.
  unfold V4.lookups, V4.brandbookCollect, V4.primitivesCollect. simpl. split.
  - apply collectPrimitive_ids. intros k v H. now rewrite lookup_empty in H.
  - apply collectBrand_within. intros k v H. now rewrite lookup_empty in H.
Qed.

Lemma primitiveId_nonempty v :
  (exists name, v = "AccorColorPrimitives." +:+ name) -> v <> "".
Proof. intros [name ->]. discriminate. Qed.

Lemma V4_semanticCollect_snoc mode before t st :
  V4.accepts t = true ->
  V4.semanticCollect mode (before ++ [t]) st
  = V4.collectToken mode (V4.semanticCollect mode before st) t.
Proof.
  intros H. unfold V4.semanticCollect.
  rewrite List.filter_app, fold_left_app. simpl. now rewrite H.
Qed.

Lemma V4_semanticCollect_app mode l1 l2 st :
  V4.semanticCollect mode (l1 ++ l2) st
  = V4.semanticCollect mode l2 (V4.semanticCollect mode l1 st).
Proof.
  unfold V4.semanticCollect. now rewrite List.filter_app, fold_left_app.
Qed.

(** C1. In the fourth script, with the two lookups as the primitive and
    the brand builds leave them, when a pass reaches a semantic colour
    token that passes the filter and has a colour, the value it stores
    under the name of the token, for the mode of the pass, is: the
    identifier the primitive lookup has for the reference path of the
    token; or else the identifier the brand lookup has for that path,
    itself an identifier of the primitive lookup; or else, when neither
    lookup has the path or the original value is no reference, the
    colour of the token.  The pass then goes on with the tokens that
    follow. *)
Theorem C1_stored_reference (i : V4.Inputs) (mode : Mode) (st : V4.State)
  (before : list Token) (t : Token) (composeColor : string) :
  V4.primitivePathMap st = V4.primitivePathMap (V4.lookups i) ->
  V4.brandbookPathMap st = V4.brandbookPathMap (V4.lookups i) ->
  V4.accepts t = true ->
  toComposeColor (tokenValue t) = Some composeColor ->
  exists c stored,
    get (V4.semanticName t)
      (V4.semanticColorsMap (V4.semanticCollect mode (before ++ [t]) st))
    = Some c
    /\ getMode mode c = Some stored
    /\ (forall p id,
          refersTo t p ->
          V4.primitivePathMap (V4.lookups i) !! p = Some id ->
          stored = id)
    /\ (forall p id,
          refersTo t p ->
          V4.primitivePathMap (V4.lookups i) !! p = None ->
          V4.brandbookPathMap (V4.lookups i) !! p = Some id ->
          stored = id
          /\ exists q, V4.primitivePathMap (V4.lookups i) !! q = Some id)
    /\ (forall p,
          refersTo t p ->
          V4.primitivePathMap (V4.lookups i) !! p = None ->
          V4.brandbookPathMap (V4.lookups i) !! p = None ->
          stored = composeColor)
    /\ ((forall p, ~ refersTo t p) -> stored = composeColor)
    /\ (forall rest,
          V4.semanticCollect mode (before ++ t :: rest) st
          = V4.semanticCollect mode rest
              (V4.semanticCollect mode (before ++ [t]) st)).
Proof.
  intros Hprim Hbrand Hacc Hcolor.
  destruct (lookups_ids i) as [Hids Hwithin].
  assert (Hrest : forall rest,
            V4.semanticCollect mode (before ++ t :: rest) st
            = V4.semanticCollect mode rest
                (V4.semanticCollect mode (before ++ [t]) st)).
  { intros rest. rewrite <- V4_semanticCollect_app, <- app_assoc.
    reflexivity. }
  rewrite (V4_semanticCollect_snoc _ _ _ _ Hacc) in *.
  set (st1 := V4.semanticCollect mode before st) in *.
  assert (Hmaps : V4.primitivePathMap st1 = V4.primitivePathMap (V4.lookups i)
                  /\ V4.brandbookPathMap st1
                     = V4.brandbookPathMap (V4.lookups i)).
  { subst st1. unfold V4.semanticCollect.
    destruct (V4_fold_maps mode (List.filter V4.accepts before) st)
      as [-> ->]. now split. }
  destruct Hmaps as [Hp1 Hb1].
  revert Hrest. unfold V4.collectToken. rewrite Hcolor. intros Hrest.
  simpl V4.semanticColorsMap.
  destruct (store_get (V4.semanticName t) mode
              (V4.refOrColor (V4.getPrimitiveRef st1 t) composeColor)
              (V4.semanticColorsMap st1)) as (c & Hget & Hmode).
  exists c, (V4.refOrColor (V4.getPrimitiveRef st1 t) composeColor).
  split; [exact Hget|]. split; [exact Hmode|].
  match goal with
  | |- ?A /\ ?B /\ ?C /\ ?D /\ _ =>
      cut (A /\ B /\ C /\ D); [intros (? & ? & ? & ?); auto|]
  end.
  unfold V4.getPrimitiveRef. rewrite Hp1, Hb1.
  split; [|split; [|split]].
  - intros p id Href Hp. rewrite (originalRef_reference _ _ Href), Hp.
    apply orDefault_some. apply primitiveId_nonempty. eauto.
  - intros p id Href Hp Hb. split; [|now apply Hwithin in Hb].
    rewrite (originalRef_reference _ _ Href), Hp, Hb.
    apply orDefault_some. apply primitiveId_nonempty.
    destruct (Hwithin _ _ Hb) as [q Hq]. eauto.
  - intros p Href Hp Hb.
    now rewrite (originalRef_reference _ _ Href), Hp, Hb.
  - intros Hnone. destruct (V4.originalRef t) as [p|] eqn:E; [|reflexivity].
    apply originalRef_inv in E. now apply Hnone in E.
Qed.

(** C1, on the trial inputs: [brand-hi] refers to a brand path, which the
    brand lookup resolves to the primitive [Blue500]. *)
Lemma C1_stored_reference_witness :
  getMode light
    <$> get "BrandHigh"
          (V4.semanticColorsMap
             (V4.semanticCollect light [brandHiToken] (V4.lookups sampleInputs)))
  = Some (Some "AccorColorPrimitives.Blue500").
Proof.
  destruct (C1_stored_reference sampleInputs light (V4.lookups sampleInputs)
              [] brandHiToken "Color(0xFF0047AB)" eq_refl eq_refl eq_refl
              eq_refl)
    as (c & stored & Hget & Hmode & _ & Hbrand & _).
  change (V4.semanticName brandHiToken) with "BrandHigh" in Hget.
  change ([] ++ [brandHiToken]) with [brandHiToken] in Hget.
  rewrite Hget. change (Some (getMode light c) = Some (Some "AccorColorPrimitives.Blue500")).
  rewrite Hmode. do 2 f_equal.
  apply (Hbrand "wel.web.bSem.brand").
  - repeat split. discriminate.
  - vm_compute. reflexivity.
  - vm_compute. reflexivity.
Defined.

(** ** The primitives and the [leg] group *)

Lemma collectPrimitive_lookup L : forall m t,
  In t L ->
  exists t', In t' L /\ pathKey t' = pathKey t
             /\ fold_left V4.collectPrimitive L m !! pathKey t
                = Some (primitiveId t').
Proof.
  induction L as [|x L IH] using rev_ind; intros m t Hin; [destruct Hin|].
  rewrite fold_left_app. simpl. unfold V4.collectPrimitive at 1.
  fold (pathKey x). fold (primitiveId x).
  destruct (decide (pathKey x = pathKey t)) as [E|E].
  - exists x. split; [apply in_or_app; right; now left|].
    split; [exact E|]. rewrite E. apply lookup_insert_eq.
  - rewrite lookup_insert_ne by assumption.
    apply in_app_or in Hin as [Hin|[->|[]]]; [|congruence].
    destruct (IH m t Hin) as (t' & Hin' & Hkey & Hlook).
    exists t'. split; [apply in_or_app; now left|]. now split.
Qed.

Lemma V4_collected_primitives i :
  V4.primitivePathMap (V4.collected i)
  = fold_left V4.collectPrimitive (List.filter isColor (V4.primitiveTokens i)) ∅.
Proof.
  unfold V4.collected, V4.semanticCollect.
  destruct (V4_fold_maps dark
              (List.filter V4.accepts
                 (List.filter (hasPrefix3 "sem" "color") (V4.darkTokens i)))
              (fold_left (V4.collectToken light)
                 (List.filter V4.accepts
                    (List.filter (hasPrefix3 "sem" "color") (V4.lightTokens i)))
                 (V4.lookups i))) as [-> _].
  destruct (V4_fold_maps light
              (List.filter V4.accepts
                 (List.filter (hasPrefix3 "sem" "color") (V4.lightTokens i)))
              (V4.lookups i)) as [-> _].
  reflexivity.
Qed.

Lemma leg_not_emitted t : In "leg" (path t) -> V4.emitsPrimitive t = false.
Proof.
  intros H. unfold V4.emitsPrimitive.
  assert (E : existsb (fun part => String.eqb part "leg") (path t) = true).
  { apply existsb_exists. exists "leg". split; [assumption|reflexivity]. }
  rewrite E. apply andb_false_r.
Qed.

(** C10. In the fourth script the primitive lookup gets a key for every
    colour token of the primitive set, those of the [leg] group
    included, with the identifier of the last colour token of that key;
    the primitives document is written as if the tokens whose path has
    the segment [leg] were not there; and on the trial inputs an
    accessor of the semantics document names
    [AccorColorPrimitives.NavalBlue], the identifier of a [leg] token,
    which the primitives document does not define. *)
Theorem C10_leg_reference_undefined :
  (forall i t,
     In t (V4.primitiveTokens i) -> isColor t = true ->
     exists t',
       In t' (V4.primitiveTokens i) /\ isColor t' = true
       /\ pathKey t' = pathKey t
       /\ V4.primitivePathMap (V4.collected i) !! pathKey t
          = Some (primitiveId t'))
  /\ (forall localeCompare packageName objectName l1 t l2,
        In "leg" (path t) ->
        V4.composePrimitives localeCompare packageName objectName
          (l1 ++ t :: l2)
        = V4.composePrimitives localeCompare packageName objectName
            (l1 ++ l2))
  /\ (forall localeCompare,
        exists i name,
          In legToken (V4.primitiveTokens i)
          /\ In "leg" (path legToken)
          /\ primitiveId legToken = "AccorColorPrimitives.NavalBlue"
          /\ In (name, "AccorColorPrimitives.NavalBlue",
                 "AccorColorPrimitives.NavalBlue")
               (V4.entries (V4.semanticColorsMap (V4.collected i)))
          /\ includes (snd (V4.buildTokens localeCompare i))
               "AccorColorPrimitives.NavalBlue" = true
          /\ ~ In "NavalBlue"
                 (map fst (V4.primitiveItems (V4.primitiveTokens i)))
          /\ includes (fst (V4.buildTokens localeCompare i)) "NavalBlue"
             = false).
Proof.
  split; [|split].
  - intros i t Hin Hcolor. rewrite V4_collected_primitives.
    assert (Hin' : In t (List.filter isColor (V4.primitiveTokens i)))
      by (apply filter_In; now split).
    destruct (collectPrimitive_lookup _ ∅ t Hin') as (t' & Ht' & Hkey & Hlook).
    apply filter_In in Ht' as [Ht' Hc']. now exists t'.
  - intros cmp pkg obj l1 t l2 Hleg.
    unfold V4.composePrimitives, V4.primitiveItems.
    now rewrite (filter_skip _ l1 t l2 (leg_not_emitted t Hleg)).
  - intros cmp. exists sampleInputs, "Old".
    split; [right; now left|]. split; [simpl; tauto|].
    split; [reflexivity|]. split; [vm_compute; tauto|].
    split; [vm_compute; reflexivity|].
    split; [vm_compute; intuition discriminate|].
    vm_compute. reflexivity.
Qed.

(** C10, on the trial inputs: the [leg] token has a key in the lookup. *)
Lemma C10_leg_reference_undefined_witness :
  is_Some
    (V4.primitivePathMap (V4.collected sampleInputs)
       !! "wel.prim.color.leg.navalblue").
Proof.
  destruct (proj1 C10_leg_reference_undefined sampleInputs legToken)
    as (t' & _ & _ & _ & H).
  - right. now left.
  - reflexivity.
  - change (pathKey legToken) with "wel.prim.color.leg.navalblue" in H.
    rewrite H. eauto.
Defined.

(** * Further properties of the scripts *)

(** ** The colour parser: its domain *)

Lemma hexMatchN_complete n h :
  String.length h = n -> allS isHexDigit h = true ->
  hexMatchN n ("#" +:+ h) = Some h.
Proof.
  intros Hn Hh. unfold hexMatchN.
  change (expect "#" ("#" +:+ h)) with (Some h). cbv beta iota.
  apply Nat.eqb_eq in Hn. now rewrite Hn, Hh.
Qed.

(** the colour of [#] and hexadecimal digits, by their number *)
Lemma toComposeColor_hex h :
  allS isHexDigit h = true ->
  toComposeColor (JString ("#" +:+ h))
  = if (String.length h =? 6)%nat
    then Some ("Color(0xFF" +:+ toUpperCase h +:+ ")")
    else if (String.length h =? 8)%nat
    then Some ("Color(0x" +:+ sliceFrom 6 (toUpperCase h)
               +:+ sliceTo 6 (toUpperCase h) +:+ ")")
    else None.
Proof.
  intros Hh. unfold toComposeColor.
  rewrite rgbaMatch_hex by exact Hh.
  change (negb (truthy (JString ("#" +:+ h)))) with false.
  change (startsWith ("#" +:+ h) "{") with false.
  unfold hexMatch, hexAlphaMatch, hexMatchN.
  change (expect "#" ("#" +:+ h)) with (Some h). cbv beta iota.
  rewrite Hh, !andb_true_r. cbn [andb].
  destruct (String.length h =? 6)%nat; [reflexivity|].
  destruct (String.length h =? 8)%nat; reflexivity.
Qed.

(** the colour of a text that begins with a functional literal *)
Lemma toComposeColor_literal p after :
  wellFormed p = true ->
  toComposeColor (JString (render p +:+ after))
  = Some ("Color(0x"
          +:+ hexByte (match alphaArg p with
                       | Some (_, a, _) =>
                           Math_round (fmul (parseFloat a) (Fin 255 0))
                       | None => Fin 255 0
                       end)
          +:+ hexByte (parseInt (red p)) +:+ hexByte (parseInt (green p))
          +:+ hexByte (parseInt (blue p)) +:+ ")").
Proof.
  intros Hp. unfold toComposeColor.
  rewrite (rgbaMatch_at_start p after Hp).
  assert (E : exists r, render p +:+ after = "rgb" +:+ r).
  { unfold render. rewrite append_assoc. eauto. }
  destruct E as [r E]. rewrite E.
  change (negb (truthy (JString ("rgb" +:+ r)))) with false.
  change (startsWith ("rgb" +:+ r) "{") with false.
  cbn [andb]. unfold capturesOf.
  destruct (alphaArg p) as [[[w7 a] w8]|]; reflexivity.
Qed.

Lemma holds_nonempty s :
  holdsRgbaLiteral s \/ isHexLiteral 6 s \/ isHexLiteral 8 s -> s <> "".
Proof.
  intros [(before & p & after & _ & ->)|[(h & -> & _)|(h & -> & _)]];
    try discriminate.
  unfold render. destruct before; discriminate.
Qed.

(** X1.  For [#] and six hexadecimal digits [toComposeColor] returns the
    opaque colour: [Color(0xFF] and the six digits in upper case, red
    first. *)
Theorem hex6_opaque (r1 r2 g1 g2 b1 b2 : ascii) :
  forallb isHexDigit [r1; r2; g1; g2; b1; b2] = true ->
  toComposeColor (JString (ofChars ["#"%char; r1; r2; g1; g2; b1; b2]))
  = Some ("Color(0xFF" +:+ byteHex (byteOf r1 r2) +:+ byteHex (byteOf g1 g2)
          +:+ byteHex (byteOf b1 b2) +:+ ")").
Proof.
  intros H. simpl in H.
  repeat (apply andb_true_iff in H as [? H]). clear H.
  assert (Hall : allS isHexDigit (ofChars [r1; r2; g1; g2; b1; b2]) = true).
  { simpl. repeat (apply andb_true_iff; split); auto. }
  change (ofChars ("#"%char :: ?l)) with ("#" +:+ ofChars l).
  rewrite toComposeColor_hex by exact Hall.
  rewrite (toUpperCase_hex _ Hall). simpl.
  now rewrite !byteHex_byteOf.
Qed.

(** X1, at [#0047ab]. *)
Lemma hex6_opaque_witness :
  forallb isHexDigit ["0"; "0"; "4"; "7"; "a"; "b"]%char = true
  /\ toComposeColor (JString "#0047ab") = Some "Color(0xFF0047AB)".
Proof.
  split; [reflexivity|].
  exact (hex6_opaque "0" "0" "4" "7" "a" "b" eq_refl).
Defined.

(** X2.  The texts for which [toComposeColor] returns a colour are
    exactly those that are not enclosed in braces and that hold a
    functional literal somewhere, or are [#] and six hexadecimal digits,
    or [#] and eight. *)
Theorem parser_domain (s : string) :
  (exists c, toComposeColor (JString s) = Some c)
  <-> startsWith s "{" && endsWith s "}" = false
      /\ (holdsRgbaLiteral s \/ isHexLiteral 6 s \/ isHexLiteral 8 s).
Proof.
  split.
  - intros [c H]. unfold toComposeColor in H.
    destruct (negb (truthy (JString s))); [discriminate|].
    destruct (startsWith s "{" && endsWith s "}"); [discriminate|].
    split; [reflexivity|].
    destruct (rgbaMatch s) as [[[[r g] b] a]|] eqn:E.
    { left. apply rgbaMatch_sound in E.
      destruct E as (before & p & after & Hp & Hs & _).
      now exists before, p, after. }
    destruct (hexMatch s) eqn:E6.
    { right; left. eapply hexMatchN_sound; eauto. }
    destruct (hexAlphaMatch s) eqn:E8; [|discriminate].
    right; right. eapply hexMatchN_sound; eauto.
  - intros [Hb Hs]. pose proof (holds_nonempty s Hs) as Hne.
    unfold toComposeColor.
    assert (Ht : negb (truthy (JString s)) = false).
    { simpl. destruct s; [congruence|reflexivity]. }
    rewrite Ht, Hb.
    destruct (rgbaMatch s) as [[[[r g] b] a]|] eqn:E; [eauto|].
    destruct Hs as [Hs|[(h & -> & Hl & Hh)|(h & -> & Hl & Hh)]].
    + exfalso. now apply (not_holdsRgbaLiteral s E).
    + unfold hexMatch. rewrite hexMatchN_complete by assumption. eauto.
    + unfold hexMatch, hexAlphaMatch.
      destruct (hexMatchN 6 _); [eauto|].
      rewrite hexMatchN_complete by assumption. eauto.
Qed.

(** X3.  The colour of a functional literal depends on its numbers
    only: two literals with the same red, green, blue and alpha texts
    give the same result, whatever their white space and whether they
    are written [rgb] or [rgba]; and what follows the literal in the
    text is ignored. *)
Theorem literal_layout_irrelevant (p q : RgbaParts) (after : string) :
  wellFormed p = true -> wellFormed q = true ->
  capturesOf p = capturesOf q ->
  toComposeColor (JString (render p +:+ after))
  = toComposeColor (JString (render q)).
Proof.
  intros Hp Hq E. rewrite <- (append_nil_r (render q)).
  rewrite !toComposeColor_literal by assumption.
  unfold capturesOf in E. injection E. intros Ha -> -> ->.
  destruct (alphaArg p) as [[[? ?] ?]|], (alphaArg q) as [[[? ?] ?]|];
    try discriminate; [injection Ha as ->|]; reflexivity.
Qed.

(** X3, at [rgba( 1 , 2,3 ,0.5 ) solid] and [rgb(1,2,3,0.5)]. *)
Lemma literal_layout_irrelevant_witness :
  toComposeColor (JString "rgba( 1 , 2,3 ,0.5 ) solid")
  = toComposeColor (JString "rgb(1,2,3,0.5)").
Proof.
  exact (literal_layout_irrelevant
           (mkParts true " " "1" " " " " "2" "" "" "3" " "
              (Some ("", "0.5", " ")))
           (mkParts false "" "1" "" "" "2" "" "" "3" ""
              (Some ("", "0.5", "")))
           " solid" eq_refl eq_refl eq_refl).
Defined.

(** ** The colour parser: letter case *)

Lemma mapS_mapS f g s : mapS f (mapS g s) = mapS (fun c => f (g c)) s.
Proof. induction s as [|c s IH]; simpl; [reflexivity|now rewrite IH]. Qed.

Lemma mapS_ext f g s : (forall c, f c = g c) -> mapS f s = mapS g s.
Proof.
  intros H. induction s as [|c s IH]; simpl; [reflexivity|].
  now rewrite H, IH.
Qed.

Lemma allS_mapS p f s : allS p (mapS f s) = allS (fun c => p (f c)) s.
Proof. induction s as [|c s IH]; simpl; [reflexivity|now rewrite IH]. Qed.

Lemma allS_ext p q s : (forall c, p c = q c) -> allS p s = allS q s.
Proof.
  intros H. induction s as [|c s IH]; simpl; [reflexivity|].
  now rewrite H, IH.
Qed.

Lemma toUpperChar_toLowerChar c : toUpperChar (toLowerChar c) = toUpperChar c.
Proof. each_char c; reflexivity. Qed.

Lemma toUpperChar_idem c : toUpperChar (toUpperChar c) = toUpperChar c.
Proof. each_char c; reflexivity. Qed.

Lemma isHexDigit_toLowerChar c : isHexDigit (toLowerChar c) = isHexDigit c.
Proof. each_char c; reflexivity. Qed.

Lemma isHexDigit_toUpperChar c : isHexDigit (toUpperChar c) = isHexDigit c.
Proof. each_char c; reflexivity. Qed.

(** X4.  The hexadecimal forms are read without regard to letter case:
    [#] and hexadecimal digits give the same result in lower case, in
    upper case and as written. *)
Theorem hex_case_irrelevant (h : string) :
  allS isHexDigit h = true ->
  toComposeColor (JString ("#" +:+ toLowerCase h))
  = toComposeColor (JString ("#" +:+ h))
  /\ toComposeColor (JString ("#" +:+ toUpperCase h))
     = toComposeColor (JString ("#" +:+ h)).
Proof.
  intros Hh.
  assert (Hl : allS isHexDigit (toLowerCase h) = true).
  { unfold toLowerCase. rewrite allS_mapS.
    now rewrite (allS_ext _ isHexDigit _ isHexDigit_toLowerChar). }
  pose proof (toUpperCase_hex h Hh) as Eh.
  assert (Hu : allS isHexDigit (toUpperCase h) = true).
  { rewrite Eh, allS_mapS.
    now rewrite (allS_ext _ isHexDigit _ isHexDigit_toUpperChar). }
  rewrite !toComposeColor_hex by assumption.
  assert (El : toUpperCase (toLowerCase h) = toUpperCase h).
  { rewrite (toUpperCase_hex _ Hl), Eh. unfold toLowerCase.
    rewrite mapS_mapS. apply mapS_ext, toUpperChar_toLowerChar. }
  assert (Eu : toUpperCase (toUpperCase h) = toUpperCase h).
  { rewrite (toUpperCase_hex _ Hu), Eh, mapS_mapS.
    apply mapS_ext, toUpperChar_idem. }
  rewrite El, Eu, Eh. unfold toLowerCase. rewrite !mapS_length.
  split; reflexivity.
Qed.

(** X4, at the digits [aBcDeF]. *)
Lemma hex_case_irrelevant_witness :
  toComposeColor (JString "#abcdef") = toComposeColor (JString "#aBcDeF")
  /\ toComposeColor (JString "#ABCDEF") = toComposeColor (JString "#aBcDeF").
Proof. exact (hex_case_irrelevant "aBcDeF" eq_refl). Defined.

(** ** The colour parser: the alpha argument at its ends *)

Lemma wellFormed_withoutAlpha p :
  wellFormed p = true -> wellFormed (withoutAlpha p) = true.
Proof.
  unfold wellFormed. simpl. intros H.
  apply andb_true_iff in H as [H _]. now rewrite H.
Qed.

Lemma toDouble_one n : 0 < n -> toDouble n n = Fin (2 ^ 52) (-52).
Proof.
  intros Hn. unfold toDouble, ilog2.
  destruct (n =? 0) eqn:E; [lia|]. rewrite Z.sub_diag.
  change (0 <=? 0) with true. cbv beta iota zeta.
  change (2 ^ 0) with 1. rewrite Z.mul_1_r, Z.leb_refl.
  change (Z.max 0 (-1022) - 52) with (-52).
  change (0 <=? -52) with false. cbv beta iota zeta. cbn [andb].
  change (- -52) with 52. unfold roundNearestEven.
  rewrite (Z.mul_comm n (2 ^ 52)), Z.div_mul, Z.mod_mul by lia.
  change (2 * 0) with 0.
  destruct (0 <? n) eqn:E'; [reflexivity|lia].
Qed.

Lemma parseFloat_no_digit r : stopsAt isDigit r -> parseFloat ("." +:+ r) = NaN.
Proof.
  intros H. unfold parseFloat.
  change (span isDigit ("." +:+ r)) with ("", "." +:+ r).
  cbv beta iota zeta.
  change (expect "." ("." +:+ r)) with (Some r). cbv beta iota.
  destruct r as [|c r]; [reflexivity|].
  simpl in H. simpl. rewrite H. reflexivity.
Qed.

(** X5.  An alpha argument worth one (a decimal text whose value is
    [n / n]) gives the colour of the literal without alpha, the byte
    [FF]; an alpha argument worth zero gives the byte [00]. *)
Theorem alpha_ends (p : RgbaParts) (w7 a w8 : string) (num den : Z) :
  wellFormed p = true ->
  alphaArg p = Some (w7, a, w8) ->
  isDecimal a num den ->
  (num = den ->
   toComposeColor (JString (render p))
   = toComposeColor (JString (render (withoutAlpha p))))
  /\ (num = 0 ->
      toComposeColor (JString (render p))
      = Some ("Color(0x00" +:+ hexByte (parseInt (red p))
              +:+ hexByte (parseInt (green p))
              +:+ hexByte (parseInt (blue p)) +:+ ")")).
Proof.
  intros Hp Ha Hd.
  pose proof (wellFormed_withoutAlpha p Hp) as Hq.
  destruct (parseFloat_decimal a num den Hd) as (Hf & Hnum & Hden).
  rewrite <- (append_nil_r (render p)), <- (append_nil_r (render (withoutAlpha p))).
  rewrite !toComposeColor_literal by assumption.
  rewrite Ha, Hf. split; intros ->.
  - rewrite toDouble_one by exact Hden. reflexivity.
  - reflexivity.
Qed.

(** X5, at [rgba(1,2,3,1.0)] and [rgba(1,2,3)]. *)
Lemma alpha_ends_witness :
  toComposeColor (JString "rgba(1,2,3,1.0)")
  = toComposeColor (JString "rgba(1,2,3)").
Proof.
  refine (proj1 (alpha_ends
                   (mkParts true "" "1" "" "" "2" "" "" "3" ""
                      (Some ("", "1.0", "")))
                   "" "1.0" "" 10 10 eq_refl eq_refl _) eq_refl).
  exists "1", "0". repeat split; try reflexivity; try discriminate.
  now right.
Defined.

(** X6.  An alpha argument without a digit before or after its first
    point (as [.] or [..5]) is not a number: the text [NAN] takes the
    place of the alpha byte in the result, which is no colour literal. *)
Theorem alpha_without_digit (p : RgbaParts) (w7 r w8 : string) :
  wellFormed p = true ->
  alphaArg p = Some (w7, "." +:+ r, w8) ->
  stopsAt isDigit r ->
  toComposeColor (JString (render p))
  = Some ("Color(0xNAN" +:+ hexByte (parseInt (red p))
          +:+ hexByte (parseInt (green p))
          +:+ hexByte (parseInt (blue p)) +:+ ")").
Proof.
  intros Hp Ha Hr.
  rewrite <- (append_nil_r (render p)).
  rewrite toComposeColor_literal by assumption.
  rewrite Ha, parseFloat_no_digit by exact Hr. reflexivity.
Qed.

(** X6, at [rgba(1,2,3,..5)]. *)
Lemma alpha_without_digit_witness :
  toComposeColor (JString "rgba(1,2,3,..5)") = Some "Color(0xNAN010203)".
Proof.
  exact (alpha_without_digit
           (mkParts true "" "1" "" "" "2" "" "" "3" ""
              (Some ("", "..5", "")))
           "" ".5" "" eq_refl eq_refl eq_refl).
Defined.

(** ** The colour parser: channels above 255 *)

Lemma roundNearestEven_one a : roundNearestEven a 1 = a.
Proof.
  unfold roundNearestEven. now rewrite Z.div_1_r, Z.mod_1_r.
Qed.

(** an integer below [2^53] is a binary64 value *)
Lemma toDouble_integer n :
  0 < n < 2 ^ 53 -> exists m e, toDouble n 1 = Fin m e /\ truncZ m e = n.
Proof.
  intros Hn. unfold toDouble, ilog2.
  destruct (n =? 0) eqn:E; [lia|].
  change (Z.log2 1) with 0. rewrite Z.sub_0_r.
  pose proof (Z.log2_nonneg n) as H0.
  pose proof (Z.log2_spec n ltac:(lia)) as [Hlo Hhi].
  assert (H52 : Z.log2 n < 53) by (apply Z.log2_lt_pow2; lia).
  destruct (0 <=? Z.log2 n) eqn:E0; [|lia].
  rewrite Z.mul_1_l.
  destruct (2 ^ Z.log2 n <=? n) eqn:E1; [|lia].
  rewrite Z.max_l by lia.
  destruct (0 <=? Z.log2 n - 52) eqn:E2.
  - assert (HL : Z.log2 n = 52) by lia. rewrite HL. change (52 - 52) with 0.
    change (1 * 2 ^ 0) with 1. rewrite roundNearestEven_one.
    change (2 ^ 0) with 1. rewrite Z.mul_1_r.
    destruct (2 ^ 1024 <=? n) eqn:E3.
    { apply Z.leb_le in E3.
      assert (2 ^ 53 < 2 ^ 1024) by (apply Z.pow_lt_mono_r; lia). lia. }
    cbn [andb]. exists n, 0. split; [reflexivity|].
    unfold truncZ. change (0 <=? 0) with true. cbv iota.
    change (2 ^ 0) with 1. lia.
  - cbn [andb]. rewrite roundNearestEven_one.
    eexists _, _. split; [reflexivity|].
    unfold truncZ. rewrite E2.
    apply Z.div_mul.
    assert (0 < 2 ^ (- (Z.log2 n - 52))) by (apply Z.pow_pos_nonneg; lia).
    lia.
Qed.

Lemma hexDigits_length fuel : forall n acc,
  (String.length acc <= String.length (hexDigits fuel n acc))%nat.
Proof.
  induction fuel as [|f IH]; intros n acc; simpl; [lia|].
  destruct (n <? 16); [simpl; lia|].
  etransitivity; [|apply IH]. simpl. lia.
Qed.

Lemma hexDigits_three fuel n acc :
  256 <= n -> (3 <= fuel)%nat ->
  (3 + String.length acc <= String.length (hexDigits fuel n acc))%nat.
Proof.
  intros Hn Hf.
  destruct fuel as [|[|[|f]]]; try lia.
  assert (H1 : 16 <= n / 16) by (apply Z.div_le_lower_bound; lia).
  assert (H2 : 1 <= n / 16 / 16) by (apply Z.div_le_lower_bound; lia).
  cbn [hexDigits].
  destruct (n <? 16) eqn:E1; [lia|].
  destruct (n / 16 <? 16) eqn:E2; [lia|].
  destruct (n / 16 / 16 <? 16).
  - simpl. lia.
  - etransitivity; [|apply hexDigits_length]. simpl. lia.
Qed.

Lemma toUpperCase_length s :
  (String.length s <= String.length (toUpperCase s))%nat.
Proof.
  induction s as [|c s IH]; [reflexivity|].
  cbn [toUpperCase]. rewrite length_append. unfold upperOf.
  destruct (code c =? 223)%N; simpl; lia.
Qed.

Lemma hexByte_length x : (2 <= String.length (hexByte x))%nat.
Proof.
  unfold hexByte.
  etransitivity; [|apply toUpperCase_length].
  unfold padStart. rewrite length_append.
  assert (H : forall c k, String.length (repeatS c k) = k).
  { intros c k. induction k; simpl; congruence. }
  rewrite H. lia.
Qed.

(** the hexadecimal text of a channel above 255 has three digits or more *)
Lemma hexByte_above d :
  256 <= decVal d < 2 ^ 53 -> (3 <= String.length (hexByte (parseInt d)))%nat.
Proof.
  intros Hd. unfold parseInt.
  destruct (toDouble_integer (decVal d) ltac:(lia)) as (m & e & -> & Ht).
  unfold hexByte.
  etransitivity; [|apply toUpperCase_length].
  unfold padStart. rewrite length_append.
  unfold toString16. rewrite Ht.
  assert (8 <= Z.log2 (decVal d)).
  { apply Z.log2_le_pow2; [lia|]. change (2 ^ 8) with 256. lia. }
  pose proof (hexDigits_three (S (Z.to_nat (Z.log2 (decVal d)))) (decVal d) ""
                ltac:(lia) ltac:(lia)) as H3.
  change (String.length "") with 0%nat in H3. lia.
Qed.

(** X7.  A channel is not clamped: when red, green or blue is above 255
    (and below [2^53], where integers are exact) its hexadecimal text
    has three digits or more, so the result has more than the
    seventeen characters of [Color(0xAARRGGBB)]. *)
Theorem channel_not_clamped (p : RgbaParts) :
  wellFormed p = true ->
  256 <= decVal (red p) < 2 ^ 53
  \/ 256 <= decVal (green p) < 2 ^ 53
  \/ 256 <= decVal (blue p) < 2 ^ 53 ->
  exists c,
    toComposeColor (JString (render p)) = Some c
    /\ (17 < String.length c)%nat.
Proof.
  intros Hp H.
  rewrite <- (append_nil_r (render p)).
  rewrite toComposeColor_literal by assumption.
  eexists. split; [reflexivity|].
  rewrite !length_append.
  set (alpha := match alphaArg p with Some _ => _ | None => _ end).
  pose proof (hexByte_length alpha).
  pose proof (hexByte_length (parseInt (red p))).
  pose proof (hexByte_length (parseInt (green p))).
  pose proof (hexByte_length (parseInt (blue p))).
  change (String.length "Color(0x") with 8%nat.
  change (String.length ")") with 1%nat.
  destruct H as [H|[H|H]]; apply hexByte_above in H; lia.
Qed.

(** X7, at [rgb(256,0,0)]. *)
Lemma channel_not_clamped_witness :
  exists c,
    toComposeColor (JString "rgb(256,0,0)") = Some c
    /\ (17 < String.length c)%nat.
Proof.
  apply (channel_not_clamped
           (mkParts false "" "256" "" "" "0" "" "" "0" "" None) eq_refl).
  left. split; [intros H; discriminate H|reflexivity].
Defined.

(** ** Names: the characters of an identifier *)

Lemma allS_sliceFrom p n : forall s,
  allS p s = true -> allS p (sliceFrom n s) = true.
Proof.
  induction n as [|n IH]; intros [|c s] H; simpl; auto.
  simpl in H. apply andb_true_iff in H as [_ H]. now apply IH.
Qed.

Lemma allS_sliceTo p n : forall s,
  allS p s = true -> allS p (sliceTo n s) = true.
Proof.
  induction n as [|n IH]; intros [|c s] H; simpl; auto.
  simpl in H. apply andb_true_iff in H as [Hc H].
  now rewrite Hc, IH.
Qed.

Lemma allS_join p sep l :
  allS p sep = true -> Forall (fun x => allS p x = true) l ->
  allS p (join sep l) = true.
Proof.
  intros Hsep H. induction H as [|x l Hx Hl IH]; [reflexivity|].
  destruct l as [|y l]; [exact Hx|].
  change (join sep (x :: y :: l)) with (x +:+ sep +:+ join sep (y :: l)).
  now rewrite !allS_append, Hx, Hsep, IH.
Qed.

Lemma allS_stripPrefixCI p pre s :
  allS p s = true -> allS p (stripPrefixCI pre s) = true.
Proof.
  intros H. unfold stripPrefixCI.
  destruct (startsWithCI s pre); [now apply allS_sliceFrom|exact H].
Qed.

Lemma allS_replaceTempSuffixCI p s :
  allS p "Temp" = true -> allS p s = true ->
  allS p (replaceTempSuffixCI s) = true.
Proof.
  intros Ht H. unfold replaceTempSuffixCI.
  destruct (endsWithCI s "-temp"); [|exact H].
  now rewrite allS_append, allS_sliceTo, Ht.
Qed.

(** the parts of a text of letters, digits and hyphens hold letters and
    digits only *)
Lemma splitAcc_alnum s : forall cur,
  allS isAlnum cur = true -> allS isSegmentChar s = true ->
  Forall (fun x => allS isAlnum x = true) (splitAcc "-" cur s).
Proof.
  induction s as [|c s IH]; intros cur Hcur Hs; simpl.
  - now constructor.
  - simpl in Hs. apply andb_true_iff in Hs as [Hc Hs].
    destruct (Ascii.eqb c "-") eqn:E.
    + constructor; [exact Hcur|]. now apply IH.
    + apply IH; [|exact Hs].
      rewrite allS_append, Hcur. simpl.
      unfold isSegmentChar in Hc. rewrite E, orb_false_r in Hc.
      now rewrite Hc.
Qed.

Lemma split_alnum s :
  allS isSegmentChar s = true ->
  Forall (fun x => allS isAlnum x = true) (split "-" s).
Proof. intros H. now apply splitAcc_alnum. Qed.

Lemma isAlnum_toUpperChar c : isAlnum c = true -> isAlnum (toUpperChar c) = true.
Proof. each_char c; congruence. Qed.

Lemma isAlnum_toLowerChar c : isAlnum c = true -> isAlnum (toLowerChar c) = true.
Proof. each_char c; congruence. Qed.

Lemma isAlnum_segment c : isAlnum c = true -> isSegmentChar c = true.
Proof. intros H. unfold isSegmentChar. now rewrite H. Qed.

Lemma toUpperCase_one c : toUpperCase (String c "") = upperOf c.
Proof. cbn [toUpperCase]. apply append_nil_r. Qed.

Lemma upperOf_alnum c :
  isAlnum c = true -> upperOf c = String (toUpperChar c) "".
Proof. each_char c; congruence. Qed.

Lemma capitalize_cons c s : capitalize (String c s) = upperOf c +:+ s.
Proof. unfold capitalize. cbn [charAt0 sliceFrom]. now rewrite toUpperCase_one. Qed.

Lemma allS_capitalize s :
  allS isAlnum s = true -> allS isAlnum (capitalize s) = true.
Proof.
  destruct s as [|c s]; [reflexivity|]. simpl. intros H.
  apply andb_true_iff in H as [Hc H].
  rewrite capitalize_cons, (upperOf_alnum c Hc). simpl.
  now rewrite (isAlnum_toUpperChar c Hc).
Qed.

Lemma allS_replaceAllCI p pat rep s : forall skip,
  allS p rep = true -> allS p s = true ->
  allS p (replaceAllCI pat rep skip s) = true.
Proof.
  induction s as [|c s IH]; intros skip Hrep Hs; [reflexivity|].
  pose proof Hs as Hs'. simpl in Hs'. apply andb_true_iff in Hs' as [Hc Hs'].
  cbn [replaceAllCI]. destruct skip as [|k]; [|now apply IH].
  destruct (startsWithCI (String c s) pat).
  - now rewrite allS_append, Hrep, IH.
  - simpl. now rewrite Hc, IH.
Qed.

Lemma allS_fixWords p words : forall s,
  Forall (fun w => allS p w = true) words ->
  allS p s = true -> allS p (fixWords words s) = true.
Proof.
  unfold fixWords.
  induction words as [|w words IH]; intros s Hw Hs; [exact Hs|].
  inversion Hw as [|? ? Hw1 Hw2]; subst. simpl.
  apply IH; [exact Hw2|]. now apply allS_replaceAllCI.
Qed.

Lemma allS_replaceHiEnd s :
  allS isAlnum s = true -> allS isAlnum (replaceHiEnd s) = true.
Proof.
  intros H. unfold replaceHiEnd. destruct (endsWith s "Hi"); [|exact H].
  now rewrite allS_append, allS_sliceTo.
Qed.

Lemma allS_replaceHiUpper s : forall skip,
  allS isAlnum s = true -> allS isAlnum (replaceHiUpper skip s) = true.
Proof.
  induction s as [|c s IH]; intros skip Hs; [reflexivity|].
  pose proof Hs as Hs'. simpl in Hs'. apply andb_true_iff in Hs' as [Hc Hs'].
  cbn [replaceHiUpper]. destruct skip as [|k]; [|now apply IH].
  assert (Hdef : allS isAlnum (String c (replaceHiUpper 0 s)) = true).
  { cbn [allS]. now rewrite Hc, IH. }
  destruct s as [|i [|u s]]; [exact Hdef|exact Hdef|].
  destruct (Ascii.eqb c "H" && Ascii.eqb i "i" && isUpperAZ u);
    [|exact Hdef].
  rewrite allS_append. change (allS isAlnum "High") with true.
  cbn [andb allS].
  assert (Hu : isAlnum u = true).
  { simpl in Hs'. apply andb_true_iff in Hs' as [_ Hs'].
    now apply andb_true_iff in Hs' as [Hu _]. }
  now rewrite Hu, (IH 2%nat Hs').
Qed.

Lemma allS_join_map (f : string -> string) l :
  (forall x, allS isAlnum x = true -> allS isAlnum (f x) = true) ->
  Forall (fun x => allS isAlnum x = true) l ->
  allS isAlnum (join "" (map f l)) = true.
Proof.
  intros Hf H. apply allS_join; [reflexivity|].
  induction H; constructor; auto.
Qed.

Lemma V4_primitivePart_alnum x :
  allS isAlnum x = true -> allS isAlnum (V4.primitivePart x) = true.
Proof.
  intros H. unfold V4.primitivePart. destruct (allDigits x); [exact H|].
  apply allS_fixWords; [|now apply allS_capitalize].
  unfold V4.primitiveWords. repeat constructor.
Qed.

Lemma V3_pascalPart_alnum x :
  allS isAlnum x = true -> allS isAlnum (V3.pascalPart x) = true.
Proof.
  intros H. unfold V3.pascalPart. destruct (allDigits x); [exact H|].
  apply allS_fixWords; [|now apply allS_capitalize].
  unfold V3.colorWords. repeat constructor.
Qed.

Lemma V4_semanticPart_alnum x :
  allS isAlnum x = true -> allS isAlnum (V4.semanticPart x) = true.
Proof.
  intros H. unfold V4.semanticPart. destruct (allDigits x); [exact H|].
  now apply allS_capitalize.
Qed.

Lemma V2_primitivePart_alnum x :
  allS isAlnum x = true -> allS isAlnum (V2.primitivePart x) = true.
Proof.
  intros H. unfold V2.primitivePart. destruct (allDigits x); [exact H|].
  destruct x as [|c x]; [reflexivity|].
  simpl in H. apply andb_true_iff in H as [Hc H].
  cbn [charAt0 sliceFrom].
  rewrite toUpperCase_one, (upperOf_alnum c Hc), allS_append.
  cbn [allS]. rewrite (isAlnum_toUpperChar c Hc). cbn [andb].
  unfold toLowerCase. rewrite allS_mapS.
  apply (allS_impl isAlnum); [apply isAlnum_toLowerChar|exact H].
Qed.

(** the joined path, its prefixes stripped and its suffix replaced *)
Lemma cleanName_segment path :
  Forall (fun part => allS isSegmentChar part = true) path ->
  allS isSegmentChar (replaceTempSuffixCI (V3.stripPrefixes (join "-" path)))
  = true
  /\ allS isSegmentChar (replaceTempSuffixCI (V2.stripPrefixes (join "-" path)))
     = true.
Proof.
  intros H.
  assert (Hj : allS isSegmentChar (join "-" path) = true)
    by (apply allS_join; [reflexivity|exact H]).
  split; apply allS_replaceTempSuffixCI; try reflexivity;
    unfold V3.stripPrefixes, V2.stripPrefixes;
    repeat apply allS_stripPrefixCI; exact Hj.
Qed.

(** X8.  A path whose segments are made of letters, digits and hyphens
    gets an identifier made of letters and digits only, as a primitive
    in the second, third and fourth script and as a semantic token in
    the third and fourth: no hyphen is left in it. *)
Theorem identifiers_alphanumeric (token : Token) :
  Forall (fun part => allS isSegmentChar part = true) (path token) ->
  allS isAlnum (V4.toPrimitiveKotlinName (path token)) = true
  /\ allS isAlnum (V3.toPrimitiveKotlinName (path token)) = true
  /\ allS isAlnum (V2.toPrimitiveKotlinName (path token)) = true
  /\ allS isAlnum (V4.semanticName token) = true
  /\ allS isAlnum (V3.semanticName token) = true.
Proof.
  intros H. destruct (cleanName_segment (path token) H) as [H3 H2].
  assert (Hd : allS isSegmentChar (join "-" (drop 3 (path token))) = true).
  { apply allS_join; [reflexivity|]. now apply Forall_drop. }
  repeat split.
  - unfold V4.toPrimitiveKotlinName, V4.toPascalCasePrimitive.
    apply allS_join_map; [apply V4_primitivePart_alnum|now apply split_alnum].
  - unfold V3.toPrimitiveKotlinName, V3.toPascalCase.
    apply allS_replaceHiUpper, allS_replaceHiEnd.
    apply allS_join_map; [apply V3_pascalPart_alnum|now apply split_alnum].
  - unfold V2.toPrimitiveKotlinName.
    apply allS_join_map; [apply V2_primitivePart_alnum|now apply split_alnum].
  - unfold V4.semanticName, V4.toPascalCaseSemantic.
    apply allS_replaceHiUpper, allS_replaceHiEnd.
    apply allS_join_map; [apply V4_semanticPart_alnum|now apply split_alnum].
  - unfold V3.semanticName, V3.toPascalCase.
    apply allS_replaceHiUpper, allS_replaceHiEnd.
    apply allS_join_map; [apply V3_pascalPart_alnum|now apply split_alnum].
Qed.

(** X8, at the token [wel.sem.color.text-hover]. *)
Lemma identifiers_alphanumeric_witness :
  allS isAlnum (V4.semanticName hoverToken) = true.
Proof.
  exact (proj1 (proj2 (proj2 (proj2
           (identifiers_alphanumeric hoverToken ltac:(repeat constructor)))))).
Defined.

(** ** Names: the [leg] group *)

Lemma eqCI_refl c : eqCI c c = true.
Proof. unfold eqCI. apply Ascii.eqb_refl. Qed.

Lemma startsWithCI_append p r : startsWithCI (p +:+ r) p = true.
Proof.
  induction p as [|c p IH]; [now destruct r|].
  rewrite append_cons. simpl. now rewrite eqCI_refl, IH.
Qed.

Lemma startsWithCI_append_both p q r :
  startsWithCI (p +:+ r) (p +:+ q) = startsWithCI r q.
Proof.
  induction p as [|c p IH]; [now rewrite !append_nil_l|].
  rewrite !append_cons. simpl. now rewrite eqCI_refl, IH.
Qed.

Lemma stripPrefixCI_append p r : stripPrefixCI p (p +:+ r) = r.
Proof.
  unfold stripPrefixCI. now rewrite startsWithCI_append, sliceFrom_append.
Qed.

Lemma stripPrefixCI_none p s : startsWithCI s p = false -> stripPrefixCI p s = s.
Proof. intros H. unfold stripPrefixCI. now rewrite H. Qed.

(** the joined path of a [leg] primitive and of its namesake outside the
    group are the same once the first two prefixes are stripped *)
Lemma stripPrefixes_leg R :
  startsWithCI R "leg-" = false ->
  startsWithCI R "wel-prim-color-" = false ->
  stripPrefixCI "wel-prim-color-"
    (stripPrefixCI "wel-prim-color-leg-" ("wel-prim-color-leg-" +:+ R))
  = stripPrefixCI "wel-prim-color-"
      (stripPrefixCI "wel-prim-color-leg-" ("wel-prim-color-" +:+ R)).
Proof.
  intros Hleg Hwel.
  rewrite stripPrefixCI_append, (stripPrefixCI_none _ R Hwel).
  rewrite (stripPrefixCI_none "wel-prim-color-leg-").
  - now rewrite stripPrefixCI_append.
  - change "wel-prim-color-leg-" with ("wel-prim-color-" +:+ "leg-").
    now rewrite startsWithCI_append_both.
Qed.

(** X9.  The [leg] segment leaves no trace in a primitive identifier:
    a primitive under [wel.prim.color.leg] and the primitive with the
    same remaining path under [wel.prim.color] have the same
    identifier, in the second, third and fourth scripts (for a
    remaining path that does not itself begin with [leg-] or
    [wel-prim-color-]). *)
Theorem leg_identifier_shared (part : string) (rest : list string) :
  startsWithCI (join "-" (part :: rest)) "leg-" = false ->
  startsWithCI (join "-" (part :: rest)) "wel-prim-color-" = false ->
  V4.toPrimitiveKotlinName ("wel" :: "prim" :: "color" :: "leg" :: part :: rest)
  = V4.toPrimitiveKotlinName ("wel" :: "prim" :: "color" :: part :: rest)
  /\ V3.toPrimitiveKotlinName
       ("wel" :: "prim" :: "color" :: "leg" :: part :: rest)
     = V3.toPrimitiveKotlinName ("wel" :: "prim" :: "color" :: part :: rest)
  /\ V2.toPrimitiveKotlinName
       ("wel" :: "prim" :: "color" :: "leg" :: part :: rest)
     = V2.toPrimitiveKotlinName ("wel" :: "prim" :: "color" :: part :: rest).
Proof.
  intros Hleg Hwel.
  pose proof (stripPrefixes_leg _ Hleg Hwel) as E.
  unfold V4.toPrimitiveKotlinName, V3.toPrimitiveKotlinName,
    V2.toPrimitiveKotlinName, V3.stripPrefixes, V2.stripPrefixes.
  change (join "-" ("wel" :: "prim" :: "color" :: "leg" :: part :: rest))
    with ("wel-prim-color-leg-" +:+ join "-" (part :: rest)).
  change (join "-" ("wel" :: "prim" :: "color" :: part :: rest))
    with ("wel-prim-color-" +:+ join "-" (part :: rest)).
  rewrite E. repeat split; reflexivity.
Qed.

(** X9, at [wel.prim.color.leg.navalblue.500]. *)
Lemma leg_identifier_shared_witness :
  V4.toPrimitiveKotlinName ["wel"; "prim"; "color"; "leg"; "navalblue"; "500"]
  = V4.toPrimitiveKotlinName ["wel"; "prim"; "color"; "navalblue"; "500"].
Proof.
  exact (proj1 (leg_identifier_shared "navalblue" ["500"] eq_refl eq_refl)).
Defined.

(** ** The registry: what a pass stores and what it keeps *)

Lemma getPrimitiveRef_maps st st' t :
  V4.primitivePathMap st' = V4.primitivePathMap st ->
  V4.brandbookPathMap st' = V4.brandbookPathMap st ->
  V4.getPrimitiveRef st' t = V4.getPrimitiveRef st t.
Proof. intros H1 H2. unfold V4.getPrimitiveRef. now rewrite H1, H2. Qed.

Lemma V4_collectToken_no_color mode st t :
  hasColor t = false -> V4.collectToken mode st t = st.
Proof.
  unfold hasColor, V4.collectToken.
  destruct (toComposeColor (tokenValue t)); [discriminate|reflexivity].
Qed.

(** a pass is the pass over the tokens that have a colour *)
Lemma V4_fold_hasColor mode L : forall st,
  fold_left (V4.collectToken mode) L st
  = fold_left (V4.collectToken mode) (List.filter hasColor L) st.
Proof.
  induction L as [|a L IH]; intros st; simpl; [reflexivity|].
  destruct (hasColor a) eqn:E; simpl; [apply IH|].
  rewrite V4_collectToken_no_color by exact E. apply IH.
Qed.

Lemma V4_fold_get_other mode name L : forall st,
  Forall (fun t => V4.semanticName t <> name) L ->
  get name (V4.semanticColorsMap (fold_left (V4.collectToken mode) L st))
  = get name (V4.semanticColorsMap st).
Proof.
  induction L as [|a L IH]; intros st H; simpl; [reflexivity|].
  inversion H as [|? ? Ha HL]; subst. rewrite IH by exact HL.
  unfold V4.collectToken. destruct (toComposeColor (tokenValue a)); simpl;
    [|reflexivity].
  apply store_get_other. congruence.
Qed.

(** X10.  Within a pass the last token of a name decides the value:
    when two or more stored tokens of one pass have the same name, the
    registry holds for that name and mode the value of the last one,
    that is its primitive reference or else its colour. *)
Theorem last_value_wins (mode : Mode) (allTokens l1 l2 : list Token)
  (t : Token) (st : V4.State) (v : string) :
  storedBy allTokens = l1 ++ t :: l2 ->
  Forall (fun t' => V4.semanticName t' <> V4.semanticName t) l2 ->
  storedValue st t = Some v ->
  exists c,
    get (V4.semanticName t)
      (V4.semanticColorsMap (V4.semanticCollect mode allTokens st)) = Some c
    /\ getMode mode c = Some v.
Proof.
  intros HL Hl2 Hv. unfold V4.semanticCollect.
  rewrite V4_fold_hasColor.
  change (List.filter hasColor (List.filter V4.accepts allTokens))
    with (storedBy allTokens).
  rewrite HL, fold_left_app. simpl.
  rewrite V4_fold_get_other by exact Hl2.
  set (st1 := fold_left (V4.collectToken mode) l1 st).
  assert (E : V4.getPrimitiveRef st1 t = V4.getPrimitiveRef st t).
  { apply getPrimitiveRef_maps; apply V4_fold_maps. }
  unfold storedValue in Hv. unfold V4.collectToken.
  destruct (toComposeColor (tokenValue t)) as [cc|]; [|discriminate].
  injection Hv as <-. rewrite E. simpl. apply store_get.
Qed.

(** X10, at two tokens named [Raw]: the second colour is stored. *)
Lemma last_value_wins_witness :
  exists c,
    get "Raw"
      (V4.semanticColorsMap
         (V4.semanticCollect light
            [ colorToken ["wel"; "sem"; "color"; "raw"] "#111111" "#111111";
              colorToken ["wel"; "sem"; "color"; "raw"] "#222222" "#222222" ]
            V4.cleared)) = Some c
    /\ getMode light c = Some "Color(0xFF222222)".
Proof.
  exact (last_value_wins light
           [ colorToken ["wel"; "sem"; "color"; "raw"] "#111111" "#111111";
             colorToken ["wel"; "sem"; "color"; "raw"] "#222222" "#222222" ]
           [ colorToken ["wel"; "sem"; "color"; "raw"] "#111111" "#111111" ]
           []
           (colorToken ["wel"; "sem"; "color"; "raw"] "#222222" "#222222")
           V4.cleared "Color(0xFF222222)" eq_refl (List.Forall_nil _) eq_refl).
Defined.

Lemma get_Some_has name reg c : get name reg = Some c -> has name reg = true.
Proof.
  induction reg as [|[n c'] reg IH]; simpl; [discriminate|].
  destruct (String.eqb n name); [reflexivity|exact IH].
Qed.

(** storing a value keeps every entry, its order and its other mode *)
Lemma store_keeps name n mode v reg c :
  get name reg = Some c ->
  exists c', get name (store n mode v reg) = Some c'
             /\ order c' = order c
             /\ getMode (otherMode mode) c' = getMode (otherMode mode) c.
Proof.
  intros H. destruct (String.eqb_spec n name) as [->|Hne].
  - unfold store. rewrite (get_Some_has _ _ _ H), get_assign, H. simpl.
    eexists. split; [reflexivity|]. now destruct mode.
  - rewrite store_get_other by congruence. eauto.
Qed.

Lemma V4_fold_keeps mode name L : forall st c,
  get name (V4.semanticColorsMap st) = Some c ->
  exists c',
    get name (V4.semanticColorsMap (fold_left (V4.collectToken mode) L st))
    = Some c'
    /\ order c' = order c
    /\ getMode (otherMode mode) c' = getMode (otherMode mode) c.
Proof.
  induction L as [|a L IH]; intros st c H; simpl; [eauto|].
  assert (H1 : exists c1,
             get name (V4.semanticColorsMap (V4.collectToken mode st a))
             = Some c1
             /\ order c1 = order c
             /\ getMode (otherMode mode) c1 = getMode (otherMode mode) c).
  { unfold V4.collectToken.
    destruct (toComposeColor (tokenValue a)); simpl; [|eauto].
    now apply store_keeps. }
  destruct H1 as (c1 & H1 & Ho & Hm).
  destruct (IH _ _ H1) as (c' & H' & Ho' & Hm').
  exists c'. repeat split; congruence.
Qed.

(** X11.  A pass only adds: the names the registry held before the pass
    stay where they are, new names come after them, and every entry
    keeps its order number and the value of the other mode; so the dark
    pass changes no light value. *)
Theorem pass_keeps_entries (mode : Mode) (allTokens : list Token)
  (st : V4.State) :
  (exists added,
     map fst (V4.semanticColorsMap (V4.semanticCollect mode allTokens st))
     = map fst (V4.semanticColorsMap st) ++ added)
  /\ (forall name c,
        get name (V4.semanticColorsMap st) = Some c ->
        exists c',
          get name
            (V4.semanticColorsMap (V4.semanticCollect mode allTokens st))
          = Some c'
          /\ order c' = order c
          /\ getMode (otherMode mode) c' = getMode (otherMode mode) c).
Proof.
  split.
  - unfold V4.semanticCollect. rewrite V4_fold_keys, fold_insertNew. eauto.
  - intros name c H. now apply V4_fold_keeps.
Qed.

(** X11, at the registry of the trial inputs: the dark pass leaves the
    light value of [Raw]. *)
Lemma pass_keeps_entries_witness :
  exists c',
    get "Raw" (V4.semanticColorsMap (V4.collected sampleInputs)) = Some c'
    /\ order c' = 3%nat
    /\ getMode light c' = Some "Color(0x80010203)".
Proof.
  exact (proj2 (pass_keeps_entries dark
                  (List.filter (hasPrefix3 "sem" "color")
                     (V4.darkTokens sampleInputs))
                  (V4.semanticCollect light
                     (List.filter (hasPrefix3 "sem" "color")
                        (V4.lightTokens sampleInputs))
                     (V4.lookups sampleInputs)))
           "Raw" (mkColors 3 (Some "Color(0x80010203)") None) eq_refl).
Defined.

(** X12.  No two accessors of the semantics document have the same
    name, and the order numbers of the registry are the places of its
    entries, so that the sort by order changes nothing. *)
Theorem accessors_distinct (i : V4.Inputs) :
  NoDup (map (fun e => fst (fst e))
           (V4.entries (V4.semanticColorsMap (V4.collected i))))
  /\ map (fun e => order (snd e)) (V4.semanticColorsMap (V4.collected i))
     = seq 0 (length (V4.semanticColorsMap (V4.collected i)))
  /\ sortBy V4.compareOrder (V4.semanticColorsMap (V4.collected i))
     = V4.semanticColorsMap (V4.collected i).
Proof.
  pose proof (V4_collected_ordered i) as Ho.
  repeat split.
  - rewrite V4_entries_names by exact Ho. apply V4_collected_NoDup.
  - exact Ho.
  - now apply sortBy_ordered.
Qed.

(** ** Tokens without a colour *)

Lemma fold_filter_skip {A S} (f : S -> A -> S) (p : A -> bool) l1 x l2 st :
  p x = false \/ (forall s, f s x = s) ->
  fold_left f (List.filter p (l1 ++ x :: l2)) st
  = fold_left f (List.filter p (l1 ++ l2)) st.
Proof.
  intros H. rewrite !List.filter_app, !fold_left_app. simpl.
  destruct (p x); [|reflexivity].
  destruct H as [H|H]; [discriminate|]. simpl. now rewrite H.
Qed.

Lemma omap_skip {A B} (g : A -> option B) l1 x l2 :
  g x = None -> omap g (l1 ++ x :: l2) = omap g (l1 ++ l2).
Proof. intros H. rewrite !omap_app. simpl. now rewrite H. Qed.

Lemma omap_filter_skip {A B} (g : A -> option B) (p : A -> bool) l1 x l2 :
  p x = false \/ g x = None ->
  omap g (List.filter p (l1 ++ x :: l2)) = omap g (List.filter p (l1 ++ l2)).
Proof.
  intros H. rewrite !List.filter_app, !omap_app. simpl.
  destruct (p x); [|reflexivity].
  destruct H as [H|H]; [discriminate|]. simpl. now rewrite H.
Qed.

Lemma no_color_cases t :
  isColor t = false \/ toComposeColor (tokenValue t) = None ->
  V1.primitiveLine t = None /\ V1.semanticLine t = None
  /\ V2.primitiveLine t = None /\ V2.semanticLine t = None
  /\ (V3.emitsPrimitive t = false \/ V3.primitiveItem t = None)
  /\ (V4.emitsPrimitive t = false \/ V4.primitiveItem t = None).
Proof.
  unfold V1.primitiveLine, V1.semanticLine, V2.primitiveLine, V2.semanticLine,
    V2.accepts, V3.emitsPrimitive, V3.primitiveItem, V4.emitsPrimitive,
    V4.primitiveItem.
  intros [H|H]; rewrite H; simpl.
  - repeat split; auto.
  - repeat split; auto; destruct (isColor t); simpl; auto;
      destruct (negb (isInteractionState t)); auto.
Qed.

(** X13.  A token that is not of the colour type, or whose value
    [toComposeColor] does not read (a reference left unresolved between
    braces, a value that is no string, a text of another shape), is
    passed over in silence: every collecting pass and every document of
    the four scripts is what it would be without the token. *)
Theorem unusable_tokens_skipped (t : Token) :
  isColor t = false \/ toComposeColor (tokenValue t) = None ->
  (forall mode l1 l2 st,
     V4.semanticCollect mode (l1 ++ t :: l2) st
     = V4.semanticCollect mode (l1 ++ l2) st)
  /\ (forall mode l1 l2 reg,
        V3.semanticCollect mode (l1 ++ t :: l2) reg
        = V3.semanticCollect mode (l1 ++ l2) reg)
  /\ (forall mode l1 l2 reg,
        V2.semanticCollect mode (l1 ++ t :: l2) reg
        = V2.semanticCollect mode (l1 ++ l2) reg)
  /\ (forall l1 l2 m,
        V3.primitivesCollect (l1 ++ t :: l2) m
        = V3.primitivesCollect (l1 ++ l2) m)
  /\ (forall localeCompare packageName objectName l1 l2,
        V4.composePrimitives localeCompare packageName objectName
          (l1 ++ t :: l2)
        = V4.composePrimitives localeCompare packageName objectName
            (l1 ++ l2)
        /\ V3.composePrimitives localeCompare packageName objectName
             (l1 ++ t :: l2)
           = V3.composePrimitives localeCompare packageName objectName
               (l1 ++ l2))
  /\ (forall packageName objectName l1 l2,
        V2.composePrimitives packageName objectName (l1 ++ t :: l2)
        = V2.composePrimitives packageName objectName (l1 ++ l2)
        /\ V2.composeSemantic packageName objectName (l1 ++ t :: l2)
           = V2.composeSemantic packageName objectName (l1 ++ l2)
        /\ V1.composePrimitives packageName objectName (l1 ++ t :: l2)
           = V1.composePrimitives packageName objectName (l1 ++ l2)
        /\ V1.composeSemantic packageName objectName (l1 ++ t :: l2)
           = V1.composeSemantic packageName objectName (l1 ++ l2)).
Proof.
  intros H.
  destruct (no_color_cases t H) as (P1 & S1 & P2 & S2 & I3 & I4).
  assert (Hc : isColor t = false \/ hasColor t = false).
  { destruct H as [H|H]; [now left|right]. unfold hasColor. now rewrite H. }
  repeat split; intros.
  - unfold V4.semanticCollect. apply fold_filter_skip.
    destruct Hc as [Hc|Hc].
    + left. unfold V4.accepts. now rewrite Hc.
    + right. intros s. now apply V4_collectToken_no_color.
  - unfold V3.semanticCollect. apply fold_filter_skip.
    destruct H as [H|H].
    + left. unfold V3.accepts. now rewrite H.
    + right. intros s. unfold V3.collectToken. now rewrite H.
  - unfold V2.semanticCollect. apply fold_filter_skip.
    destruct H as [H|H].
    + left. unfold V2.accepts. now rewrite H.
    + right. intros s. unfold V2.collectToken. now rewrite H.
  - unfold V3.primitivesCollect. apply fold_filter_skip.
    destruct H as [H|H]; [now left|right].
    intros s. unfold V3.collectPrimitive. now rewrite H.
  - unfold V4.composePrimitives, V4.primitiveItems.
    now rewrite (omap_filter_skip _ _ l1 t l2 I4).
  - unfold V3.composePrimitives, V3.primitiveItems.
    now rewrite (omap_filter_skip _ _ l1 t l2 I3).
  - unfold V2.composePrimitives. now rewrite (omap_skip _ l1 t l2 P2).
  - unfold V2.composeSemantic. now rewrite (omap_skip _ l1 t l2 S2).
  - unfold V1.composePrimitives. now rewrite (omap_skip _ l1 t l2 P1).
  - unfold V1.composeSemantic. now rewrite (omap_skip _ l1 t l2 S1).
Qed.

(** X13, at a semantic token whose reference was left unresolved. *)
Lemma unusable_tokens_skipped_witness :
  V4.semanticCollect light
    [ colorToken ["wel"; "sem"; "color"; "lost"] "{wel.prim.color.none}"
        "{wel.prim.color.none}" ] V4.cleared
  = V4.semanticCollect light [] V4.cleared.
Proof.
  exact (proj1 (unusable_tokens_skipped
                  (colorToken ["wel"; "sem"; "color"; "lost"]
                     "{wel.prim.color.none}" "{wel.prim.color.none}")
                  (or_intror eq_refl)) light [] [] V4.cleared).
Defined.

(** ** The lookups: where their entries come from *)

Lemma collectPrimitive_sound L : forall m k v,
  fold_left V4.collectPrimitive L m !! k = Some v ->
  m !! k = Some v
  \/ exists t, In t L /\ pathKey t = k /\ v = primitiveId t.
Proof.
  induction L as [|a L IH]; intros m k v H; [now left|].
  simpl in H. apply IH in H as [H|(t & Hin & Hk & Hv)].
  - unfold V4.collectPrimitive in H. fold (pathKey a) (primitiveId a) in H.
    apply lookup_insert_Some in H as [[Hk Hv]|[_ H]]; [|now left].
    right. exists a. repeat split; auto. now left.
  - right. exists t. repeat split; auto. now right.
Qed.

Lemma collectBrand_sound prim L : forall b k v,
  fold_left (V4.collectBrand prim) L b !! k = Some v ->
  b !! k = Some v
  \/ exists t p, In t L /\ pathKey t = k /\ V4.originalRef t = Some p
                 /\ prim !! p = Some v.
Proof.
  induction L as [|a L IH]; intros b k v H; [now left|].
  simpl in H. apply IH in H as [H|(t & p & Hin & Hk & Hr & Hv)].
  - unfold V4.collectBrand in H. fold (pathKey a) in H.
    destruct (V4.originalRef a) as [p|] eqn:Er; [|now left].
    destruct (prim !! p) as [name|] eqn:Ep; [|now left].
    apply lookup_insert_Some in H as [[Hk Hv]|[_ H]]; [|now left].
    right. exists a, p. subst. repeat split; auto. now left.
  - right. exists t, p. repeat split; auto. now right.
Qed.

Lemma V4_lookups_primitives i :
  V4.primitivePathMap (V4.lookups i)
  = fold_left V4.collectPrimitive (List.filter isColor (V4.primitiveTokens i)) ∅.
Proof. reflexivity. Qed.

Lemma primitive_value_id i k v :
  V4.primitivePathMap (V4.lookups i) !! k = Some v ->
  exists t, In t (V4.primitiveTokens i) /\ isColor t = true
            /\ pathKey t = k /\ v = primitiveId t.
Proof.
  rewrite V4_lookups_primitives. intros H.
  apply collectPrimitive_sound in H as [H|(t & Hin & Hk & Hv)].
  - now rewrite lookup_empty in H.
  - apply List.filter_In in Hin as [Hin Hc]. eauto.
Qed.

(** X14.  The primitive lookup of the fourth script has a key exactly
    for the dotted paths of the colour tokens of the primitive sources,
    whether their value is read as a colour or not, and the value
    under a key is the identifier of a colour token with that path. *)
Theorem primitive_lookup_exact (i : V4.Inputs) (k : string) :
  (is_Some (V4.primitivePathMap (V4.lookups i) !! k)
   <-> exists t, In t (V4.primitiveTokens i) /\ isColor t = true
                 /\ pathKey t = k)
  /\ (forall v,
        V4.primitivePathMap (V4.lookups i) !! k = Some v ->
        exists t, In t (V4.primitiveTokens i) /\ isColor t = true
                  /\ pathKey t = k /\ v = primitiveId t).
Proof.
  split; [split|].
  - intros [v H]. apply primitive_value_id in H as (t & ? & ? & ? & _). eauto.
  - intros (t & Hin & Hc & <-). rewrite V4_lookups_primitives.
    assert (Hin' : In t (List.filter isColor (V4.primitiveTokens i)))
      by (apply List.filter_In; auto).
    destruct (collectPrimitive_lookup _ ∅ t Hin') as (t' & _ & _ & ->).
    eauto.
  - intros v. apply primitive_value_id.
Qed.

(** X14, at the trial inputs: the key of the [leg] primitive. *)
Lemma primitive_lookup_exact_witness :
  exists t, In t (V4.primitiveTokens sampleInputs) /\ isColor t = true
            /\ pathKey t = "wel.prim.color.leg.navalblue"
            /\ "AccorColorPrimitives.NavalBlue" = primitiveId t.
Proof.
  exact (proj2 (primitive_lookup_exact sampleInputs
                  "wel.prim.color.leg.navalblue")
           "AccorColorPrimitives.NavalBlue" eq_refl).
Defined.

(** X15.  Every entry of the brand lookup comes from a colour token
    under [wel.web.bSem] whose original value refers to a path of the
    primitive lookup, and holds the identifier found there: a brand
    token that refers to another brand token, or to an unknown path,
    adds no entry. *)
Theorem brand_lookup_sound (i : V4.Inputs) (k v : string) :
  V4.brandbookPathMap (V4.lookups i) !! k = Some v ->
  exists t p,
    In t (V4.brandTokens i) /\ hasPrefix3 "web" "bSem" t = true
    /\ isColor t = true /\ pathKey t = k /\ refersTo t p
    /\ V4.primitivePathMap (V4.lookups i) !! p = Some v.
Proof.
  unfold V4.lookups at 1, V4.brandbookCollect. simpl. intros H.
  apply collectBrand_sound in H as [H|(t & p & Hin & Hk & Hr & Hv)].
  - now rewrite lookup_empty in H.
  - apply List.filter_In in Hin as [Hin Hc].
    apply List.filter_In in Hin as [Hin Hp].
    exists t, p. repeat split; auto.
    + now apply originalRef_inv in Hr as (? & ? & ?).
    + now apply originalRef_inv in Hr as (? & ? & ?).
    + now apply originalRef_inv in Hr as (? & ? & ?).
Qed.

(** X15, at the trial inputs: the brand token [wel.web.bSem.brand]. *)
Lemma brand_lookup_sound_witness :
  exists t p,
    In t (V4.brandTokens sampleInputs) /\ hasPrefix3 "web" "bSem" t = true
    /\ isColor t = true /\ pathKey t = "wel.web.bSem.brand" /\ refersTo t p
    /\ V4.primitivePathMap (V4.lookups sampleInputs) !! p
       = Some "AccorColorPrimitives.Blue500".
Proof.
  exact (brand_lookup_sound sampleInputs "wel.web.bSem.brand"
           "AccorColorPrimitives.Blue500" eq_refl).
Defined.

(** ** The primitives document: its lines *)

Lemma insertBy_perm {A} (compare : A -> A -> Z) x l :
  Permutation (insertBy compare x l) (x :: l).
Proof.
  induction l as [|y l IH]; simpl; [reflexivity|].
  destruct (compare x y <? 0); [reflexivity|].
  rewrite IH. apply perm_swap.
Qed.

Lemma sortBy_fold_perm {A} (compare : A -> A -> Z) l : forall acc,
  Permutation (fold_left (fun acc x => insertBy compare x acc) l acc)
    (acc ++ l).
Proof.
  induction l as [|x l IH]; intros acc; simpl.
  - now rewrite app_nil_r.
  - rewrite IH, insertBy_perm. simpl. apply Permutation_middle.
Qed.

(** the sort keeps the items, whatever the comparison *)
Lemma sortBy_perm {A} (compare : A -> A -> Z) l :
  Permutation (sortBy compare l) l.
Proof. unfold sortBy. now rewrite sortBy_fold_perm. Qed.

Lemma V4_primitiveItems_In t cc allTokens :
  In t allTokens -> V4.emitsPrimitive t = true ->
  toComposeColor (tokenValue t) = Some cc ->
  In (V4.toPrimitiveKotlinName (path t), primitiveLineOf t cc)
    (V4.primitiveItems allTokens).
Proof.
  intros Hin He Hc. unfold V4.primitiveItems.
  apply list_elem_of_In, list_elem_of_omap. exists t. split.
  - apply list_elem_of_In, List.filter_In. auto.
  - unfold V4.primitiveItem. now rewrite Hc.
Qed.

Lemma V4_primitives_includes localeCompare packageName objectName allTokens
  item :
  In item (V4.primitiveItems allTokens) ->
  includes
    (V4.composePrimitives localeCompare packageName objectName allTokens)
    (snd item) = true.
Proof.
  intros Hin. unfold V4.composePrimitives.
  set (sorted := sortBy _ (V4.primitiveItems allTokens)).
  assert (Hs : In (snd item) (map snd sorted)).
  { apply in_map. eapply Permutation_in; [|exact Hin].
    symmetry. apply sortBy_perm. }
  eapply includes_trans; [|apply (includes_join nl _ _ Hs)].
  apply includes_join. simpl. tauto.
Qed.

(** X16.  The lines of the primitives document are those of the colour
    tokens outside the [leg] group that have a colour, each once for
    each such token, in some order, whatever comparison the platform
    gives for [localeCompare]: the line of every such token is in the
    document. *)
Theorem primitives_document_lines (localeCompare : string -> string -> Z)
  (packageName objectName : option string) (allTokens : list Token) :
  Permutation
    (map snd
       (sortBy (fun a b => localeCompare (fst a) (fst b))
          (V4.primitiveItems allTokens)))
    (map snd (V4.primitiveItems allTokens))
  /\ (forall t composeColor,
        In t allTokens -> V4.emitsPrimitive t = true ->
        toComposeColor (tokenValue t) = Some composeColor ->
        includes
          (V4.composePrimitives localeCompare packageName objectName
             allTokens)
          (primitiveLineOf t composeColor) = true).
Proof.
  split.
  - apply Permutation_map, sortBy_perm.
  - intros t cc Hin He Hc.
    apply (V4_primitives_includes localeCompare packageName objectName
             allTokens _ (V4_primitiveItems_In t cc allTokens Hin He Hc)).
Qed.

(** X16, at the trial inputs: the line of [Blue500]. *)
Lemma primitives_document_lines_witness :
  includes
    (V4.composePrimitives (fun _ _ => 0) None None
       (V4.primitiveTokens sampleInputs))
    "    val Blue500 = Color(0xFF0047AB)" = true.
Proof.
  exact (proj2 (primitives_document_lines (fun _ _ => 0) None None
                  (V4.primitiveTokens sampleInputs))
           (colorToken ["wel"; "prim"; "color"; "blue"; "500"] "#0047AB"
              "#0047AB")
           "Color(0xFF0047AB)" (or_introl eq_refl) eq_refl eq_refl).
Defined.

(** ** References and their definitions *)

Lemma assign_valuesAll P name mode v reg :
  P v -> Forall (fun e => valuesAll P (snd e)) reg ->
  Forall (fun e => valuesAll P (snd e)) (assign name mode v reg).
Proof.
  intros Hv H. induction H as [|[n c] reg Hc Hreg IH]; simpl; [constructor|].
  destruct (String.eqb n name).
  - constructor; [|exact Hreg]. destruct Hc as [Hl Hd].
    destruct mode; split; simpl; auto; now intros ? [= <-].
  - constructor; assumption.
Qed.

Lemma store_valuesAll P name mode v reg :
  P v -> Forall (fun e => valuesAll P (snd e)) reg ->
  Forall (fun e => valuesAll P (snd e)) (store name mode v reg).
Proof.
  intros Hv H. unfold store. apply assign_valuesAll; [exact Hv|].
  destruct (has name reg); [exact H|].
  apply Forall_app. split; [exact H|].
  constructor; [|constructor]. split; simpl; discriminate.
Qed.

Lemma V4_fold_valuesAll P mode L : forall st,
  (forall t cc,
     In t L -> toComposeColor (tokenValue t) = Some cc ->
     P (V4.refOrColor (V4.getPrimitiveRef st t) cc)) ->
  Forall (fun e => valuesAll P (snd e)) (V4.semanticColorsMap st) ->
  Forall (fun e => valuesAll P (snd e))
    (V4.semanticColorsMap (fold_left (V4.collectToken mode) L st)).
Proof.
  induction L as [|a L IH]; intros st HP H; [exact H|]. simpl.
  apply IH.
  - intros t cc Hin Hc.
    rewrite (getPrimitiveRef_maps st (V4.collectToken mode st a) t);
      try apply V4_collectToken_maps.
    apply HP; [now right|exact Hc].
  - unfold V4.collectToken.
    destruct (toComposeColor (tokenValue a)) as [cc|] eqn:Hc; [|exact H].
    simpl. apply store_valuesAll; [|exact H].
    apply HP; [now left|exact Hc].
Qed.

(** what [getPrimitiveRef] returns is a primitive identifier *)
Lemma getPrimitiveRef_id i st t s :
  V4.primitivePathMap st = V4.primitivePathMap (V4.lookups i) ->
  V4.brandbookPathMap st = V4.brandbookPathMap (V4.lookups i) ->
  V4.getPrimitiveRef st t = Some s -> isPrimitiveId i s.
Proof.
  intros H1 H2. unfold V4.getPrimitiveRef. rewrite H1, H2.
  destruct (V4.originalRef t) as [p|]; [|discriminate].
  destruct (V4.primitivePathMap (V4.lookups i) !! p) as [n|] eqn:Ep.
  - intros [= <-]. apply primitive_value_id in Ep as (t' & ? & ? & _ & ?).
    now exists t'.
  - destruct (V4.brandbookPathMap (V4.lookups i) !! p) as [n|] eqn:Eb;
      [|discriminate].
    intros [= <-].
    destruct (proj2 (lookups_ids i) p n Eb) as [q Eq].
    apply primitive_value_id in Eq as (t' & ? & ? & _ & ?).
    now exists t'.
Qed.

Lemma refOrColor_cases r cc :
  V4.refOrColor r cc = cc \/ r = Some (V4.refOrColor r cc).
Proof.
  unfold V4.refOrColor, orDefault. destruct r as [s|]; [|now left].
  destruct (String.eqb s ""); [now left|now right].
Qed.

(** the values of the registry the fourth script builds *)
Lemma V4_collected_values i :
  Forall (fun e => valuesAll (fun v => isTokenColor i v \/ isPrimitiveId i v)
                     (snd e))
    (V4.semanticColorsMap (V4.collected i)).
Proof.
  unfold V4.collected, V4.semanticCollect.
  set (P := fun v => isTokenColor i v \/ isPrimitiveId i v).
  assert (Hstep : forall st t cc,
             V4.primitivePathMap st = V4.primitivePathMap (V4.lookups i) ->
             V4.brandbookPathMap st = V4.brandbookPathMap (V4.lookups i) ->
             In t (V4.lightTokens i ++ V4.darkTokens i) ->
             toComposeColor (tokenValue t) = Some cc ->
             P (V4.refOrColor (V4.getPrimitiveRef st t) cc)).
  { intros st t cc H1 H2 Hin Hc.
    destruct (refOrColor_cases (V4.getPrimitiveRef st t) cc) as [->|E].
    - left. now exists t.
    - right. symmetry in E. now apply (getPrimitiveRef_id i st t). }
  apply V4_fold_valuesAll.
  - intros t cc Hin Hc. apply Hstep; auto; try apply V4_fold_maps.
    apply in_or_app. right.
    apply List.filter_In in Hin as [Hin _].
    now apply List.filter_In in Hin as [Hin _].
  - apply V4_fold_valuesAll.
    + intros t cc Hin Hc. apply Hstep; auto.
      apply in_or_app. left.
      apply List.filter_In in Hin as [Hin _].
      now apply List.filter_In in Hin as [Hin _].
    + rewrite V4_lookups_registry. constructor.
Qed.

Lemma orDefault_cases o d : orDefault o d = d \/ o = Some (orDefault o d).
Proof.
  unfold orDefault. destruct o as [s|]; [|now left].
  destruct (String.eqb s ""); [now left|now right].
Qed.

(** X17.  Every value of the semantics document is [Color.Unspecified],
    the colour of a token of the light or the dark build, or the
    identifier of a colour token of the primitive sources; and when no
    primitive is in the [leg] group and every primitive has a colour,
    each such identifier is defined by a line of the primitives
    document. *)
Theorem references_defined (localeCompare : string -> string -> Z)
  (i : V4.Inputs) (name l d v : string) :
  In (name, l, d) (V4.entries (V4.semanticColorsMap (V4.collected i))) ->
  v = l \/ v = d ->
  (v = "Color.Unspecified" \/ isTokenColor i v \/ isPrimitiveId i v)
  /\ ((forall t, In t (V4.primitiveTokens i) -> isColor t = true ->
         V4.emitsPrimitive t = true /\ hasColor t = true) ->
      isPrimitiveId i v ->
      exists t composeColor,
        In t (V4.primitiveTokens i) /\ v = primitiveId t
        /\ toComposeColor (tokenValue t) = Some composeColor
        /\ includes (fst (V4.buildTokens localeCompare i))
             (primitiveLineOf t composeColor) = true).
Proof.
  intros Hin Hv. split.
  - unfold V4.entries in Hin.
    rewrite sortBy_ordered in Hin by apply V4_collected_ordered.
    apply in_map_iff in Hin as ([n c] & E & Hin). injection E as -> <- <-.
    pose proof (V4_collected_values i) as Hall.
    rewrite List.Forall_forall in Hall.
    destruct (Hall _ Hin) as [Hl Hd]. simpl in Hl, Hd.
    assert (HL : V4.lightOf c = "Color.Unspecified"
                 \/ isTokenColor i (V4.lightOf c)
                 \/ isPrimitiveId i (V4.lightOf c)).
    { unfold V4.lightOf.
      destruct (orDefault_cases (c_light c) "Color.Unspecified") as [->|E];
        [now left|right]. now apply Hl. }
    destruct Hv as [->| ->]; [exact HL|].
    unfold V4.darkOf.
    destruct (orDefault_cases (c_dark c)
                (orDefault (c_light c) "Color.Unspecified")) as [->|E];
      [exact HL|right]. now apply Hd.
  - intros Hprims (t & Ht & Hc & ->).
    destruct (Hprims t Ht Hc) as [He Hh]. unfold hasColor in Hh.
    destruct (toComposeColor (tokenValue t)) as [cc|] eqn:Ecc;
      [|discriminate].
    exists t, cc. repeat split; auto.
    change (fst (V4.buildTokens localeCompare i))
      with (V4.composePrimitives localeCompare
              (Some "com.accor.designsystem.compose")
              (Some "AccorColorPrimitives") (V4.primitiveTokens i)).
    apply (V4_primitives_includes _ _ _ _ _
             (V4_primitiveItems_In t cc _ Ht He Ecc)).
Qed.

(** X17, at inputs without a [leg] primitive: the reference of
    [TextDefault] is defined by the line of [Blue500]. *)
Lemma references_defined_witness :
  exists t composeColor,
    In t (V4.primitiveTokens plainInputs)
    /\ "AccorColorPrimitives.Blue500" = primitiveId t
    /\ toComposeColor (tokenValue t) = Some composeColor
    /\ includes (fst (V4.buildTokens (fun _ _ => 0) plainInputs))
         (primitiveLineOf t composeColor) = true.
Proof.
  apply (proj2 (references_defined (fun _ _ => 0) plainInputs "TextDefault"
                  "AccorColorPrimitives.Blue500"
                  "AccorColorPrimitives.Blue500"
                  "AccorColorPrimitives.Blue500"
                  (or_introl eq_refl) (or_introl eq_refl))).
  - intros t [<-|[]] _. split; reflexivity.
  - exists (colorToken ["wel"; "prim"; "color"; "blue"; "500"] "#0047AB"
              "#0047AB").
    split; [now left|]. split; reflexivity.
Defined.

(** ** The document of one mode in the later scripts *)

Lemma omap_filter {A B} (g : A -> option B) (p : A -> bool) l :
  omap g (List.filter p l) = omap (fun x => if p x then g x else None) l.
Proof.
  induction l as [|x l IH]; [reflexivity|]. simpl.
  fold (omap (fun x => if p x then g x else None) l).
  destruct (p x); simpl; fold (omap g (List.filter p l)); now rewrite IH.
Qed.

Lemma V2_semanticLine_V1 t :
  V2.semanticLine t
  = if negb (isInteractionState t) then V1.semanticLine t else None.
Proof.
  unfold V2.semanticLine, V1.semanticLine, V2.accepts, V2.semanticName.
  destruct (isColor t), (isInteractionState t); reflexivity.
Qed.

(** X18.  From the second script on the document of one mode,
    [compose/semantic], is the document the first script writes for the
    tokens that are no interaction state: a token whose path has a
    segment holding [hover] or [pressed] gets no line. *)
Theorem single_mode_document (packageName objectName : option string)
  (allTokens : list Token) :
  V2.composeSemantic packageName objectName allTokens
  = V1.composeSemantic packageName objectName
      (List.filter (fun t => negb (isInteractionState t)) allTokens)
  /\ (forall l1 t l2,
        indicatesInteraction t ->
        V2.composeSemantic packageName objectName (l1 ++ t :: l2)
        = V2.composeSemantic packageName objectName (l1 ++ l2)).
Proof.
  assert (E : forall l, omap V2.semanticLine l
                        = omap V1.semanticLine
                            (List.filter
                               (fun t => negb (isInteractionState t)) l)).
  { intros l. rewrite omap_filter. apply list_omap_ext.
    induction l; constructor; auto. apply V2_semanticLine_V1. }
  split.
  - unfold V2.composeSemantic, V1.composeSemantic. now rewrite E.
  - intros l1 t l2 H. unfold V2.composeSemantic.
    rewrite (omap_skip V2.semanticLine l1 t l2); [reflexivity|].
    rewrite V2_semanticLine_V1.
    now rewrite (indicatesInteraction_test t H).
Qed.

(** X18, at the token [wel.sem.color.text-hover]. *)
Lemma single_mode_document_witness :
  V2.composeSemantic None None [hoverToken] = V2.composeSemantic None None [].
Proof.
  exact (proj2 (single_mode_document None None []) [] hoverToken []
           hoverToken_indicates).
Defined.

(** ** The third script: references by colour *)

Lemma toComposeColor_shape v c :
  toComposeColor v = Some c -> startsWith c "Color(0x" = true.
Proof.
  unfold toComposeColor. destruct v as [|s|b]; try discriminate.
  destruct (negb (truthy (JString s))); [discriminate|].
  destruct (startsWith s "{" && endsWith s "}"); [discriminate|].
  destruct (rgbaMatch s) as [[[[r g] b] a]|].
  { intros [= <-]. apply startsWith_append. }
  destruct (hexMatch s).
  { intros [= <-]. change "Color(0xFF" with ("Color(0x" +:+ "FF").
    rewrite append_assoc. apply startsWith_append. }
  destruct (hexAlphaMatch s); [|discriminate].
  intros [= <-]. apply startsWith_append.
Qed.

(** the colour of a token is a text that [toPrimitiveRef] looks up *)
Lemma V3_toPrimitiveRef_color m v c :
  toComposeColor v = Some c ->
  V3.toPrimitiveRef m (Some c) = orDefault (m !! c) c.
Proof.
  intros H. apply toComposeColor_shape in H. unfold V3.toPrimitiveRef.
  destruct (String.eqb_spec c "") as [->|_]; [discriminate|].
  destruct (String.eqb_spec c "Color.Unspecified") as [->|_]; [discriminate|].
  reflexivity.
Qed.

Lemma V3_fold_primitive_other cc L : forall m,
  Forall (fun t => toComposeColor (tokenValue t) <> Some cc) L ->
  fold_left V3.collectPrimitive L m !! cc = m !! cc.
Proof.
  induction L as [|a L IH]; intros m H; [reflexivity|].
  inversion H as [|? ? Ha HL]; subst. simpl. rewrite IH by exact HL.
  unfold V3.collectPrimitive.
  destruct (toComposeColor (tokenValue a)) as [c|]; [|reflexivity].
  apply lookup_insert_ne. congruence.
Qed.

Lemma V3_values_of_entry m v c x :
  toComposeColor v = Some c -> orDefault (m !! c) c = x -> x <> "" ->
  forall e,
    (c_light e = Some c -> V3.lightOf m e = x)
    /\ (c_dark e = Some c -> V3.darkOf m e = x).
Proof.
  intros Hc Hx Hne e.
  pose proof (V3_toPrimitiveRef_color m v c Hc) as E. rewrite Hx in E.
  pose proof (toComposeColor_nonempty v c Hc) as Hcne.
  split; intros H.
  - unfold V3.lightOf. rewrite H, E. now apply orDefault_some.
  - unfold V3.darkOf. rewrite H. unfold V3.firstTruthy.
    destruct (String.eqb_spec c "") as [->|_]; [congruence|].
    rewrite E. now apply orDefault_some.
Qed.

(** X19.  The third script finds the reference of a semantic value by
    its colour: the value is written as the identifier of the last
    colour token of the primitive sources that has the same colour,
    whichever primitive the semantic token referred to. *)
Theorem V3_reference_by_colour (i : V3.Inputs) (l1 l2 : list Token)
  (t : Token) (composeColor : string) :
  List.filter isColor (V3.primitiveTokens i) = l1 ++ t :: l2 ->
  toComposeColor (tokenValue t) = Some composeColor ->
  Forall (fun t' => toComposeColor (tokenValue t') <> Some composeColor) l2 ->
  V3.primitiveColorMap i !! composeColor = Some (V3_primitiveId t)
  /\ forall c,
       (c_light c = Some composeColor ->
        V3.lightOf (V3.primitiveColorMap i) c = V3_primitiveId t)
       /\ (c_dark c = Some composeColor ->
           V3.darkOf (V3.primitiveColorMap i) c = V3_primitiveId t).
Proof.
  intros HL Hc Hl2.
  assert (Hm : V3.primitiveColorMap i !! composeColor
               = Some (V3_primitiveId t)).
  { unfold V3.primitiveColorMap, V3.primitivesCollect.
    rewrite HL, fold_left_app. simpl.
    rewrite V3_fold_primitive_other by exact Hl2.
    unfold V3.collectPrimitive. rewrite Hc. apply lookup_insert_eq. }
  split; [exact Hm|].
  apply (V3_values_of_entry _ (tokenValue t)); [exact Hc| |discriminate].
  rewrite Hm. reflexivity.
Qed.

(** X19, at two primitives of the colour [#0047AB]: the second names
    the reference. *)
Lemma V3_reference_by_colour_witness :
  V3.lightOf
    (V3.primitiveColorMap
       (V3.mkInputs
          [ colorToken ["wel"; "prim"; "color"; "blue"; "500"] "#0047AB" "";
            colorToken ["wel"; "prim"; "color"; "royal"; "1"] "#0047ab" "" ]
          [] []))
    (mkColors 0 (Some "Color(0xFF0047AB)") None)
  = "AccorColorPrimitives.Royal1".
Proof.
  exact (proj1 (proj2 (V3_reference_by_colour
                  (V3.mkInputs
                     [ colorToken ["wel"; "prim"; "color"; "blue"; "500"]
                         "#0047AB" "";
                       colorToken ["wel"; "prim"; "color"; "royal"; "1"]
                         "#0047ab" "" ]
                     [] [])
                  [ colorToken ["wel"; "prim"; "color"; "blue"; "500"]
                      "#0047AB" "" ]
                  []
                  (colorToken ["wel"; "prim"; "color"; "royal"; "1"]
                     "#0047ab" "")
                  "Color(0xFF0047AB)" eq_refl eq_refl (List.Forall_nil _))
                  (mkColors 0 (Some "Color(0xFF0047AB)") None)) eq_refl).
Defined.

(** X20.  In the third script a semantic value whose colour no colour
    token of the primitive sources has is written as the colour
    itself. *)
Theorem V3_literal_kept (i : V3.Inputs) (token : Token)
  (composeColor : string) :
  toComposeColor (tokenValue token) = Some composeColor ->
  (forall t, In t (V3.primitiveTokens i) -> isColor t = true ->
     toComposeColor (tokenValue t) <> Some composeColor) ->
  V3.primitiveColorMap i !! composeColor = None
  /\ forall c,
       (c_light c = Some composeColor ->
        V3.lightOf (V3.primitiveColorMap i) c = composeColor)
       /\ (c_dark c = Some composeColor ->
           V3.darkOf (V3.primitiveColorMap i) c = composeColor).
Proof.
  intros Hc Hnone.
  assert (Hm : V3.primitiveColorMap i !! composeColor = None).
  { unfold V3.primitiveColorMap, V3.primitivesCollect.
    rewrite V3_fold_primitive_other; [apply lookup_empty|].
    apply List.Forall_forall. intros t Hin.
    apply List.filter_In in Hin as [Hin Hcol]. now apply Hnone. }
  split; [exact Hm|].
  apply (V3_values_of_entry _ (tokenValue token)); [exact Hc| |].
  - rewrite Hm. reflexivity.
  - now apply (toComposeColor_nonempty (tokenValue token)).
Qed.

(** X20, at a colour no primitive has. *)
Lemma V3_literal_kept_witness :
  V3.lightOf
    (V3.primitiveColorMap
       (V3.mkInputs
          [ colorToken ["wel"; "prim"; "color"; "blue"; "500"] "#0047AB" "" ]
          [] []))
    (mkColors 0 (Some "Color(0xFF000000)") None)
  = "Color(0xFF000000)".
Proof.
  refine (proj1 (proj2 (V3_literal_kept
                   (V3.mkInputs
                      [ colorToken ["wel"; "prim"; "color"; "blue"; "500"]
                          "#0047AB" "" ]
                      [] [])
                   (colorToken ["wel"; "sem"; "color"; "night"] "#000000" "")
                   "Color(0xFF000000)" eq_refl _)
                   (mkColors 0 (Some "Color(0xFF000000)") None)) eq_refl).
  intros t [<-|[]] _. discriminate.
Defined.

(** ** The third script: a mode that is missing *)

Lemma V3_document_includes pkg obj m reg e :
  In e (V3.entries m reg) ->
  includes (V3.generateMergedSemanticColors pkg obj m reg) (V3.renderEntry e)
  = true.
Proof.
  intros H. unfold V3.generateMergedSemanticColors.
  eapply includes_trans.
  - apply includes_join. do 10 right. left. reflexivity.
  - apply includes_join. now apply in_map.
Qed.

Lemma V3_entries_In m reg name c :
  In (name, c) reg ->
  In (name, V3.lightOf m c, V3.darkOf m c) (V3.entries m reg).
Proof.
  intros H. unfold V3.entries.
  apply (in_map (fun '(name, colors) =>
                   (name, V3.lightOf m colors, V3.darkOf m colors))
           _ (name, c)).
  eapply Permutation_in; [|exact H]. symmetry. apply sortBy_perm.
Qed.

Lemma V3_document_accessor pkg obj m reg name l d :
  In (name, l, d) (V3.entries m reg) ->
  includes (V3.generateMergedSemanticColors pkg obj m reg)
    ("    val " +:+ name +:+ nl
     +:+ "        @Composable" +:+ nl
     +:+ "        get() = getColor(light = " +:+ l +:+ ", dark = " +:+ d
     +:+ ")") = true.
Proof. intros H. apply (V3_document_includes pkg obj m reg (name, l, d) H). Qed.

Lemma V3_fold_valuesAll P mode L : forall reg,
  (forall t cc, In t L -> toComposeColor (tokenValue t) = Some cc -> P cc) ->
  Forall (fun e => valuesAll P (snd e)) reg ->
  Forall (fun e => valuesAll P (snd e))
    (fold_left (V3.collectToken mode) L reg).
Proof.
  induction L as [|a L IH]; intros reg HP H; [exact H|]. simpl.
  apply IH; [intros t cc Hin; apply HP; now right|].
  unfold V3.collectToken.
  destruct (toComposeColor (tokenValue a)) as [cc|] eqn:Hc; [|exact H].
  apply store_valuesAll; [|exact H]. apply (HP a cc); [now left|exact Hc].
Qed.

(** the values of the registry of the third script are colours *)
Lemma V3_collected_colours i :
  Forall (fun e => valuesAll (fun v => exists x, toComposeColor x = Some v)
                     (snd e))
    (V3.collected i).
Proof.
  unfold V3.collected, V3.semanticCollect.
  apply V3_fold_valuesAll; [intros t cc _ Hc; now exists (tokenValue t)|].
  apply V3_fold_valuesAll; [intros t cc _ Hc; now exists (tokenValue t)|].
  constructor.
Qed.

Lemma V3_fold_primitive_filled L : forall m : gmap string string,
  (forall k v, m !! k = Some v -> v <> "") ->
  forall k v, fold_left V3.collectPrimitive L m !! k = Some v -> v <> "".
Proof.
  induction L as [|a L IH]; intros m Hm; [exact Hm|]. simpl. apply IH.
  unfold V3.collectPrimitive.
  destruct (toComposeColor (tokenValue a)) as [cc|]; [|exact Hm].
  intros k v Hk. apply lookup_insert_Some in Hk as [[_ <-]|[_ Hk]].
  - discriminate.
  - now apply (Hm k).
Qed.

(** a colour is written as the identifier its map has, or as itself *)
Lemma V3_reference_or_colour i x c :
  toComposeColor x = Some c ->
  V3.toPrimitiveRef (V3.primitiveColorMap i) (Some c)
  = default c (V3.primitiveColorMap i !! c)
  /\ default c (V3.primitiveColorMap i !! c) <> "".
Proof.
  intros Hc. rewrite (V3_toPrimitiveRef_color _ x c Hc).
  pose proof (toComposeColor_nonempty x c Hc) as Hne.
  destruct (V3.primitiveColorMap i !! c) as [v|] eqn:E; simpl.
  - assert (Hv : v <> "").
    { apply (V3_fold_primitive_filled
               (List.filter isColor (V3.primitiveTokens i)) ∅
               ltac:(intros k w Hk; now rewrite lookup_empty in Hk) c v).
      exact E. }
    split; [now apply orDefault_some|exact Hv].
  - split; [reflexivity|exact Hne].
Qed.

(** X21.  In the third script too a missing mode is filled in.  A name
    stored with the light colour [l] and no dark value gets the
    accessor whose light and dark values are both the identifier the
    colour map has for [l], or [l] itself when the map has none; a name
    stored with the dark colour [d] and no light value gets the light
    value [Color.Unspecified] and, as dark value, the identifier of [d]
    or [d] itself.  The text of the accessor is in the semantics
    document [buildTokens] writes. *)
Theorem V3_missing_mode (localeCompare : string -> string -> Z)
  (i : V3.Inputs) (name : string) (c : Colors) :
  get name (V3.collected i) = Some c ->
  (forall l,
     c_light c = Some l -> c_dark c = None ->
     In (name, default l (V3.primitiveColorMap i !! l),
         default l (V3.primitiveColorMap i !! l))
       (V3.entries (V3.primitiveColorMap i) (V3.collected i))
     /\ includes (snd (V3.buildTokens localeCompare i))
          ("    val " +:+ name +:+ nl
           +:+ "        @Composable" +:+ nl
           +:+ "        get() = getColor(light = "
           +:+ default l (V3.primitiveColorMap i !! l)
           +:+ ", dark = " +:+ default l (V3.primitiveColorMap i !! l)
           +:+ ")") = true)
  /\ (forall d,
        c_light c = None -> c_dark c = Some d ->
        In (name, "Color.Unspecified",
            default d (V3.primitiveColorMap i !! d))
          (V3.entries (V3.primitiveColorMap i) (V3.collected i))
        /\ includes (snd (V3.buildTokens localeCompare i))
             ("    val " +:+ name +:+ nl
              +:+ "        @Composable" +:+ nl
              +:+ "        get() = getColor(light = Color.Unspecified"
              +:+ ", dark = " +:+ default d (V3.primitiveColorMap i !! d)
              +:+ ")") = true).
Proof.
  intros Hget. apply get_In in Hget.
  pose proof (V3_entries_In (V3.primitiveColorMap i) _ _ _ Hget) as Hin.
  pose proof (V3_collected_colours i) as Hvals.
  rewrite List.Forall_forall in Hvals.
  destruct (Hvals _ Hget) as [Hvl Hvd]. simpl in Hvl, Hvd.
  split.
  - intros l Hl Hd. destruct (Hvl l Hl) as [x Hx].
    destruct (V3_reference_or_colour i x l Hx) as [E Hne].
    assert (El : V3.lightOf (V3.primitiveColorMap i) c
                 = default l (V3.primitiveColorMap i !! l)).
    { unfold V3.lightOf. rewrite Hl, E. now apply orDefault_some. }
    assert (Ed : V3.darkOf (V3.primitiveColorMap i) c
                 = default l (V3.primitiveColorMap i !! l)).
    { unfold V3.darkOf. rewrite Hl, Hd. cbn [V3.firstTruthy].
      rewrite E. now apply orDefault_some. }
    rewrite El, Ed in Hin. split; [exact Hin|].
    apply (V3_document_accessor _ _ _ _ _ _ _ Hin).
  - intros d Hl Hd. destruct (Hvd d Hd) as [x Hx].
    destruct (V3_reference_or_colour i x d Hx) as [E Hne].
    pose proof (toComposeColor_nonempty x d Hx) as Hdne.
    assert (El : V3.lightOf (V3.primitiveColorMap i) c = "Color.Unspecified").
    { unfold V3.lightOf. now rewrite Hl. }
    assert (Ed : V3.darkOf (V3.primitiveColorMap i) c
                 = default d (V3.primitiveColorMap i !! d)).
    { unfold V3.darkOf. rewrite Hl, Hd. unfold V3.firstTruthy.
      destruct (String.eqb_spec d "") as [->|_]; [congruence|].
      rewrite E. now apply orDefault_some. }
    rewrite El, Ed in Hin. split; [exact Hin|].
    apply (V3_document_accessor _ _ _ _ _ _ _ Hin).
Qed.

(** X21, at the name [Raw], which the light build alone has, with the
    colour of the primitive [Blue500], and at the name [Night], which
    the dark build alone has. *)
Lemma V3_missing_mode_witness :
  includes (snd (V3.buildTokens (fun _ _ => 0) modeInputs))
    ("    val Raw" +:+ nl
     +:+ "        @Composable" +:+ nl
     +:+ "        get() = getColor(light = AccorColorPrimitives.Blue500"
     +:+ ", dark = AccorColorPrimitives.Blue500)") = true
  /\ includes (snd (V3.buildTokens (fun _ _ => 0) modeInputs))
       ("    val Night" +:+ nl
        +:+ "        @Composable" +:+ nl
        +:+ "        get() = getColor(light = Color.Unspecified"
        +:+ ", dark = Color(0xFF000000))") = true.
Proof.
  split.
  - exact (proj2 (proj1 (V3_missing_mode (fun _ _ => 0) modeInputs "Raw"
                           (mkColors 0 (Some "Color(0xFF0047AB)") None)
                           eq_refl)
                    "Color(0xFF0047AB)" eq_refl eq_refl)).
  - exact (proj2 (proj2 (V3_missing_mode (fun _ _ => 0) modeInputs "Night"
                           (mkColors 1 None (Some "Color(0xFF000000)"))
                           eq_refl)
                    "Color(0xFF000000)" eq_refl eq_refl)).
Defined.

(** ** The primitives document: its order *)

Section Sorting.

Context {A : Type} (compare : A -> A -> Z).

Hypothesis compare_opposite : forall a b, 0 < compare b a -> compare a b < 0.
Hypothesis compare_trans :
  forall a b c, compare a b <= 0 -> compare b c <= 0 -> compare a c <= 0.

Lemma insertBy_sorted x l :
  StronglySorted (fun a b => compare a b <= 0) l ->
  StronglySorted (fun a b => compare a b <= 0) (insertBy compare x l).
Proof.
  induction l as [|y l IH]; intros H; simpl.
  - constructor; constructor.
  - apply StronglySorted_inv in H as [Hl Hy].
    destruct (compare x y <? 0) eqn:E.
    + apply Z.ltb_lt in E. constructor.
      * constructor; assumption.
      * constructor; [lia|].
        eapply List.Forall_impl; [|exact Hy].
        intros z Hz. apply (compare_trans x y z); [lia|exact Hz].
    + apply Z.ltb_ge in E. constructor; [now apply IH|].
      assert (Hyx : compare y x <= 0).
      { destruct (Z_lt_le_dec 0 (compare y x)) as [Hlt|Hle]; [|exact Hle].
        apply compare_opposite in Hlt. lia. }
      eapply Permutation_Forall; [symmetry; apply insertBy_perm|].
      constructor; assumption.
Qed.

Lemma sortBy_sorted l :
  StronglySorted (fun a b => compare a b <= 0) (sortBy compare l).
Proof.
  unfold sortBy.
  assert (H : forall acc,
             StronglySorted (fun a b => compare a b <= 0) acc ->
             StronglySorted (fun a b => compare a b <= 0)
               (fold_left (fun acc x => insertBy compare x acc) l acc)).
  { induction l as [|x l IH]; intros acc Hacc; simpl; [exact Hacc|].
    apply IH. now apply insertBy_sorted. }
  apply H. constructor.
Qed.

End Sorting.

Lemma StronglySorted_map {A B} (f : A -> B) (R : B -> B -> Prop) l :
  StronglySorted (fun a b => R (f a) (f b)) l -> StronglySorted R (map f l).
Proof.
  induction 1 as [|x l Hl IH Hx]; simpl; constructor; [exact IH|].
  now apply List.Forall_map.
Qed.

Lemma insertBy_map {A B} (g : A -> B) (cmpA : A -> A -> Z)
  (cmpB : B -> B -> Z) x l :
  (forall a b, cmpB (g a) (g b) = cmpA a b) ->
  map g (insertBy cmpA x l) = insertBy cmpB (g x) (map g l).
Proof.
  intros H. induction l as [|y l IH]; [reflexivity|]. simpl.
  rewrite H. destruct (cmpA x y <? 0); [reflexivity|].
  simpl. now rewrite IH.
Qed.

(** sorting the images is the image of sorting *)
Lemma sortBy_map {A B} (g : A -> B) (cmpA : A -> A -> Z)
  (cmpB : B -> B -> Z) l :
  (forall a b, cmpB (g a) (g b) = cmpA a b) ->
  map g (sortBy cmpA l) = sortBy cmpB (map g l).
Proof.
  intros H. unfold sortBy.
  change (@nil B) with (map g []). generalize (@nil A).
  induction l as [|x l IH]; intros acc; [reflexivity|]. simpl.
  rewrite IH. f_equal. now apply insertBy_map.
Qed.

(** the items of [compose/primitives] are the lines of the names and
    colours it keeps *)
Lemma V4_primitiveItems_defs allTokens :
  V4.primitiveItems allTokens
  = map (fun d => (fst d, "    val " +:+ fst d +:+ " = " +:+ snd d))
      (omap primitiveDef (List.filter V4.emitsPrimitive allTokens)).
Proof.
  unfold V4.primitiveItems.
  induction (List.filter V4.emitsPrimitive allTokens) as [|t L IH];
    [reflexivity|].
  simpl. fold (omap V4.primitiveItem L). fold (omap primitiveDef L).
  unfold V4.primitiveItem at 1, primitiveDef at 1.
  destruct (toComposeColor (tokenValue t)); simpl; now rewrite IH.
Qed.

(** X22.  When [localeCompare] orders the names (a comparison that
    reverses its sign with its arguments and is transitive), the
    primitives document is its heading, one line [val name = colour]
    for each colour token outside the [leg] group that has a colour,
    and the closing brace, with the lines in the order of their names:
    no name comes after a name that follows it in the document. *)
Theorem primitives_sorted (localeCompare : string -> string -> Z)
  (packageName objectName : option string) (allTokens : list Token) :
  (forall a b, 0 < localeCompare b a -> localeCompare a b < 0) ->
  (forall a b c,
     localeCompare a b <= 0 -> localeCompare b c <= 0 ->
     localeCompare a c <= 0) ->
  exists defs : list (string * string),
    Permutation defs
      (omap primitiveDef (List.filter V4.emitsPrimitive allTokens))
    /\ StronglySorted (fun a b => localeCompare a b <= 0) (map fst defs)
    /\ V4.composePrimitives localeCompare packageName objectName allTokens
       = ("package " +:+ orDefault packageName "com.example.tokens")
         +:+ nl +:+ nl
         +:+ "import androidx.compose.ui.graphics.Color" +:+ nl +:+ nl
         +:+ ("@Suppress(" +:+ dquote +:+ "MagicNumber" +:+ dquote +:+ ")")
         +:+ nl
         +:+ ("internal object " +:+ orDefault objectName "Colors" +:+ " {")
         +:+ nl +:+ nl
         +:+ join nl
               (map (fun d => "    val " +:+ fst d +:+ " = " +:+ snd d) defs)
         +:+ nl +:+ "}" +:+ nl.
Proof.
  intros Hopp Htrans.
  exists (sortBy (fun a b => localeCompare (fst a) (fst b))
            (omap primitiveDef (List.filter V4.emitsPrimitive allTokens))).
  split; [apply sortBy_perm|]. split.
  - apply StronglySorted_map.
    apply (sortBy_sorted (fun a b => localeCompare (fst a) (fst b))).
    + intros a b. apply Hopp.
    + intros a b c. apply Htrans.
  - unfold V4.composePrimitives. rewrite V4_primitiveItems_defs.
    rewrite <- (sortBy_map
                  (fun d => (fst d, "    val " +:+ fst d +:+ " = " +:+ snd d))
                  (fun a b => localeCompare (fst a) (fst b))
                  (fun a b => localeCompare (fst a) (fst b)))
      by reflexivity.
    rewrite map_map. reflexivity.
Qed.

(** X22, at three primitives with the names compared by their lengths:
    [Red] comes before [Blue500] and [Pink50]. *)
Lemma primitives_sorted_witness :
  exists defs : list (string * string),
    Permutation defs
      [ ("Blue500", "Color(0xFF0047AB)"); ("Red", "Color(0xFFFF0000)");
        ("Pink50", "Color(0xFFFFC0CB)") ]
    /\ StronglySorted (fun a b => byLength a b <= 0) (map fst defs)
    /\ V4.composePrimitives byLength None None threePrimitives
       = ("package " +:+ "com.example.tokens")
         +:+ nl +:+ nl
         +:+ "import androidx.compose.ui.graphics.Color" +:+ nl +:+ nl
         +:+ ("@Suppress(" +:+ dquote +:+ "MagicNumber" +:+ dquote +:+ ")")
         +:+ nl
         +:+ ("internal object " +:+ "Colors" +:+ " {")
         +:+ nl +:+ nl
         +:+ join nl
               (map (fun d => "    val " +:+ fst d +:+ " = " +:+ snd d) defs)
         +:+ nl +:+ "}" +:+ nl.
Proof.
  apply (primitives_sorted byLength None None threePrimitives).
  - intros a b H. unfold byLength in *. lia.
  - intros a b c H1 H2. unfold byLength in *. lia.
Defined.

(** the primitives document of the three primitives *)
Example primitives_three_sorted :
  V4.composePrimitives byLength None None threePrimitives
  = join nl
      [ "package com.example.tokens"; "";
        "import androidx.compose.ui.graphics.Color"; "";
        "@Suppress(" +:+ dquote +:+ "MagicNumber" +:+ dquote +:+ ")";
        "internal object Colors {"; "";
        "    val Red = Color(0xFFFF0000)";
        "    val Pink50 = Color(0xFFFFC0CB)";
        "    val Blue500 = Color(0xFF0047AB)";
        "}"; "" ].
Proof. vm_compute. reflexivity. Qed.

(** ** The second script: letter case in primitive identifiers *)

Lemma sliceFrom_mapS f n : forall s,
  sliceFrom n (mapS f s) = mapS f (sliceFrom n s).
Proof. induction n as [|n IH]; intros [|c s]; simpl; auto. Qed.

Lemma sliceTo_mapS f n : forall s,
  sliceTo n (mapS f s) = mapS f (sliceTo n s).
Proof.
  induction n as [|n IH]; intros [|c s]; simpl; auto. now rewrite IH.
Qed.

Lemma toLowerChar_idem c : toLowerChar (toLowerChar c) = toLowerChar c.
Proof. each_char c; reflexivity. Qed.

Lemma toLowerCase_idem s : toLowerCase (toLowerCase s) = toLowerCase s.
Proof.
  unfold toLowerCase. rewrite mapS_mapS. apply mapS_ext, toLowerChar_idem.
Qed.

Lemma upperOf_toLowerChar c : upperOf (toLowerChar c) = upperOf c.
Proof. each_char c; reflexivity. Qed.

Lemma canonical_toLowerCase s :
  mapS toUpperChar (toLowerCase s) = mapS toUpperChar s.
Proof.
  unfold toLowerCase. rewrite mapS_mapS.
  apply mapS_ext, toUpperChar_toLowerChar.
Qed.

Lemma startsWithCI_lower p : forall s,
  startsWithCI (toLowerCase s) p = startsWithCI s p.
Proof.
  induction p as [|a p IH]; intros [|b s]; simpl; auto.
  unfold eqCI. now rewrite toUpperChar_toLowerChar, IH.
Qed.

Lemma stripPrefixCI_lower p s :
  stripPrefixCI p (toLowerCase s) = toLowerCase (stripPrefixCI p s).
Proof.
  unfold stripPrefixCI. rewrite startsWithCI_lower.
  destruct (startsWithCI s p); [|reflexivity].
  apply sliceFrom_mapS.
Qed.

Lemma endsWithCI_lower s p : endsWithCI (toLowerCase s) p = endsWithCI s p.
Proof.
  unfold endsWithCI.
  assert (El : String.length (toLowerCase s) = String.length s)
    by apply mapS_length.
  rewrite El.
  assert (Es : forall k, sliceFrom k (toLowerCase s)
                         = toLowerCase (sliceFrom k s))
    by (intros k; apply sliceFrom_mapS).
  now rewrite Es, canonical_toLowerCase.
Qed.

Lemma replaceTempSuffixCI_lower s :
  toLowerCase (replaceTempSuffixCI (toLowerCase s))
  = toLowerCase (replaceTempSuffixCI s).
Proof.
  unfold replaceTempSuffixCI. rewrite endsWithCI_lower.
  destruct (endsWithCI s "-temp"); [|apply toLowerCase_idem].
  assert (El : String.length (toLowerCase s) = String.length s)
    by apply mapS_length.
  assert (Es : forall k, sliceTo k (toLowerCase s)
                         = toLowerCase (sliceTo k s))
    by (intros k; apply sliceTo_mapS).
  rewrite El, Es.
  assert (Ea : forall a b, toLowerCase (a +:+ b)
                           = toLowerCase a +:+ toLowerCase b)
    by (intros a b; apply mapS_append).
  now rewrite !Ea, toLowerCase_idem.
Qed.

Lemma hyphen_toLowerChar c : Ascii.eqb (toLowerChar c) "-" = Ascii.eqb c "-".
Proof. each_char c; reflexivity. Qed.

Lemma splitAcc_lower s : forall cur,
  splitAcc "-" (toLowerCase cur) (toLowerCase s)
  = map toLowerCase (splitAcc "-" cur s).
Proof.
  induction s as [|c s IH]; intros cur; [reflexivity|]. simpl.
  rewrite hyphen_toLowerChar. destruct (Ascii.eqb c "-").
  - simpl. f_equal. apply (IH "").
  - rewrite <- IH. f_equal. unfold toLowerCase. now rewrite mapS_append.
Qed.

Lemma isDigit_toLowerChar c : isDigit (toLowerChar c) = isDigit c.
Proof. each_char c; reflexivity. Qed.

Lemma digit_toLowerChar c : isDigit c = true -> toLowerChar c = c.
Proof. each_char c; congruence. Qed.

Lemma allDigits_lower x : allDigits x = true -> toLowerCase x = x.
Proof.
  unfold allDigits. intros H. apply andb_true_iff in H as [_ H].
  induction x as [|c x IH]; [reflexivity|].
  simpl in H. apply andb_true_iff in H as [Hc H].
  change (toLowerCase (String c x))
    with (String (toLowerChar c) (toLowerCase x)).
  now rewrite (digit_toLowerChar c Hc), IH.
Qed.

Lemma allDigits_toLowerCase x : allDigits (toLowerCase x) = allDigits x.
Proof.
  unfold allDigits, toLowerCase. rewrite allS_mapS.
  rewrite (allS_ext _ isDigit x isDigit_toLowerChar).
  now destruct x.
Qed.

Lemma V2_primitivePart_lower x :
  V2.primitivePart (toLowerCase x) = V2.primitivePart x.
Proof.
  unfold V2.primitivePart. rewrite allDigits_toLowerCase.
  destruct (allDigits x) eqn:E; [now apply allDigits_lower|].
  destruct x as [|c x]; [reflexivity|].
  change (toLowerCase (String c x))
    with (String (toLowerChar c) (toLowerCase x)).
  cbn [charAt0 sliceFrom].
  now rewrite !toUpperCase_one, upperOf_toLowerChar, toLowerCase_idem.
Qed.

(** the identifier of a cleaned name does not depend on its case *)
Lemma V2_parts_lower s :
  join "" (map V2.primitivePart (split "-" (toLowerCase s)))
  = join "" (map V2.primitivePart (split "-" s)).
Proof.
  unfold split.
  change (splitAcc "-" "" (toLowerCase s))
    with (splitAcc "-" (toLowerCase "") (toLowerCase s)).
  rewrite (splitAcc_lower s ""), map_map.
  f_equal. apply map_ext. intros x. apply V2_primitivePart_lower.
Qed.

Lemma V2_name_lower path :
  V2.toPrimitiveKotlinName (map toLowerCase path)
  = V2.toPrimitiveKotlinName path.
Proof.
  unfold V2.toPrimitiveKotlinName, V2.stripPrefixes.
  assert (E : join "-" (map toLowerCase path) = toLowerCase (join "-" path)).
  { now rewrite toLowerCase_join. }
  rewrite E, !stripPrefixCI_lower.
  rewrite <- V2_parts_lower, replaceTempSuffixCI_lower.
  apply V2_parts_lower.
Qed.

(** X23.  The primitive identifier of the second script does not depend
    on the letter case of the path: two paths that differ in case only
    get the same identifier. *)
Theorem V2_identifier_ignores_case (path1 path2 : list string) :
  map toLowerCase path1 = map toLowerCase path2 ->
  V2.toPrimitiveKotlinName path1 = V2.toPrimitiveKotlinName path2.
Proof.
  intros H. rewrite <- (V2_name_lower path1), <- (V2_name_lower path2).
  now rewrite H.
Qed.

(** X23, at [wel.prim.color.Blue-Temp] and [WEL.PRIM.COLOR.bLUE-tEMP]. *)
Lemma V2_identifier_ignores_case_witness :
  V2.toPrimitiveKotlinName ["wel"; "prim"; "color"; "Blue-Temp"]
  = V2.toPrimitiveKotlinName ["WEL"; "PRIM"; "COLOR"; "bLUE-tEMP"].
Proof.
  exact (V2_identifier_ignores_case ["wel"; "prim"; "color"; "Blue-Temp"]
           ["WEL"; "PRIM"; "COLOR"; "bLUE-tEMP"] eq_refl).
Defined.

(** ** The tokens a build looks at *)

(** X24.  The builds are scoped by the path: a token of the light or
    the dark build that is not under [wel.sem.color] changes nothing in
    the semantics document of the fourth and the third script nor in
    the registry of the second, and a token of the brand build that is
    not under [wel.web.bSem] changes nothing in the lookups. *)
Theorem builds_scoped (t : Token) (l1 l2 other : list Token) :
  (hasPrefix3 "sem" "color" t = false ->
   (forall localeCompare prims brands,
      snd (V4.buildTokens localeCompare
             (V4.mkInputs prims brands (l1 ++ t :: l2) other))
      = snd (V4.buildTokens localeCompare
               (V4.mkInputs prims brands (l1 ++ l2) other))
      /\ snd (V4.buildTokens localeCompare
                (V4.mkInputs prims brands other (l1 ++ t :: l2)))
         = snd (V4.buildTokens localeCompare
                  (V4.mkInputs prims brands other (l1 ++ l2))))
   /\ (forall localeCompare prims,
         snd (V3.buildTokens localeCompare
                (V3.mkInputs prims (l1 ++ t :: l2) other))
         = snd (V3.buildTokens localeCompare
                  (V3.mkInputs prims (l1 ++ l2) other))
         /\ snd (V3.buildTokens localeCompare
                   (V3.mkInputs prims other (l1 ++ t :: l2)))
            = snd (V3.buildTokens localeCompare
                     (V3.mkInputs prims other (l1 ++ l2))))
   /\ V2.buildRegistry (l1 ++ t :: l2) other
      = V2.buildRegistry (l1 ++ l2) other
   /\ V2.buildRegistry other (l1 ++ t :: l2)
      = V2.buildRegistry other (l1 ++ l2))
  /\ (hasPrefix3 "web" "bSem" t = false ->
      forall prims lights darks,
        V4.lookups (V4.mkInputs prims (l1 ++ t :: l2) lights darks)
        = V4.lookups (V4.mkInputs prims (l1 ++ l2) lights darks)).
Proof.
  split; intros H.
  - pose proof (filter_skip (hasPrefix3 "sem" "color") l1 t l2 H) as E.
    repeat split; intros.
    + unfold V4.buildTokens, V4.collected. simpl. now rewrite E.
    + unfold V4.buildTokens, V4.collected. simpl. now rewrite E.
    + unfold V3.buildTokens, V3.collected. simpl. now rewrite E.
    + unfold V3.buildTokens, V3.collected. simpl. now rewrite E.
    + unfold V2.buildRegistry. now rewrite E.
    + unfold V2.buildRegistry. now rewrite E.
  - intros prims lights darks. unfold V4.lookups. simpl.
    now rewrite (filter_skip (hasPrefix3 "web" "bSem") l1 t l2 H).
Qed.

(** X24, at a primitive token among the tokens of the light build. *)
Lemma builds_scoped_witness :
  V2.buildRegistry [legToken] [] = V2.buildRegistry [] [].
Proof.
  exact (proj1 (proj2 (proj2 (proj1 (builds_scoped legToken [] [] [])
                                eq_refl)))).
Defined.

(** ** The primitives documents of the first two scripts *)

Lemma omap_In {A B} (g : A -> option B) l x y :
  In x l -> g x = Some y -> In y (omap g l).
Proof.
  intros Hin Hg. apply list_elem_of_In, list_elem_of_omap.
  exists x. split; [now apply list_elem_of_In|exact Hg].
Qed.

(** X25.  The first two scripts leave no colour token out of their
    primitives document: every token of the colour type that has a
    colour has its line there, the [leg] group included; and in the
    first script every such token has its line in the document of a
    mode. *)
Theorem early_documents_lines (packageName objectName : option string)
  (allTokens : list Token) (t : Token) (composeColor : string) :
  In t allTokens -> isColor t = true ->
  toComposeColor (tokenValue t) = Some composeColor ->
  includes (V1.composePrimitives packageName objectName allTokens)
    ("    val " +:+ V1.toPrimitiveKotlinName (path t) +:+ " = "
     +:+ composeColor) = true
  /\ includes (V2.composePrimitives packageName objectName allTokens)
       ("    val " +:+ V2.toPrimitiveKotlinName (path t) +:+ " = "
        +:+ composeColor) = true
  /\ includes (V1.composeSemantic packageName objectName allTokens)
       ("    val " +:+ V1.semanticName (path t) +:+ " = "
        +:+ composeColor) = true.
Proof.
  intros Hin Hc Hv. repeat split.
  - unfold V1.composePrimitives. eapply includes_trans.
    + apply includes_join. do 5 right. left. reflexivity.
    + apply includes_join. apply (omap_In _ _ t); [exact Hin|].
      unfold V1.primitiveLine. now rewrite Hc, Hv.
  - unfold V2.composePrimitives. eapply includes_trans.
    + apply includes_join. do 6 right. left. reflexivity.
    + apply includes_join. apply (omap_In _ _ t); [exact Hin|].
      unfold V2.primitiveLine. now rewrite Hc, Hv.
  - unfold V1.composeSemantic. eapply includes_trans.
    + apply includes_join. do 5 right. left. reflexivity.
    + apply includes_join. apply (omap_In _ _ t); [exact Hin|].
      unfold V1.semanticLine. now rewrite Hc, Hv.
Qed.

(** X25, at the [leg] primitive of the trial inputs. *)
Lemma early_documents_lines_witness :
  includes (V2.composePrimitives None None [legToken])
    "    val Navalblue = Color(0xFF001122)" = true.
Proof.
  exact (proj1 (proj2 (early_documents_lines None None [legToken] legToken
                         "Color(0xFF001122)" (or_introl eq_refl) eq_refl
                         eq_refl))).
Defined.

(** ** Names: the rule from [Hi] to [High] *)



Lemma replaceHiUpper_one c : replaceHiUpper 0 (String c "High") = String c "High".
Proof. each_char c; reflexivity. Qed.

(** the replacement inside a name leaves a final [High] in place *)
Lemma replaceHiUpper_High n : forall J,
  (String.length J < n)%nat ->
  exists J', replaceHiUpper 0 (J +:+ "High") = J' +:+ "High".
Proof.
  induction n as [|n IH]; intros J Hn; [lia|].
  destruct J as [|c [|i [|u r]]].
  - exists "". reflexivity.
  - exists (String c ""). apply replaceHiUpper_one.
  - change (String c (String i "") +:+ "High")
      with (String c (String i (String "H" "igh"))).
    rewrite replaceHiUpper_step.
    destruct (Ascii.eqb c "H" && Ascii.eqb i "i" && isUpperAZ "H").
    + exists "High". reflexivity.
    + change (String i (String "H" "igh")) with (String i "High").
      rewrite replaceHiUpper_one. exists (String c (String i "")).
      reflexivity.
  - change (String c (String i (String u r)) +:+ "High")
      with (String c (String i (String u (r +:+ "High")))).
    rewrite replaceHiUpper_step. simpl in Hn.
    destruct (Ascii.eqb c "H" && Ascii.eqb i "i" && isUpperAZ u).
    + destruct (IH r ltac:(lia)) as [J' E]. rewrite E.
      exists ("High" +:+ String u J'). now rewrite !append_assoc.
    + change (String i (String u (r +:+ "High")))
        with (String i (String u r) +:+ "High").
      destruct (IH (String i (String u r)) ltac:(simpl; lia)) as [J' E].
      rewrite E. exists (String c J'). reflexivity.
Qed.


(** a name whose last part is [hi], before the two replacements *)
Lemma parts_hi (f : string -> string) s :
  join "" (map f (split "-" (s +:+ "-hi")))
  = join "" (map f (split "-" s)) +:+ f "hi".
Proof.
  unfold split. change (s +:+ "-hi") with (s +:+ String "-" "hi").
  rewrite splitAcc_app_sep, map_app, join_empty_app.
  reflexivity.
Qed.

Lemma High_at_end (f : string -> string) s :
  f "hi" = "Hi" ->
  endsWith
    (replaceHiUpper 0 (replaceHiEnd (join "" (map f (split "-" (s +:+ "-hi"))))))
    "High" = true.
Proof.
  intros Hf. rewrite parts_hi, Hf, replaceHiEnd_Hi.
  set (J := join "" (map f (split "-" s))).
  destruct (replaceHiUpper_High (S (String.length J)) J ltac:(lia)) as [J' E].
  rewrite E. apply endsWith_append.
Qed.

(** X26.  The rule from [Hi] to [High]: a semantic token whose name
    ends with the part [hi] (its path after the first three segments,
    joined with hyphens, ends with [-hi]) gets an identifier that ends
    with [High], in the third and in the fourth script. *)
Theorem hi_becomes_high (token : Token) (s : string) :
  join "-" (drop 3 (path token)) = s +:+ "-hi" ->
  endsWith (V4.semanticName token) "High" = true
  /\ endsWith (V3.semanticName token) "High" = true.
Proof.
  intros H.
  unfold V4.semanticName, V3.semanticName, V4.toPascalCaseSemantic,
    V3.toPascalCase.
  rewrite H. split; apply High_at_end; reflexivity.
Qed.

(** X26, at the token [wel.sem.color.brand-hi]. *)
Lemma hi_becomes_high_witness :
  endsWith (V4.semanticName brandHiToken) "High" = true.
Proof.
  exact (proj1 (hi_becomes_high brandHiToken "brand" eq_refl)).
Defined.

(** ** The order of the accessors in the second and third scripts *)

Lemma V3_fold_keys mode L reg :
  map fst (fold_left (V3.collectToken mode) L reg)
  = fold_left insertNew (map V3.semanticName (List.filter hasColor L))
      (map fst reg).
Proof.
  revert reg. induction L as [|t L IH]; intros reg; [reflexivity|].
  simpl fold_left. rewrite IH. simpl List.filter.
  unfold hasColor at 2, V3.collectToken.
  destruct (toComposeColor (tokenValue t)) as [c|]; [|reflexivity].
  simpl. now rewrite store_keys.
Qed.

Lemma V3_fold_ordered mode L : forall reg,
  ordered reg -> ordered (fold_left (V3.collectToken mode) L reg).
Proof.
  induction L as [|t L IH]; intros reg H; [exact H|]. simpl. apply IH.
  unfold V3.collectToken.
  destruct (toComposeColor (tokenValue t)); [|exact H].
  now apply store_ordered.
Qed.

Lemma V3_collected_ordered i : ordered (V3.collected i).
Proof.
  unfold V3.collected, V3.semanticCollect.
  do 2 apply V3_fold_ordered. reflexivity.
Qed.

Lemma V2_has_keys name reg : V2.has name reg = inb name (map fst reg).
Proof.
  induction reg as [|[n c] reg IH]; [reflexivity|].
  simpl. now rewrite IH.
Qed.

Lemma V2_assign_keys name mode v reg :
  map fst (V2.assign name mode v reg) = map fst reg.
Proof.
  induction reg as [|[n c] reg IH]; [reflexivity|]. simpl.
  destruct (String.eqb n name); simpl; [reflexivity|now rewrite IH].
Qed.

Lemma V2_store_keys name mode v reg :
  map fst (V2.store name mode v reg) = insertNew (map fst reg) name.
Proof.
  unfold V2.store, insertNew. rewrite V2_assign_keys, V2_has_keys.
  destruct (inb name (map fst reg)); [reflexivity|].
  now rewrite map_app.
Qed.

Lemma V2_fold_keys mode L reg :
  map fst (fold_left (V2.collectToken mode) L reg)
  = fold_left insertNew (map V2.semanticName (List.filter hasColor L))
      (map fst reg).
Proof.
  revert reg. induction L as [|t L IH]; intros reg; [reflexivity|].
  simpl fold_left. rewrite IH. simpl List.filter.
  unfold hasColor at 2, V2.collectToken.
  destruct (toComposeColor (tokenValue t)) as [c|]; [|reflexivity].
  simpl. now rewrite V2_store_keys.
Qed.

Lemma entries_zip_with (f : string -> string * string -> string)
  (es : list (string * string * string)) :
  map (fun '(name, l, d) => f name (l, d)) es
  = zip_with f (map (fun e => fst (fst e)) es)
      (map (fun e => (snd (fst e), snd e)) es).
Proof.
  induction es as [|[[n l] d] es IH]; [reflexivity|]. simpl. now rewrite IH.
Qed.

Lemma entries_zip (es : list (string * string * string)) :
  map (fun e => (fst (fst e), (snd (fst e), snd e))) es
  = zip (map (fun e => fst (fst e)) es)
      (map (fun e => (snd (fst e), snd e)) es).
Proof.
  induction es as [|[[n l] d] es IH]; [reflexivity|]. simpl. now rewrite IH.
Qed.

Lemma V3_names_first_seen (i : V3.Inputs) (m : gmap string string) :
  map (fun e => fst (fst e)) (V3.entries m (V3.collected i))
  = firstSeen
      (map V3.semanticName
         (storedWith V3.accepts (V3.lightTokens i)
          ++ storedWith V3.accepts (V3.darkTokens i))).
Proof.
  unfold V3.entries.
  change V3.compareOrder with V4.compareOrder.
  rewrite (sortBy_ordered _ (V3_collected_ordered i)), map_map.
  rewrite (map_ext _ fst) by now intros [n c].
  unfold V3.collected, V3.semanticCollect.
  rewrite !V3_fold_keys. simpl map at 3.
  rewrite <- fold_left_app, <- map_app, firstSeen_fold.
  reflexivity.
Qed.

Lemma V2_names_first_seen (lightTokens darkTokens : list Token) :
  map (fun e => fst (fst e))
    (V2.entries (V2.buildRegistry lightTokens darkTokens))
  = firstSeen
      (map V2.semanticName
         (storedWith V2.accepts lightTokens
          ++ storedWith V2.accepts darkTokens)).
Proof.
  unfold V2.entries. rewrite map_map.
  rewrite (map_ext _ fst) by now intros [n c].
  unfold V2.buildRegistry, V2.semanticCollect.
  rewrite !V2_fold_keys. simpl map at 3.
  rewrite <- fold_left_app, <- map_app, firstSeen_fold.
  reflexivity.
Qed.

(** the text of the semantics document the third script writes *)
Lemma V3_semantics_text localeCompare i :
  snd (V3.buildTokens localeCompare i)
  = "package com.accor.designsystem.compose" +:+ nl +:+ nl
    +:+ "import androidx.compose.runtime.Composable" +:+ nl
    +:+ "import androidx.compose.ui.geometry.Offset" +:+ nl
    +:+ "import androidx.compose.ui.graphics.Brush" +:+ nl
    +:+ "import androidx.compose.ui.graphics.Color" +:+ nl
    +:+ "import com.accor.designsystem.compose.AccorColor.getColor"
    +:+ nl +:+ nl
    +:+ "object AccorColorSemantics {" +:+ nl +:+ nl
    +:+ join nl
          (map (fun '(name, l, d) =>
                  "    val " +:+ name +:+ nl
                  +:+ "        @Composable" +:+ nl
                  +:+ "        get() = getColor(light = " +:+ l
                  +:+ ", dark = " +:+ d +:+ ")")
             (V3.entries (V3.primitiveColorMap i) (V3.collected i)))
    +:+ nl +:+ "}" +:+ nl.
Proof. reflexivity. Qed.

(** the text of the semantics document the second script writes *)
Lemma V2_semantics_text packageName objectName reg :
  V2.generateMergedSemanticColors packageName objectName reg
  = ("package " +:+ packageName) +:+ nl +:+ nl
    +:+ "import androidx.compose.runtime.Composable" +:+ nl
    +:+ "import androidx.compose.ui.graphics.Color" +:+ nl +:+ nl
    +:+ ("object " +:+ objectName +:+ " {") +:+ nl
    +:+ join (nl +:+ nl)
          (map (fun '(name, l, d) =>
                  "    val " +:+ name +:+ nl
                  +:+ "        @Composable" +:+ nl
                  +:+ "        get() = getColor(light = " +:+ l
                  +:+ ", dark = " +:+ d +:+ ")")
             (V2.entries reg))
    +:+ nl +:+ "}" +:+ nl +:+ nl
    +:+ "@Composable" +:+ nl
    +:+ "private fun getColor(light: Color, dark: Color): Color {" +:+ nl
    +:+ "    return if (isSystemInDarkTheme()) dark else light" +:+ nl
    +:+ "}" +:+ nl +:+ nl
    +:+ "@Composable" +:+ nl
    +:+ "private fun isSystemInDarkTheme(): Boolean {" +:+ nl
    +:+ "    return androidx.compose.foundation.isSystemInDarkTheme()" +:+ nl
    +:+ "}" +:+ nl.
Proof. reflexivity. Qed.

(** X27.  In the second and the third script too the semantics
    document is its heading, the accessors one after the other and what
    closes it, and the accessors are those of the names of the tokens
    stored by the light pass followed by those stored by the dark pass,
    each name once, at its first place: in the third script the sort by
    order keeps that order, in the second, which has no order number
    and no sort, it is the order of the map. *)
Theorem early_first_seen_order :
  (forall (localeCompare : string -> string -> Z) (i : V3.Inputs),
     exists values : list (string * string),
       snd (V3.buildTokens localeCompare i)
       = "package com.accor.designsystem.compose" +:+ nl +:+ nl
         +:+ "import androidx.compose.runtime.Composable" +:+ nl
         +:+ "import androidx.compose.ui.geometry.Offset" +:+ nl
         +:+ "import androidx.compose.ui.graphics.Brush" +:+ nl
         +:+ "import androidx.compose.ui.graphics.Color" +:+ nl
         +:+ "import com.accor.designsystem.compose.AccorColor.getColor"
         +:+ nl +:+ nl
         +:+ "object AccorColorSemantics {" +:+ nl +:+ nl
         +:+ join nl
               (zip_with
                  (fun name v =>
                     "    val " +:+ name +:+ nl
                     +:+ "        @Composable" +:+ nl
                     +:+ "        get() = getColor(light = " +:+ fst v
                     +:+ ", dark = " +:+ snd v +:+ ")")
                  (firstSeen
                     (map V3.semanticName
                        (storedWith V3.accepts (V3.lightTokens i)
                         ++ storedWith V3.accepts (V3.darkTokens i))))
                  values)
         +:+ nl +:+ "}" +:+ nl
       /\ length values
          = length
              (firstSeen
                 (map V3.semanticName
                    (storedWith V3.accepts (V3.lightTokens i)
                     ++ storedWith V3.accepts (V3.darkTokens i))))
       /\ map (fun e => (fst (fst e), (snd (fst e), snd e)))
            (V3.entries (V3.primitiveColorMap i) (V3.collected i))
          = zip
              (firstSeen
                 (map V3.semanticName
                    (storedWith V3.accepts (V3.lightTokens i)
                     ++ storedWith V3.accepts (V3.darkTokens i))))
              values)
  /\ (forall (packageName objectName : string)
        (lightTokens darkTokens : list Token),
        exists values : list (string * string),
          V2.generateMergedSemanticColors packageName objectName
            (V2.buildRegistry lightTokens darkTokens)
          = ("package " +:+ packageName) +:+ nl +:+ nl
            +:+ "import androidx.compose.runtime.Composable" +:+ nl
            +:+ "import androidx.compose.ui.graphics.Color" +:+ nl +:+ nl
            +:+ ("object " +:+ objectName +:+ " {") +:+ nl
            +:+ join (nl +:+ nl)
                  (zip_with
                     (fun name v =>
                        "    val " +:+ name +:+ nl
                        +:+ "        @Composable" +:+ nl
                        +:+ "        get() = getColor(light = " +:+ fst v
                        +:+ ", dark = " +:+ snd v +:+ ")")
                     (firstSeen
                        (map V2.semanticName
                           (storedWith V2.accepts lightTokens
                            ++ storedWith V2.accepts darkTokens)))
                     values)
            +:+ nl +:+ "}" +:+ nl +:+ nl
            +:+ "@Composable" +:+ nl
            +:+ "private fun getColor(light: Color, dark: Color): Color {"
            +:+ nl
            +:+ "    return if (isSystemInDarkTheme()) dark else light"
            +:+ nl
            +:+ "}" +:+ nl +:+ nl
            +:+ "@Composable" +:+ nl
            +:+ "private fun isSystemInDarkTheme(): Boolean {" +:+ nl
            +:+ "    return androidx.compose.foundation.isSystemInDarkTheme()"
            +:+ nl
            +:+ "}" +:+ nl
          /\ length values
             = length
                 (firstSeen
                    (map V2.semanticName
                       (storedWith V2.accepts lightTokens
                        ++ storedWith V2.accepts darkTokens)))
          /\ map (fun e => (fst (fst e), (snd (fst e), snd e)))
               (V2.entries (V2.buildRegistry lightTokens darkTokens))
             = zip
                 (firstSeen
                    (map V2.semanticName
                       (storedWith V2.accepts lightTokens
                        ++ storedWith V2.accepts darkTokens)))
                 values).
Proof.
  split.
  - intros localeCompare i.
    rewrite V3_semantics_text,
      <- (V3_names_first_seen i (V3.primitiveColorMap i)).
    generalize (V3.entries (V3.primitiveColorMap i) (V3.collected i)).
    intros es. exists (map (fun e => (snd (fst e), snd e)) es).
    split; [|split].
    + now rewrite <- entries_zip_with.
    + now rewrite !length_map.
    + apply entries_zip.
  - intros packageName objectName L D.
    rewrite V2_semantics_text, <- (V2_names_first_seen L D).
    generalize (V2.entries (V2.buildRegistry L D)).
    intros es. exists (map (fun e => (snd (fst e), snd e)) es).
    split; [|split].
    + now rewrite <- entries_zip_with.
    + now rewrite !length_map.
    + apply entries_zip.
Qed.

(** the semantics document of the third script at the names [Raw] and
    [Night] *)
Example V3_semantics_of_modeInputs :
  snd (V3.buildTokens (fun _ _ => 0) modeInputs)
  = join nl
      [ "package com.accor.designsystem.compose"; "";
        "import androidx.compose.runtime.Composable";
        "import androidx.compose.ui.geometry.Offset";
        "import androidx.compose.ui.graphics.Brush";
        "import androidx.compose.ui.graphics.Color";
        "import com.accor.designsystem.compose.AccorColor.getColor"; "";
        "object AccorColorSemantics {"; "";
        "    val Raw";
        "        @Composable";
        "        get() = getColor(light = AccorColorPrimitives.Blue500, dark = AccorColorPrimitives.Blue500)";
        "    val Night";
        "        @Composable";
        "        get() = getColor(light = Color.Unspecified, dark = Color(0xFF000000))";
        "}"; "" ].
Proof. vm_compute. reflexivity. Qed.
